(** * Utility layer of the construction-materials management system

    A shallow embedding of [src/utils.py] and the properties of its
    validation, reporting, security, calculation and export helpers.

    Conventions of the embedding:
    - a Python [str] is a list of Unicode code points ([char := N]);
    - a Python [bytes] is a [list byte];
    - Python numbers that the code treats as reals (quantities, prices,
      areas, amounts) are exact rationals [Q]; rounding of binary floating
      point is not modelled;
    - code that can raise returns a [result], with the exception classes of
      [exn]; code that draws randomness or writes files threads its state
      explicitly;
    - the Unicode character tables, the key derivation primitive, the
      datetime library, the [csv] writer and the operating system are
      outside the repository: they are parameters of the embedding, as
      classes or Section variables. *)

From Stdlib Require Import ZArith NArith QArith Qfield Lia List Bool Ascii String.
From Stdlib Require Import Qabs Qround.
From Stdlib.Strings Require Import Byte.
From Stdlib Require DecimalFacts DecimalN.
From stdpp Require Import base option list gmap.

Local Open Scope Z_scope.

(** ** Python values common to all utilities *)

Module Py.

(** A character is its Unicode code point. *)
Definition char : Type := N.
Definition str : Type := list char.
Definition bytes : Type := list byte.

(** String literals of the source, which are all ASCII. *)
Definition lit (s : string) : str :=
  List.map N_of_ascii (list_ascii_of_string s).

Definition chr (a : ascii) : char := N_of_ascii a.

(** The exception classes the utilities meet.  [KeyboardInterrupt] and
    [SystemExit] derive from [BaseException] only; all the others derive
    from [Exception]. *)
Inductive exn : Type :=
| TypeError
| ValueError
| AttributeError
| KeyError
| IndexError
| ZeroDivisionError
| OverflowError
| UnicodeEncodeError
| RecursionError
| OSError
| KeyboardInterrupt
| SystemExit.

Definition is_Exception (e : exn) : bool :=
  match e with
  | KeyboardInterrupt | SystemExit => false
  | _ => true
  end.

Inductive result (A : Type) : Type :=
| Ok (a : A)
| Raise (e : exn).
Arguments Ok {A} a.
Arguments Raise {A} e.

Definition bind {A B} (r : result A) (k : A -> result B) : result B :=
  match r with
  | Ok a => k a
  | Raise e => Raise e
  end.

(** [try: body except (classes): handler] *)
Definition try_except {A} (body : result A) (catches : exn -> bool)
    (handler : result A) : result A :=
  match body with
  | Ok a => Ok a
  | Raise e => if catches e then handler else Raise e
  end.

(** The keys of dicts.  A tuple key is known by what [str()] returns on
    it. *)
Inductive pykey : Type :=
| KNone
| KBool (b : bool)
| KInt (z : Z)
| KStr (s : str)
| KTuple (rendering : str).

(** Dynamically typed values.  A dict is the list of its items in
    insertion order; [PObj] is an object of any other class (a date, a
    datetime, a decimal), known by what [str()] returns on it. *)
#[warnings="-register-all"]
Inductive pyval : Type :=
| PNone
| PBool (b : bool)
| PInt (z : Z)
| PStr (s : str)
| PList (l : list pyval)
| PTuple (l : list pyval)
| PDict (items : list (pykey * pyval))
| PObj (rendering : str).

Definition val_of_key (k : pykey) : pyval :=
  match k with
  | KNone => PNone
  | KBool b => PBool b
  | KInt z => PInt z
  | KStr s => PStr s
  | KTuple r => PObj r
  end.

(** [len(v)] *)
Definition len (v : pyval) : result Z :=
  match v with
  | PStr s => Ok (Z.of_nat (length s))
  | PList l | PTuple l => Ok (Z.of_nat (length l))
  | PDict items => Ok (Z.of_nat (length items))
  | _ => Raise TypeError
  end.

(** [for c in v]: the elements the iteration yields. *)
Definition iter (v : pyval) : result (list pyval) :=
  match v with
  | PStr s => Ok (List.map (fun c => PStr [c]) s)
  | PList l | PTuple l => Ok l
  | PDict items => Ok (List.map (fun kv => val_of_key (fst kv)) items)
  | _ => Raise TypeError
  end.

(** [any(f(c) for c in l)], which stops at the first true element. *)
Fixpoint any (f : pyval -> result bool) (l : list pyval) : result bool :=
  match l with
  | [] => Ok false
  | c :: l' =>
      match f c with
      | Ok true => Ok true
      | Ok false => any f l'
      | Raise e => Raise e
      end
  end.

(** [c.m()] for a method [m] that only [str] has. *)
Definition str_method (m : str -> bool) (c : pyval) : result bool :=
  match c with
  | PStr t => Ok (m t)
  | _ => Raise AttributeError
  end.

(** A hexadecimal digit, in lower case. *)
Definition hex_digit (n : N) : char :=
  (if n <? 10 then 48 + n else 87 + n)%N.

(** [s.startswith(p)] *)
Fixpoint startswith (s p : str) {struct p} : bool :=
  match p, s with
  | [], _ => true
  | _ :: _, [] => false
  | a :: p', b :: s' => N.eqb a b && startswith s' p'
  end.

(** [p in s] for strings *)
Fixpoint contains (p s : str) : bool :=
  startswith s p ||
  match s with
  | [] => false
  | _ :: s' => contains p s'
  end.

(** The character tables of the interpreter's Unicode database.
    [re_digit] is what [\d] matches in a str pattern (category Nd),
    [re_space] what [\s] matches; the other three are the str methods
    of the same names. *)
Class Unicode : Type := {
  re_digit : char -> bool;
  re_space : char -> bool;
  isupper : str -> bool;
  islower : str -> bool;
  isdigit : str -> bool
}.

(** What the properties below use of the ASCII part of the tables: the
    digits 0 to 9 are decimal digits, the newline is white space, the
    slash and the backslash are not. *)
Class UnicodeAscii (U : Unicode) : Prop := {
  re_digit_ascii :
    forall c : char, (48 <= c <= 57)%N -> re_digit c = true;
  re_space_newline : re_space 10%N = true;
  re_space_slash : re_space 47%N = false;
  re_space_backslash : re_space 92%N = false
}.

(** A float as [float()] can return it. *)
Inductive pyfloat : Type :=
| Finite (q : Q)
| Inf (negative : bool)
| NaN.

(** [x >= 0] on a float *)
Definition float_ge0 (x : pyfloat) : bool :=
  match x with
  | Finite q => Qle_bool 0 q
  | Inf negative => negb negative
  | NaN => false
  end.

(** True division of two numbers. *)
Definition truediv (a b : Q) : result Q :=
  if Qeq_bool b 0 then Raise ZeroDivisionError else Ok (a / b)%Q.

End Py.

Import Py.

(** [result] is an error monad; [x ← r; k] is stdpp's bind notation. *)
#[global] Instance result_ret : MRet result := fun A a => Ok a.
#[global] Instance result_bind : MBind result := fun A B k r => Py.bind r k.

(** ** The [re] module, for the patterns of the source *)

Module Regex.

Inductive re : Type :=
| Void
| Eps
| Cls (p : char -> bool)
| Cat (r1 r2 : re)
| Alt (r1 r2 : re)
| Star (r : re).

(** [r+] and [r{2,}] *)
Definition Plus (r : re) : re := Cat r (Star r).
Definition AtLeast2 (r : re) : re := Cat r (Cat r (Star r)).

Fixpoint nullable (r : re) : bool :=
  match r with
  | Void => false
  | Eps => true
  | Cls _ => false
  | Cat r1 r2 => nullable r1 && nullable r2
  | Alt r1 r2 => nullable r1 || nullable r2
  | Star _ => true
  end.

Fixpoint deriv (c : char) (r : re) : re :=
  match r with
  | Void => Void
  | Eps => Void
  | Cls p => if p c then Eps else Void
  | Cat r1 r2 =>
      if nullable r1 then Alt (Cat (deriv c r1) r2) (deriv c r2)
      else Cat (deriv c r1) r2
  | Alt r1 r2 => Alt (deriv c r1) (deriv c r2)
  | Star r1 => Cat (deriv c r1) (Star r1)
  end.

(** The whole of [s] is a word of [r]. *)
Fixpoint matches (r : re) (s : str) : bool :=
  match s with
  | [] => nullable r
  | c :: s' => matches (deriv c r) s'
  end.

(** [s] without its last character, when that is a newline. *)
Fixpoint chop_newline (s : str) : option str :=
  match s with
  | [] => None
  | [c] => if N.eqb c 10 then Some [] else None
  | c :: s' => option_map (cons c) (chop_newline s')
  end.

(** [re.match('^' r '$', s) is not None]: [$] is the end of the string
    or the position before a newline that ends it. *)
Definition match_to_end (r : re) (s : str) : bool :=
  matches r s ||
  match chop_newline s with
  | Some s' => matches r s'
  | None => false
  end.

(** [re.search(cls, s)] for a pattern that is one character class *)
Definition search_class (p : char -> bool) (s : str) : bool := existsb p s.

(** [re.sub(cls, repl, s)] for a pattern that is one character class *)
Definition sub_class (p : char -> bool) (repl : str) (s : str) : str :=
  List.concat (List.map (fun c => if p c then repl else [c]) s).

(** The subject of a str pattern has to be a str. *)
Definition subject (v : pyval) : result str :=
  match v with
  | PStr s => Ok s
  | _ => Raise TypeError
  end.

(** Character classes *)
Definition range (a b : ascii) (c : char) : bool :=
  (chr a <=? c)%N && (c <=? chr b)%N.
Definition one_of (chars : string) (c : char) : bool :=
  existsb (N.eqb c) (lit chars).
Definition alnum (c : char) : bool :=
  range "a" "z" c || range "A" "Z" c || range "0" "9" c.

(** The words of a pattern, as the documentation of [re] defines them. *)
Inductive lang : re -> str -> Prop :=
| lang_eps : lang Eps []
| lang_cls p c : p c = true -> lang (Cls p) [c]
| lang_cat r1 r2 s1 s2 :
    lang r1 s1 -> lang r2 s2 -> lang (Cat r1 r2) (s1 ++ s2)
| lang_alt_l r1 r2 s : lang r1 s -> lang (Alt r1 r2) s
| lang_alt_r r1 r2 s : lang r2 s -> lang (Alt r1 r2) s
| lang_star_nil r : lang (Star r) []
| lang_star_app r s1 s2 :
    lang r s1 -> lang (Star r) s2 -> lang (Star r) (s1 ++ s2).

End Regex.

(** The tables restricted to Basic Latin, an instance to run the code on. *)
Module BasicLatin.
Import Regex.

Definition upper (s : str) : bool :=
  existsb (range "A" "Z") s && negb (existsb (range "a" "z") s).
Definition lower (s : str) : bool :=
  existsb (range "a" "z") s && negb (existsb (range "A" "Z") s).
Definition digits (s : str) : bool :=
  negb (length s =? 0)%nat && forallb (range "0" "9") s.
Definition space (c : char) : bool :=
  ((9 <=? c) && (c <=? 13) || (28 <=? c) && (c <=? 32))%N.

Definition tables : Unicode :=
  {| re_digit := range "0" "9";
     re_space := space;
     isupper := upper;
     islower := lower;
     isdigit := digits |}.

End BasicLatin.

(** ** ValidationUtils *)

Module ValidationUtils.
Import Regex.

Section WithRuntime.
Context {U : Unicode}.
(** [float(s)] on a str: the float, or [None] for [ValueError]. *)
Variable float_of_str : str -> option pyfloat.

(** [^[a-zA-Z0-9._%+-]+@[a-zA-Z0-9.-]+\.[a-zA-Z]{2,}$] *)
Definition email_pattern : re :=
  Cat (Plus (Cls (fun c => alnum c || one_of "._%+-" c)))
 (Cat (Cls (one_of "@"))
 (Cat (Plus (Cls (fun c => alnum c || one_of ".-" c)))
 (Cat (Cls (one_of "."))
      (AtLeast2 (Cls (fun c => range "a" "z" c || range "A" "Z" c)))))).

Definition validate_email (email : pyval) : result bool :=
  s ← subject email;
  Ok (match_to_end email_pattern s).

Definition validate_phone (phone : pyval) : result bool :=
  s ← subject phone;
  let digits_only := sub_class (fun c => negb (re_digit c)) [] s in
  if (length digits_only =? 12)%nat && startswith digits_only (lit "237")
  then Ok true
  else if (length digits_only =? 9)%nat then Ok true
  else Ok false.

Record password_validations : Type := {
  v_length : bool;
  has_upper : bool;
  has_lower : bool;
  has_digit : bool;
  has_special : bool
}.

(** The special characters of the pattern of [has_special]: the
    punctuation below and the double quote (code 34). *)
Definition special (c : char) : bool :=
  one_of "!@#$%^&*(),.?:{}|<>" c || N.eqb c 34.

Definition validate_password (password : pyval) : result password_validations :=
  n ← len password;
  cs ← iter password;
  up ← any (str_method isupper) cs;
  cs ← iter password;
  lo ← any (str_method islower) cs;
  cs ← iter password;
  di ← any (str_method isdigit) cs;
  s ← subject password;
  Ok {| v_length := (8 <=? n);
        has_upper := up;
        has_lower := lo;
        has_digit := di;
        has_special := search_class special s |}.

Definition validate_price (price_str : pyval) : result (option pyfloat) :=
  try_except
    (s ← subject price_str;
     let clean_price := sub_class (fun c => N.eqb c 44 || re_space c) [] s in
     price ← match float_of_str clean_price with
             | Some x => Ok x
             | None => Raise ValueError
             end;
     Ok (if float_ge0 price then Some price else None))
    (fun e => match e with ValueError | TypeError => true | _ => false end)
    (Ok None).

End WithRuntime.

End ValidationUtils.

(** ** SecurityUtils *)

Module SecurityUtils.
Import Regex.

(** [s.encode('utf-8')] *)
Definition byte_of_N (n : N) : byte :=
  match Byte.of_N (n mod 256) with
  | Some b => b
  | None => x00
  end.

Definition utf8_char (c : char) : result bytes :=
  (if c <? 128 then Ok [byte_of_N c]
   else if c <? 2048 then
     Ok [byte_of_N (192 + c / 64); byte_of_N (128 + c mod 64)]
   else if (55296 <=? c) && (c <=? 57343) then Raise UnicodeEncodeError
   else if c <? 65536 then
     Ok [byte_of_N (224 + c / 4096); byte_of_N (128 + (c / 64) mod 64);
         byte_of_N (128 + c mod 64)]
   else
     Ok [byte_of_N (240 + c / 262144); byte_of_N (128 + (c / 4096) mod 64);
         byte_of_N (128 + (c / 64) mod 64); byte_of_N (128 + c mod 64)])%N.

Fixpoint encode_utf8 (s : str) : result bytes :=
  match s with
  | [] => Ok []
  | c :: s' =>
      b ← utf8_char c;
      bs ← encode_utf8 s';
      Ok (b ++ bs)
  end.

(** The code points UTF-8 has an encoding for. *)
Definition not_surrogate (c : char) : Prop := ~ (55296 <= c <= 57343)%N.

(** [b.hex()] *)
Definition hex (b : bytes) : str :=
  List.concat
    (List.map (fun x => [hex_digit (Byte.to_N x / 16); hex_digit (Byte.to_N x mod 16)]%N) b).

Section WithPlatform.
(** The state of the operating system's entropy source. *)
Variable world : Type.
(** [os.urandom(n)] *)
Variable urandom : nat -> world -> bytes * world.
(** [hashlib.pbkdf2_hmac('sha256', password, salt, iterations)] *)
Variable pbkdf2_hmac_sha256 : bytes -> bytes -> N -> bytes.

Definition hash_password (password : str) (salt : option str) (w : world)
    : result (str * str) * world :=
  let '(salt, w) :=
    match salt with
    | None => let '(r, w') := urandom 32 w in (hex r, w')
    | Some s => (s, w)
    end in
  (p ← encode_utf8 password;
   s ← encode_utf8 salt;
   let password_hash := pbkdf2_hmac_sha256 p s 100000 in
   Ok (hex password_hash, salt),
   w).

Definition verify_password (password stored_hash salt : str) (w : world)
    : result bool * world :=
  let '(r, w) := hash_password password (Some salt) w in
  (hs ← r;
   Ok (bool_decide (fst hs = stored_hash)),
   w).

End WithPlatform.

Section WithUnicode.
Context {U : Unicode}.

(** The class of [[a-zA-Z0-9._\-\s]] *)
Definition safe_char (c : char) : bool :=
  alnum c || one_of "._-" c || re_space c.

Definition is_safe_filename (filename : str) : bool :=
  let safe_chars := match_to_end (Plus (Cls safe_char)) filename in
  let no_dots :=
    negb (startswith filename (lit ".")) && negb (contains (lit "..") filename) in
  safe_chars && no_dots.

End WithUnicode.

End SecurityUtils.

(** ** CalculationUtils *)

Module CalculationUtils.

Definition calculate_percentage_change (old_value new_value : Q) : result Q :=
  if Qeq_bool old_value 0 then
    Ok (if negb (Qeq_bool new_value 0) then 100%Q else 0%Q)
  else
    d ← truediv (new_value - old_value)%Q old_value;
    Ok (d * 100)%Q.

Definition calculate_material_requirements
    (area material_coverage waste_factor : Q) : result Q :=
  if Qeq_bool material_coverage 0 then Ok 0%Q
  else
    basic_requirement ← truediv area material_coverage;
    let with_waste := (basic_requirement * (1 + waste_factor))%Q in
    Ok with_waste.

(** The default of the third argument. *)
Definition default_waste_factor : Q := (1 # 10)%Q.

End CalculationUtils.

(** ** DateTimeUtils *)

(** The part of the [datetime] module the utilities call.  [strptime] and
    [fromisoformat] return [None] where the library raises [ValueError];
    [sub_days d n] is [d - timedelta(days=n)], which raises
    [OverflowError] out of the range of dates. *)
Class DatetimeLib : Type := {
  datetime : Type;
  strptime : str -> str -> option datetime;
  fromisoformat : str -> option datetime;
  strftime : datetime -> str -> str;
  dt_le : datetime -> datetime -> bool;
  sub_days : datetime -> Z -> result datetime;
  isoformat : datetime -> str
}.

Module DateTimeUtils.
Section WithDatetime.
Context {L : DatetimeLib}.

(** [s.replace('Z', '+00:00')] *)
Definition replace_Z (s : str) : str :=
  List.concat (List.map (fun c => if N.eqb c 90 then lit "+00:00" else [c]) s).

Definition format_date (date_obj : str + datetime) (format_str : str) : str :=
  match date_obj with
  | inl s =>
      match fromisoformat (replace_Z s) with
      | Some d => strftime d format_str
      | None => s
      end
  | inr d => strftime d format_str
  end.

Definition default_format : str := lit "%d/%m/%Y".

Definition formats : list str :=
  [lit "%Y-%m-%d"; lit "%d/%m/%Y"; lit "%m/%d/%Y"; lit "%Y-%m-%d %H:%M:%S"].

(** The loop over the formats: the first one that parses wins. *)
Fixpoint first_format (date_str : str) (fs : list str) : option datetime :=
  match fs with
  | [] => None
  | format_str :: fs' =>
      match strptime date_str format_str with
      | Some d => Some d
      | None => first_format date_str fs'
      end
  end.

(** [strptime] raises [TypeError], which the loop does not catch, when
    its argument is not a str. *)
Definition parse_date (date_str : pyval) : result (option datetime) :=
  match date_str with
  | PStr s => Ok (first_format s formats)
  | _ => Raise TypeError
  end.

End WithDatetime.
End DateTimeUtils.

(** ** ReportUtils *)

Module ReportUtils.
Import DateTimeUtils.

(** A [for] loop whose body can raise. *)
Fixpoint for_each {A S : Type} (body : S -> A -> result S) (l : list A) (s : S)
    : result S :=
  match l with
  | [] => Ok s
  | a :: l' => s' ← body s a; for_each body l' s'
  end.

(** [sum(xs)] *)
Definition sum (xs : list Q) : Q := fold_left Qplus xs 0%Q.

(** An inventory line: the keys the report reads, [None] for a key the
    dict does not have. *)
Record item : Type := {
  quantity : option Q;
  price : option Q;
  category : option str
}.

Record category_totals : Type := { count : Z; value : Q }.

Record inventory_report : Type := {
  total_items : Z;
  total_value : Q;
  low_stock_count : Z;
  low_stock_items : list item;
  categories : gmap str category_totals;
  generated_date : str
}.

(** [item.get('quantity', 0) * item.get('price', 0)] *)
Definition item_value (it : item) : Q :=
  (default 0 (quantity it) * default 0 (price it))%Q.

(** [item.get('quantity', 0) < 10] *)
Definition low_stock (it : item) : bool :=
  negb (Qle_bool 10 (default 0%Q (quantity it))).

(** The body of the loop over the categories. *)
Definition add_to_category (categories : gmap str category_totals) (it : item)
    : gmap str category_totals :=
  let category := default (lit "Unknown") (category it) in
  let categories :=
    match categories !! category with
    | None => <[category := {| count := 0; value := 0%Q |}]> categories
    | Some _ => categories
    end in
  let categories :=
    alter (fun e => {| count := count e + 1; value := value e |})
          category categories in
  alter (fun e => {| count := count e; value := (value e + item_value it)%Q |})
        category categories.

Section WithDatetime.
Context {L : DatetimeLib}.

(** [now] is what [datetime.datetime.now()] returns at the call. *)
Definition generate_inventory_report (store_data : list item) (now : datetime)
    : inventory_report :=
  let total_items := Z.of_nat (length store_data) in
  let total_value := sum (List.map item_value store_data) in
  let low_stock_items := List.filter low_stock store_data in
  let categories := fold_left add_to_category store_data ∅ in
  {| total_items := total_items;
     total_value := total_value;
     low_stock_count := Z.of_nat (length low_stock_items);
     low_stock_items := low_stock_items;
     categories := categories;
     generated_date := isoformat now |}.

(** A transaction: the keys the report reads.  The date is whatever the
    dict holds under [transaction_date]. *)
Record transaction : Type := {
  transaction_date : option pyval;
  total_amount : option Q
}.

Record day_totals : Type := { day_count : Z; revenue : Q }.

Record sales_report : Type := {
  period_days : Z;
  start_date : str;
  end_date : str;
  total_sales : Z;
  total_revenue : Q;
  average_sale : Q;
  daily_breakdown : gmap str day_totals
}.

(** [trans.get('transaction_date', '')] *)
Definition date_of (trans : transaction) : pyval :=
  default (PStr []) (transaction_date trans).

(** [trans.get('total_amount', 0)] *)
Definition amount_of (trans : transaction) : Q :=
  default 0%Q (total_amount trans).

(** The body of the first loop. *)
Definition keep_in_period (start_date end_date : datetime)
    (period_transactions : list transaction) (trans : transaction)
    : result (list transaction) :=
  trans_date ← parse_date (date_of trans);
  match trans_date with
  | Some d =>
      if dt_le start_date d && dt_le d end_date
      then Ok (period_transactions ++ [trans])
      else Ok period_transactions
  | None => Ok period_transactions
  end.

(** The body of the loop that groups by date. *)
Definition add_to_day (daily_sales : gmap str day_totals) (trans : transaction)
    : result (gmap str day_totals) :=
  parsed ← parse_date (date_of trans);
  match parsed with
  | None => Ok daily_sales
  | Some d =>
      let date_key := format_date (inr d) default_format in
      let daily_sales :=
        match daily_sales !! date_key with
        | None => <[date_key := {| day_count := 0; revenue := 0%Q |}]> daily_sales
        | Some _ => daily_sales
        end in
      let daily_sales :=
        alter (fun e => {| day_count := day_count e + 1; revenue := revenue e |})
              date_key daily_sales in
      Ok (alter (fun e => {| day_count := day_count e;
                             revenue := (revenue e + amount_of trans)%Q |})
                date_key daily_sales)
  end.

Definition generate_sales_report (transactions : list transaction)
    (period_days : Z) (now : datetime) : result sales_report :=
  let end_date := now in
  start_date ← sub_days end_date period_days;
  period_transactions ← for_each (keep_in_period start_date end_date) transactions [];
  let total_sales := Z.of_nat (length period_transactions) in
  let total_revenue := sum (List.map amount_of period_transactions) in
  avg_sale ← (if 0 <? total_sales
              then truediv total_revenue (inject_Z total_sales)
              else Ok 0%Q);
  daily_sales ← for_each add_to_day period_transactions ∅;
  Ok {| period_days := period_days;
        start_date := strftime start_date (lit "%d/%m/%Y");
        end_date := strftime end_date (lit "%d/%m/%Y");
        total_sales := total_sales;
        total_revenue := total_revenue;
        average_sale := avg_sale;
        daily_breakdown := daily_sales |}.

End WithDatetime.
End ReportUtils.

(** A calendar of day numbers written in decimal, an instance to run the
    reports on: only the first format parses, and only digits. *)
Module DayNumbers.

Fixpoint number (acc : Z) (s : str) : option Z :=
  match s with
  | [] => Some acc
  | c :: s' =>
      if ((48 <=? c) && (c <=? 57))%N
      then number (10 * acc + Z.of_N (c - 48)) s'
      else None
  end.

Definition parse (s format_str : str) : option Z :=
  match s with
  | [] => None
  | _ => if bool_decide (format_str = lit "%Y-%m-%d") then number 0 s else None
  end.

Definition lib : DatetimeLib :=
  {| datetime := Z;
     strptime := parse;
     fromisoformat := fun s => parse s (lit "%Y-%m-%d");
     strftime := fun d _ => [Z.to_N d];
     dt_le := Z.leb;
     sub_days := fun d n => Ok (d - n);
     isoformat := fun d => [Z.to_N d] |}.

End DayNumbers.

(** ** The [json] module

    The encoder as [json.dump(..., indent=2, ensure_ascii=False,
    default=str)] configures it, and the decoder of [json.load].  Floats
    are not modelled, and neither is the interpreter's recursion limit. *)

Module Json.

(** *** Encoding *)

Fixpoint uint_chars (d : Decimal.uint) : str :=
  match d with
  | Decimal.Nil => []
  | Decimal.D0 d' => 48%N :: uint_chars d'
  | Decimal.D1 d' => 49%N :: uint_chars d'
  | Decimal.D2 d' => 50%N :: uint_chars d'
  | Decimal.D3 d' => 51%N :: uint_chars d'
  | Decimal.D4 d' => 52%N :: uint_chars d'
  | Decimal.D5 d' => 53%N :: uint_chars d'
  | Decimal.D6 d' => 54%N :: uint_chars d'
  | Decimal.D7 d' => 55%N :: uint_chars d'
  | Decimal.D8 d' => 56%N :: uint_chars d'
  | Decimal.D9 d' => 57%N :: uint_chars d'
  end.

(** [int.__repr__] *)
Definition int_repr (z : Z) : str :=
  match z with
  | Zneg p => 45%N :: uint_chars (N.to_uint (Npos p))
  | _ => uint_chars (N.to_uint (Z.to_N z))
  end.

(** The replacement of one character inside a string literal: the quote
    (34) and the backslash (92) are escaped, the control characters are
    written as their short escapes or as a [u] escape. *)
Definition escape_char (c : char) : str :=
  (if c =? 34 then [92; 34]
   else if c =? 92 then [92; 92]
   else if c =? 8 then [92; 98]
   else if c =? 12 then [92; 102]
   else if c =? 10 then [92; 110]
   else if c =? 13 then [92; 114]
   else if c =? 9 then [92; 116]
   else if c <? 32 then [92; 117; 48; 48; hex_digit (c / 16); hex_digit (c mod 16)]
   else [c])%N.

Definition encode_basestring (s : str) : str :=
  34%N :: List.concat (List.map escape_char s) ++ [34%N].

(** A line break and the indentation of a nesting level. *)
Definition newline_indent (level : nat) : str :=
  10%N :: List.repeat 32%N (2 * level).

(** What a dict key is written as; the other key types are refused. *)
Definition key_str (k : pykey) : result str :=
  match k with
  | KStr s => Ok s
  | KBool true => Ok (lit "true")
  | KBool false => Ok (lit "false")
  | KNone => Ok (lit "null")
  | KInt z => Ok (int_repr z)
  | KTuple _ => Raise TypeError
  end.

Fixpoint join (sep : str) (texts : list str) : str :=
  match texts with
  | [] => []
  | [t] => t
  | t :: texts' => t ++ sep ++ join sep texts'
  end.

Definition bracket (opening closing : char) (level : nat) (texts : list str) : str :=
  opening :: newline_indent (S level)
    ++ join (44%N :: newline_indent (S level)) texts
    ++ newline_indent level ++ [closing].

Fixpoint encode (level : nat) (v : pyval) {struct v} : result str :=
  match v with
  | PStr s => Ok (encode_basestring s)
  | PNone => Ok (lit "null")
  | PBool true => Ok (lit "true")
  | PBool false => Ok (lit "false")
  | PInt z => Ok (int_repr z)
  | PList l | PTuple l =>
      match l with
      | [] => Ok (lit "[]")
      | _ =>
          texts ← (fix each (l : list pyval) : result (list str) :=
                     match l with
                     | [] => Ok []
                     | x :: l' =>
                         t ← encode (S level) x;
                         ts ← each l';
                         Ok (t :: ts)
                     end) l;
          Ok (bracket 91%N 93%N level texts)
      end
  | PDict items =>
      match items with
      | [] => Ok (lit "{}")
      | _ =>
          texts ← (fix each (items : list (pykey * pyval)) : result (list str) :=
                     match items with
                     | [] => Ok []
                     | (k, x) :: items' =>
                         key ← key_str k;
                         t ← encode (S level) x;
                         ts ← each items';
                         Ok ((encode_basestring key ++ lit ": " ++ t) :: ts)
                     end) items;
          Ok (bracket 123%N 125%N level texts)
      end
  | PObj rendering => Ok (encode_basestring rendering)
  end.

(** The two loops of [encode], by name. *)
Definition encode_elements (level : nat) : list pyval -> result (list str) :=
  fix each (l : list pyval) : result (list str) :=
    match l with
    | [] => Ok []
    | x :: l' =>
        t ← encode (S level) x;
        ts ← each l';
        Ok (t :: ts)
    end.

Definition encode_members (level : nat) : list (pykey * pyval) -> result (list str) :=
  fix each (items : list (pykey * pyval)) : result (list str) :=
    match items with
    | [] => Ok []
    | (k, x) :: items' =>
        key ← key_str k;
        t ← encode (S level) x;
        ts ← each items';
        Ok ((encode_basestring key ++ lit ": " ++ t) :: ts)
    end.

(** *** Decoding *)

Definition is_ws (c : char) : bool :=
  (N.eqb c 32 || N.eqb c 9 || N.eqb c 10 || N.eqb c 13)%N.

Fixpoint skip_ws (s : str) : str :=
  match s with
  | [] => []
  | c :: s' => if is_ws c then skip_ws s' else s
  end.

Definition hex_value (c : char) : option N :=
  (if (48 <=? c) && (c <=? 57) then Some (c - 48)
   else if (97 <=? c) && (c <=? 102) then Some (c - 87)
   else if (65 <=? c) && (c <=? 70) then Some (c - 55)
   else None)%N.

Definition is_high_surrogate (u : N) : bool := ((55296 <=? u) && (u <=? 56319))%N.
Definition is_low_surrogate (u : N) : bool := ((56320 <=? u) && (u <=? 57343))%N.

(** Where the scanner of a string literal is: between characters, after
    a backslash, or inside a [u] escape with [todo] digits to read. *)
Inductive scan_state : Type :=
| Plain
| Escaped
| Hex (todo : nat) (acc : N).

Definition flush (pending : option N) : str :=
  match pending with
  | Some h => [h]
  | None => []
  end.

(** The character a short escape stands for. *)
Definition unescape (c : char) : option char :=
  (if c =? 34 then Some 34
   else if c =? 92 then Some 92
   else if c =? 47 then Some 47
   else if c =? 98 then Some 8
   else if c =? 102 then Some 12
   else if c =? 110 then Some 10
   else if c =? 114 then Some 13
   else if c =? 116 then Some 9
   else None)%N.

(** The scanner of the body of a string literal, from after the opening
    quote up to the closing one.  [pending] is a high surrogate read from
    a [u] escape, kept to pair it with a low surrogate that follows. *)
Fixpoint scan (st : scan_state) (pending : option N) (out : str) (s : str)
    : option (str * str) :=
  match s with
  | [] => None
  | c :: s' =>
      match st with
      | Plain =>
          if N.eqb c 34 then Some (out ++ flush pending, s')
          else if N.eqb c 92 then scan Escaped pending out s'
          else if N.ltb c 32 then None
          else scan Plain None (out ++ flush pending ++ [c]) s'
      | Escaped =>
          if N.eqb c 117 then scan (Hex 4 0) pending out s'
          else
            match unescape c with
            | Some d => scan Plain None (out ++ flush pending ++ [d]) s'
            | None => None
            end
      | Hex todo acc =>
          match hex_value c, todo with
          | None, _ => None
          | Some _, O => None
          | Some d, S O =>
              let u := (16 * acc + d)%N in
              match pending with
              | Some h =>
                  if is_low_surrogate u
                  then scan Plain None
                         (out ++ [65536 + ((h - 55296) * 1024 + (u - 56320))]%N) s'
                  else if is_high_surrogate u
                  then scan Plain (Some u) (out ++ [h]) s'
                  else scan Plain None (out ++ [h; u]) s'
              | None =>
                  if is_high_surrogate u
                  then scan Plain (Some u) out s'
                  else scan Plain None (out ++ [u]) s'
              end
          | Some d, S todo' => scan (Hex todo' (16 * acc + d)%N) pending out s'
          end
      end
  end.

Definition scan_string (s : str) : option (str * str) := scan Plain None [] s.

Definition digit_of (c : char) : option (Decimal.uint -> Decimal.uint) :=
  (if c =? 48 then Some Decimal.D0
   else if c =? 49 then Some Decimal.D1
   else if c =? 50 then Some Decimal.D2
   else if c =? 51 then Some Decimal.D3
   else if c =? 52 then Some Decimal.D4
   else if c =? 53 then Some Decimal.D5
   else if c =? 54 then Some Decimal.D6
   else if c =? 55 then Some Decimal.D7
   else if c =? 56 then Some Decimal.D8
   else if c =? 57 then Some Decimal.D9
   else None)%N.

Fixpoint scan_digits (s : str) : Decimal.uint * str :=
  match s with
  | [] => (Decimal.Nil, [])
  | c :: s' =>
      match digit_of c with
      | Some D => let '(d, rest) := scan_digits s' in (D d, rest)
      | None => (Decimal.Nil, s)
      end
  end.

(** The integer part of a number: a zero, or a non-zero digit and all
    the digits after it. *)
Definition scan_natural (s : str) : option (N * str) :=
  match s with
  | [] => None
  | c :: s' =>
      if N.eqb c 48 then Some (0%N, s')
      else
        match digit_of c with
        | Some _ => let '(d, rest) := scan_digits s in Some (N.of_uint d, rest)
        | None => None
        end
  end.

(** A number; one with a fraction or an exponent is a float and is not
    decoded here. *)
Definition scan_number (s : str) : option (Z * str) :=
  let '(negative, s1) :=
    match s with
    | c :: s' => if N.eqb c 45 then (true, s') else (false, s)
    | [] => (false, s)
    end in
  match scan_natural s1 with
  | None => None
  | Some (n, rest) =>
      match rest with
      | c :: _ =>
          if (N.eqb c 46 || N.eqb c 101 || N.eqb c 69)%N then None
          else Some (if negative then (- Z.of_N n)%Z else Z.of_N n, rest)
      | [] => Some (if negative then (- Z.of_N n)%Z else Z.of_N n, rest)
      end
  end.

(** Python's equality of dict keys: [True] is 1 and [False] is 0. *)
Definition key_eqb (a b : pykey) : bool :=
  match a, b with
  | KNone, KNone => true
  | KBool x, KBool y => Bool.eqb x y
  | KBool x, KInt z | KInt z, KBool x => Z.eqb z (if x then 1 else 0)
  | KInt x, KInt y => Z.eqb x y
  | KStr x, KStr y => bool_decide (x = y)
  | KTuple x, KTuple y => bool_decide (x = y)
  | _, _ => false
  end.

(** [d.get(k)] and [d[k] = v] on the items of a dict *)
Fixpoint dict_get {V : Type} (k : pykey) (items : list (pykey * V)) : option V :=
  match items with
  | [] => None
  | (k', v) :: items' => if key_eqb k' k then Some v else dict_get k items'
  end.

Fixpoint dict_set {V : Type} (k : pykey) (v : V) (items : list (pykey * V))
    : list (pykey * V) :=
  match items with
  | [] => [(k, v)]
  | (k', v') :: items' =>
      if key_eqb k' k then (k', v) :: items' else (k', v') :: dict_set k v items'
  end.

(** [dict(pairs)] *)
Definition dict_of_pairs (pairs : list (str * pyval)) : list (pykey * pyval) :=
  fold_left (fun items kv => dict_set (KStr (fst kv)) (snd kv) items) pairs [].

Definition expect (word : str) (v : pyval) (s : str) : option (pyval * str) :=
  if startswith s word then Some (v, drop (length word) s) else None.

(** The scanner of one value, [decode_elements] for the rest of an array
    after its opening bracket and [decode_members] for the rest of an
    object from the quote of a key on.  [fuel] bounds the number of values
    and nesting levels read. *)
Fixpoint decode_value (fuel : nat) (s : str) : option (pyval * str) :=
  match fuel with
  | O => None
  | S fuel' =>
      match s with
      | [] => None
      | c :: s' =>
          if N.eqb c 34 then
            match scan_string s' with
            | Some (t, rest) => Some (PStr t, rest)
            | None => None
            end
          else if N.eqb c 123 then
            match skip_ws s' with
            | d :: rest =>
                if N.eqb d 125 then Some (PDict [], rest)
                else if N.eqb d 34 then
                  match decode_members fuel' rest with
                  | Some (pairs, rest') => Some (PDict (dict_of_pairs pairs), rest')
                  | None => None
                  end
                else None
            | [] => None
            end
          else if N.eqb c 91 then
            match skip_ws s' with
            | d :: rest =>
                if N.eqb d 93 then Some (PList [], rest)
                else
                  match decode_elements fuel' (d :: rest) with
                  | Some (values, rest') => Some (PList values, rest')
                  | None => None
                  end
            | [] => None
            end
          else if N.eqb c 110 then expect (lit "null") PNone s
          else if N.eqb c 116 then expect (lit "true") (PBool true) s
          else if N.eqb c 102 then expect (lit "false") (PBool false) s
          else
            match scan_number s with
            | Some (z, rest) => Some (PInt z, rest)
            | None => None
            end
      end
  end
with decode_elements (fuel : nat) (s : str) : option (list pyval * str) :=
  match fuel with
  | O => None
  | S fuel' =>
      match decode_value fuel' s with
      | None => None
      | Some (v, rest) =>
          match skip_ws rest with
          | c :: rest' =>
              if N.eqb c 93 then Some ([v], rest')
              else if N.eqb c 44 then
                match decode_elements fuel' (skip_ws rest') with
                | Some (values, rest'') => Some (v :: values, rest'')
                | None => None
                end
              else None
          | [] => None
          end
      end
  end
with decode_members (fuel : nat) (s : str) : option (list (str * pyval) * str) :=
  match fuel with
  | O => None
  | S fuel' =>
      match scan_string s with
      | None => None
      | Some (key, rest) =>
          match skip_ws rest with
          | c :: rest1 =>
              if N.eqb c 58 then
                match decode_value fuel' (skip_ws rest1) with
                | None => None
                | Some (v, rest2) =>
                    match skip_ws rest2 with
                    | d :: rest3 =>
                        if N.eqb d 125 then Some ([(key, v)], rest3)
                        else if N.eqb d 44 then
                          match skip_ws rest3 with
                          | q :: rest4 =>
                              if N.eqb q 34 then
                                match decode_members fuel' rest4 with
                                | Some (pairs, rest5) => Some ((key, v) :: pairs, rest5)
                                | None => None
                                end
                              else None
                          | [] => None
                          end
                        else None
                    | [] => None
                    end
                end
              else None
          | [] => None
          end
      end
  end.

(** [json.loads(text)]: one value between white space, and nothing after
    it; [None] is [JSONDecodeError]. *)
Definition loads (text : str) : option pyval :=
  match decode_value (S (length text)) (skip_ws text) with
  | Some (v, rest) =>
      match skip_ws rest with
      | [] => Some v
      | _ => None
      end
  | None => None
  end.

(** Fuel that is enough to decode the text of a value: one unit for the
    value and one more for each element or item, at every level. *)
Fixpoint weight (v : pyval) : nat :=
  match v with
  | PList l | PTuple l =>
      S ((fix total (l : list pyval) : nat :=
            match l with
            | [] => O
            | x :: l' => (S (weight x) + total l')%nat
            end) l)
  | PDict items =>
      S ((fix total (items : list (pykey * pyval)) : nat :=
            match items with
            | [] => O
            | (_, x) :: items' => (S (weight x) + total items')%nat
            end) items)
  | _ => 1%nat
  end.

Definition weight_elements : list pyval -> nat :=
  fix total (l : list pyval) : nat :=
    match l with
    | [] => O
    | x :: l' => (S (weight x) + total l')%nat
    end.

Definition weight_members : list (pykey * pyval) -> nat :=
  fix total (items : list (pykey * pyval)) : nat :=
    match items with
    | [] => O
    | (_, x) :: items' => (S (weight x) + total items')%nat
    end.

(** What follows a value in the text of the encoder: a comma, a line
    break, or nothing. *)
Definition delimited (rest : str) : Prop :=
  match rest with
  | [] => True
  | c :: _ => c = 44%N \/ c = 10%N
  end.

(** What the text of a value begins with: a character that is neither
    white space nor a closing bracket. *)
Definition starts_value (text : str) : Prop :=
  match text with
  | [] => False
  | c :: _ => is_ws c = false /\ c <> 93%N /\ c <> 125%N
  end.

(** *** What a value is read back as *)

(** The key as the file holds it, as a string. *)
Definition key_text (k : pykey) : str :=
  match key_str k with
  | Ok s => s
  | Raise _ => []
  end.

(** The key as the file holds it. *)
Definition key_as_json (k : pykey) : pykey :=
  match key_str k with
  | Ok s => KStr s
  | Raise _ => k
  end.

(** The value that the text of [v] denotes: objects become their
    renderings, tuples become lists, keys become strings. *)
Fixpoint as_json (v : pyval) : pyval :=
  match v with
  | PList l | PTuple l => PList (List.map as_json l)
  | PDict items =>
      PDict (List.map (fun kv => (key_as_json (fst kv), as_json (snd kv))) items)
  | PObj rendering => PStr rendering
  | _ => v
  end.



Fixpoint distinct (keys : list pykey) : bool :=
  match keys with
  | [] => true
  | k :: keys' => negb (existsb (key_eqb k) keys') && distinct keys'
  end.

(** The keys of each dict stay distinct once written as strings. *)
Fixpoint keys_distinct (v : pyval) : bool :=
  match v with
  | PList l | PTuple l => forallb keys_distinct l
  | PDict items =>
      distinct (List.map (fun kv => key_as_json (fst kv)) items)
      && forallb (fun kv => keys_distinct (snd kv)) items
  | _ => true
  end.





(** The text of [v], whatever follows it, is decoded as [as_json v]. *)
Definition reads_back (v : pyval) : Prop :=
  forall (level : nat) (text rest : str) (fuel : nat),
    encode level v = Ok text ->
    keys_distinct v = true ->
    (weight v <= fuel)%nat ->
    delimited rest ->
    decode_value fuel (text ++ rest) = Some (as_json v, rest).

End Json.

(** ** DataExportUtils *)

Module DataExportUtils.

(** The files of the machine, each with the text it holds, and the
    computations that read and write them and can raise. *)
Abbreviation filesystem := (gmap str str).

Definition io (A : Type) : Type := filesystem -> result A * filesystem.

#[global] Instance io_ret : MRet io := fun A a fs => (Ok a, fs).

#[global] Instance io_bind : MBind io := fun A B k m fs =>
  match m fs with
  | (Ok a, fs') => k a fs'
  | (Raise e, fs') => (Raise e, fs')
  end.

Definition lift {A : Type} (r : result A) : io A := fun fs => (r, fs).

(** [try: body except (classes): handler] *)
Definition io_try {A : Type} (body : io A) (catches : exn -> bool)
    (handler : io A) : io A := fun fs =>
  match body fs with
  | (Ok a, fs') => (Ok a, fs')
  | (Raise e, fs') => if catches e then handler fs' else (Raise e, fs')
  end.

Fixpoint io_for_each {A : Type} (body : A -> io unit) (l : list A) : io unit :=
  match l with
  | [] => mret tt
  | a :: l' => _ ← body a; io_for_each body l'
  end.

(** A computation that raises nothing but instances of [Exception]. *)
Definition raises_only_Exception {A : Type} (m : io A) : Prop :=
  forall fs e fs', m fs = (Raise e, fs') -> is_Exception e = true.

(** [not v] is [negb (truthy v)].  An object of another class is taken
    to be true, as objects are unless their class says otherwise; what
    is stated of the truth value of the data leaves such objects out. *)
Definition truthy (v : pyval) : bool :=
  match v with
  | PNone => false
  | PBool b => b
  | PInt z => negb (Z.eqb z 0)
  | PStr s => negb (bool_decide (s = []))
  | PList l | PTuple l => negb (bool_decide (l = []))
  | PDict items => negb (bool_decide (items = []))
  | PObj _ => true
  end.

(** [v[0]].  An object of another class is taken to have no items;
    what is stated of the rows of the data leaves such objects out. *)
Definition first_item (v : pyval) : result pyval :=
  match v with
  | PList (x :: _) | PTuple (x :: _) => Ok x
  | PStr (c :: _) => Ok (PStr [c])
  | PList [] | PTuple [] | PStr [] => Raise IndexError
  | PDict items =>
      match Json.dict_get (KInt 0) items with
      | Some x => Ok x
      | None => Raise KeyError
      end
  | _ => Raise TypeError
  end.

(** [v.keys()] *)
Definition keys (v : pyval) : result (list pykey) :=
  match v with
  | PDict items => Ok (List.map fst items)
  | _ => Raise AttributeError
  end.

(** [DictWriter._dict_to_list]: a row with a key that is no field name is
    refused, a field the row does not have is left empty. *)
Definition dict_to_list (fieldnames : list pykey) (rowdict : pyval)
    : result (list pyval) :=
  row_keys ← keys rowdict;
  let wrong_fields :=
    List.filter (fun k => negb (existsb (Json.key_eqb k) fieldnames)) row_keys in
  match wrong_fields, rowdict with
  | [], PDict items =>
      Ok (List.map (fun k => default (PStr []) (Json.dict_get k items)) fieldnames)
  | _, _ => Raise ValueError
  end.

(** The characters UTF-8 has an encoding for. *)
Definition encodable (c : char) : bool :=
  negb ((55296 <=? c) && (c <=? 57343))%N.

Section WithPlatform.
(** The operating system refuses to open the path for writing. *)
Variable unwritable : str -> bool.
(** What a dump that fails part of the way has written by then, which
    depends on how the encoder cuts its output into chunks. *)
Variable interrupted : pyval -> str.
(** One row as the [csv] writer formats it in its default dialect, with
    the line terminator. *)
Variable csv_row : list pyval -> str.

(** [open(filename, 'w', encoding='utf-8')]: a path with a null
    character is a [ValueError]; an opened file is empty. *)
Definition open_w (filename : str) : io unit := fun fs =>
  if existsb (N.eqb 0) filename then (Raise ValueError, fs)
  else if unwritable filename then (Raise OSError, fs)
  else (Ok tt, <[filename := []]> fs).

(** [f.write(text)] on the file opened at [filename] *)
Definition write (filename text : str) : io unit := fun fs =>
  if forallb encodable text
  then (Ok tt, alter (fun old => old ++ text) filename fs)
  else (Raise UnicodeEncodeError, fs).

(** [json.dump(data, f, indent=2, ensure_ascii=False, default=str)] *)
Definition json_dump (data : pyval) (filename : str) : io unit := fun fs =>
  match Json.encode 0 data with
  | Ok text =>
      if forallb encodable text then write filename text fs
      else (Raise UnicodeEncodeError, <[filename := interrupted data]> fs)
  | Raise e => (Raise e, <[filename := interrupted data]> fs)
  end.

Definition export_to_csv (data : pyval) (filename : str) : io bool :=
  io_try
    (if negb (truthy data) then mret false
     else
       _ ← open_w filename;
       first ← lift (first_item data);
       fieldnames ← lift (keys first);
       _ ← write filename (csv_row (List.map val_of_key fieldnames));
       rows ← lift (iter data);
       _ ← io_for_each
             (fun row =>
                cells ← lift (dict_to_list fieldnames row);
                write filename (csv_row cells))
             rows;
       mret true)
    is_Exception
    (mret false).

Definition export_to_json (data : pyval) (filename : str) : io bool :=
  io_try
    (_ ← open_w filename;
     _ ← json_dump data filename;
     mret true)
    is_Exception
    (mret false).

End WithPlatform.

(** Reading the file back: [json.load] on its text. *)
Definition read_back (fs : filesystem) (filename : str) : option pyval :=
  match fs !! filename with
  | Some text => Json.loads text
  | None => None
  end.

End DataExportUtils.

(** ** What an export does to the files *)

Module ExportEffects.
Import DataExportUtils.

(** The computation changes no file but [filename]. *)
Definition writes_only {A : Type} (filename : str) (m : io A) : Prop :=
  forall (fs : filesystem) (other : str),
    other <> filename -> (m fs).2 !! other = fs !! other.

(** What the computation returns and what it leaves in [filename] depend
    on no file but [filename]. *)
Definition reads_only {A : Type} (filename : str) (m : io A) : Prop :=
  forall fs1 fs2 : filesystem,
    fs1 !! filename = fs2 !! filename ->
    (m fs1).1 = (m fs2).1 /\ (m fs1).2 !! filename = (m fs2).2 !! filename.

(** The cells of the row of a dict: the dict has no key outside the
    field names, and the row has the value of each field name in turn,
    or the empty string where the dict lacks it. *)
Definition csv_cells (fieldnames : list pykey) (row : pyval)
    (cells : list pyval) : Prop :=
  exists items : list (pykey * pyval),
    row = PDict items
    /\ Forall (fun k => existsb (Json.key_eqb k) fieldnames = true)
         (List.map fst items)
    /\ cells = List.map (fun k => default (PStr []) (Json.dict_get k items))
                 fieldnames.

Section WithPlatform.
Variable csv_row : list pyval -> str.

(** The steps of [export_to_csv] on the file it has opened. *)
Definition csv_body (data : pyval) (filename : str) : io bool :=
  first ← lift (first_item data);
  fieldnames ← lift (keys first);
  _ ← write filename (csv_row (List.map val_of_key fieldnames));
  rows ← lift (iter data);
  _ ← io_for_each
        (fun row =>
           cells ← lift (dict_to_list fieldnames row);
           write filename (csv_row cells))
        rows;
  mret true.

End WithPlatform.

End ExportEffects.

(** More of the ASCII part of the tables: a visible ASCII character is
    not white space, and 0 to 9 are the only decimal digits of ASCII. *)
Class UnicodeVisible (U : Unicode) : Prop := {
  re_space_visible :
    forall c : char, (33 <= c <= 126)%N -> re_space c = false;
  re_digit_only :
    forall c : char, (c < 128)%N -> re_digit c = true -> (48 <= c <= 57)%N
}.

(** ** FileUtils *)

Module FileUtils.
Import Regex.

(** [s.rfind(c)]: the index of the last [c] in [s], or -1. *)
Fixpoint rfind_from (c : char) (s : str) (i last : Z) : Z :=
  match s with
  | [] => last
  | x :: s' => rfind_from c s' (i + 1) (if N.eqb x c then i else last)
  end.

Definition rfind (c : char) (s : str) : Z := rfind_from c s 0 (-1).

(** The index a slice bound stands for: a negative bound counts from the
    end, and every bound is clipped to the string. *)
Definition clip (k : Z) (s : str) : nat :=
  Z.to_nat (Z.max 0 (if k <? 0 then Z.of_nat (length s) + k else k)).

(** [s[:k]], [s[k:]] and [s[i:j]] *)
Definition slice_to (k : Z) (s : str) : str := take (clip k s) s.
Definition slice_from (k : Z) (s : str) : str := drop (clip k s) s.
Definition slice (i j : Z) (s : str) : str := drop (clip i s) (take (clip j s) s).

(** The loop of [genericpath._splitext] over the characters between the
    last separator and the last dot: is one of them not a dot? *)
Fixpoint has_stem (segment : str) : bool :=
  match segment with
  | [] => false
  | c :: segment' => if negb (N.eqb c 46%N) then true else has_stem segment'
  end.

(** [genericpath._splitext(p, sep, altsep, '.')] *)
Definition splitext_generic (sep : char) (altsep : option char) (p : str)
    : str * str :=
  let sepIndex :=
    match altsep with
    | Some a => Z.max (rfind sep p) (rfind a p)
    | None => rfind sep p
    end in
  let dotIndex := rfind 46%N p in
  if (sepIndex <? dotIndex) && has_stem (slice (sepIndex + 1) dotIndex p)
  then (slice_to dotIndex p, slice_from dotIndex p)
  else (p, []).

(** [os.path] is [posixpath] or [ntpath]. *)
Inductive platform : Type := Posix | Nt.

(** [os.path.splitext(p)] *)
Definition splitext (os : platform) (p : str) : str * str :=
  match os with
  | Posix => splitext_generic 47%N None p
  | Nt => splitext_generic 92%N (Some 47%N) p
  end.

(** The class of the pattern of [sanitize_filename]: the characters
    below and the double quote (code 34). *)
Definition invalid_char (c : char) : bool :=
  one_of "<>:/\|?*" c || N.eqb c 34%N.

(** The characters that the pattern names. *)
Definition forbidden : str := 34%N :: lit "<>:/\|?*".

(** The substitution step of [sanitize_filename]. *)
Definition replace_invalid (filename : str) : str :=
  sub_class invalid_char (lit "_") filename.

Definition sanitize_filename (os : platform) (filename : str) : str :=
  let sanitized := replace_invalid filename in
  if (255 <? Z.of_nat (length sanitized))%Z then
    let '(name, ext) := splitext os sanitized in
    slice_to (255 - Z.of_nat (length ext)) name ++ ext
  else sanitized.

(** [s.split(sep)] for a separator of one character *)
Fixpoint split (sep : char) (s : str) : list str :=
  match s with
  | [] => [[]]
  | c :: s' =>
      if N.eqb c sep then [] :: split sep s'
      else
        match split sep s' with
        | piece :: pieces => (c :: piece) :: pieces
        | [] => [[c]]
        end
  end.

(** [l[-1]] *)
Definition last_item {A : Type} (l : list A) : result A :=
  match last l with
  | Some a => Ok a
  | None => Raise IndexError
  end.

Section WithLower.
(** [s.lower()] *)
Variable lower : str -> str.

Definition is_valid_file_type (filename : str) (allowed_extensions : list str)
    : result bool :=
  if bool_decide (filename = []) then Ok false
  else
    extension ← last_item (split 46%N (lower filename));
    Ok (bool_decide (extension ∈ List.map lower allowed_extensions)).

End WithLower.

End FileUtils.

(** ** ValidationUtils: the words of the pattern of [validate_email] *)

Module EmailShape.

Definition letter (c : char) : Prop :=
  (97 <= c <= 122)%N \/ (65 <= c <= 90)%N.
Definition letter_or_digit (c : char) : Prop :=
  letter c \/ (48 <= c <= 57)%N.

(** A local part, an at sign, a domain, a dot and a top-level domain of
    two letters or more. *)
Definition address (s : str) : Prop :=
  exists local domain tld : str,
    s = local ++ lit "@" ++ domain ++ lit "." ++ tld
    /\ local <> []
    /\ Forall (fun c => letter_or_digit c \/ In c (lit "._%+-")) local
    /\ domain <> []
    /\ Forall (fun c => letter_or_digit c \/ In c (lit ".-")) domain
    /\ (2 <= length tld)%nat
    /\ Forall letter tld.

End EmailShape.

(** ** Methods of [str] *)

Module Str.

(** [s.replace(old, new)] for an [old] of one character *)
Definition replace (old : char) (new : str) (s : str) : str :=
  List.concat (List.map (fun c => if N.eqb c old then new else [c]) s).

End Str.

(** ** SecurityUtils: session tokens *)

Module SessionTokens.
Import SecurityUtils.

(** The bits of a byte under the mask [keep], with those of [set] set. *)
Definition with_bits (keep set : N) (b : byte) : byte :=
  byte_of_N (N.lor (N.land (Byte.to_N b) keep) set).

(** [uuid.UUID(bytes=b, version=4)], held as its sixteen bytes: the
    variant is written to the two high bits of byte 8 and the version to
    the four high bits of byte 6. *)
Definition UUID (b : bytes) : result bytes :=
  if negb (length b =? 16)%nat then Raise ValueError
  else Ok (alter (with_bits 15 64) 6%nat (alter (with_bits 63 128) 8%nat b)).

(** [str(u)]: the 32 hexadecimal digits in groups of 8, 4, 4, 4 and 12 *)
Definition str_uuid (u : bytes) : str :=
  let h := hex u in
  take 8 h ++ lit "-" ++ take 4 (drop 8 h) ++ lit "-" ++ take 4 (drop 12 h)
  ++ lit "-" ++ take 4 (drop 16 h) ++ lit "-" ++ drop 20 h.

Section WithPlatform.
Variable world : Type.
(** [os.urandom(n)] *)
Variable urandom : nat -> world -> bytes * world.

(** [uuid.uuid4()] *)
Definition uuid4 (w : world) : result bytes * world :=
  let '(b, w') := urandom 16 w in (UUID b, w').

Definition generate_session_token (w : world) : result str * world :=
  let '(r1, w) := uuid4 w in
  match r1 with
  | Raise e => (Raise e, w)
  | Ok u1 =>
      let '(r2, w) := uuid4 w in
      (u2 ← r2; Ok (str_uuid u1 ++ Str.replace 45%N [] (str_uuid u2)), w)
  end.

End WithPlatform.

(** A hexadecimal digit in lower case. *)
Definition hex_char (c : char) : Prop :=
  (48 <= c <= 57)%N \/ (97 <= c <= 102)%N.

(** The shape of a token: a version 4 UUID as [str] writes it, with the
    digit 4 at the head of its third group, followed by the 32 digits of
    another, with the digit 4 as its thirteenth. *)
Definition token_shape (token : str) : Prop :=
  exists a b c d e f : str,
    token = a ++ lit "-" ++ b ++ lit "-" ++ (52%N :: c) ++ lit "-" ++ d
            ++ lit "-" ++ e ++ f
    /\ length a = 8%nat /\ length b = 4%nat /\ length c = 3%nat
    /\ length d = 4%nat /\ length e = 12%nat /\ length f = 32%nat
    /\ Forall hex_char (a ++ b ++ c ++ d ++ e ++ f)
    /\ f !! 12%nat = Some 52%N.

End SessionTokens.

(** ** Rounding *)

Module Rounding.

(** The integer nearest to [q], the even one of the two when [q] lies
    half way between them: how the presentation type [f] rounds. *)
Definition round_half_even (q : Q) : Z :=
  let f := Qfloor q in
  match Qcompare (q - inject_Z f) (1 # 2) with
  | Lt => f
  | Gt => f + 1
  | Eq => if Z.even f then f else f + 1
  end.

End Rounding.

(** ** CurrencyUtils *)

Module CurrencyUtils.
Import Regex Rounding.

(** The option [,]: a comma after every three digits, counted from the
    right; here on the digits in reverse. *)
Fixpoint group_reversed (digits : str) : str :=
  match digits with
  | a :: b :: c :: rest =>
      match rest with
      | [] => [a; b; c]
      | _ :: _ => a :: b :: c :: 44%N :: group_reversed rest
      end
  | _ => digits
  end.

Definition group (digits : str) : str := rev (group_reversed (rev digits)).

(** [n] in decimal *)
Definition decimal (n : N) : str := Json.uint_chars (N.to_uint n).

(** [n] in decimal, filled with zeros on the left to [width] digits *)
Definition zero_filled (width : nat) (n : N) : str :=
  List.repeat 48%N (width - length (decimal n)) ++ decimal n.

(** [format(x, ',.<precision>f')] for a finite [x] *)
Definition format_f (precision : nat) (x : Q) : str :=
  let scale := 10 ^ Z.of_nat precision in
  let m := round_half_even (Qabs x * inject_Z scale) in
  (if Qle_bool 0 x then [] else lit "-")
  ++ group (decimal (Z.to_N (m / scale)))
  ++ (if (precision =? 0)%nat then []
      else lit "." ++ zero_filled precision (Z.to_N (m mod scale))).

Definition format_currency (amount : Q) (currency_code : str) : str :=
  if bool_decide (currency_code = lit "XAF")
  then format_f 0 amount ++ lit " FCFA"
  else format_f 2 amount ++ lit " " ++ currency_code.

Section WithRuntime.
Context {U : Unicode}.
(** [float(s)] on a str: the float, or [None] for [ValueError]. *)
Variable float_of_str : str -> option pyfloat.

(** The set [[\d.,]] and the class [[^\d.,]], which is all outside it *)
Definition kept (c : char) : bool :=
  (re_digit c || N.eqb c 46 || N.eqb c 44)%N.
Definition symbol (c : char) : bool := negb (kept c).

Definition parse_currency (currency_str : pyval) : result (option pyfloat) :=
  try_except
    (s ← subject currency_str;
     let clean_str := sub_class symbol [] s in
     let clean_str := Str.replace 44%N [] clean_str in
     match float_of_str clean_str with
     | Some x => Ok (Some x)
     | None => Raise ValueError
     end)
    (fun e => match e with ValueError | TypeError => true | _ => false end)
    (Ok None).

End WithRuntime.

End CurrencyUtils.

(** ** Totals of the reports *)

Module ReportTotals.
Import DateTimeUtils ReportUtils.

(** The sums of the counts of a per-category and of a per-day map. *)
Definition categories_count (m : gmap str category_totals) : Z :=
  map_fold (fun _ e acc => count e + acc) 0 m.
Definition days_count (m : gmap str day_totals) : Z :=
  map_fold (fun _ e acc => day_count e + acc) 0 m.

Section WithDatetime.
Context {L : DatetimeLib}.

(** The date of the transaction is a string that parses to a date of the
    period. *)
Definition in_period (start_date end_date : datetime) (trans : transaction) : bool :=
  match date_of trans with
  | PStr s =>
      match first_format s formats with
      | Some d => dt_le start_date d && dt_le d end_date
      | None => false
      end
  | _ => false
  end.

(** The key of a transaction in the daily breakdown: its date as
    [format_date] writes it, when the date is a string that parses. *)
Definition day_of (trans : transaction) : option str :=
  match date_of trans with
  | PStr s =>
      match first_format s formats with
      | Some d => Some (format_date (inr d) default_format)
      | None => None
      end
  | _ => None
  end.

Definition on_day (day : str) (trans : transaction) : bool :=
  bool_decide (day_of trans = Some day).

End WithDatetime.
End ReportTotals.

(** ** Sample inputs, to run the code on *)

Module Samples.
Import Json.

(** An entropy source that counts its calls and a key derivation that
    joins the password and the salt. *)
Definition counting_urandom (n : nat) (w : nat) : bytes * nat :=
  (List.repeat x2a n, S w).
Definition joining_kdf (password salt : bytes) (iterations : N) : bytes :=
  password ++ salt.

(** A machine on which every path can be opened and nothing is ever
    left half written. *)
Definition every_path_opens (filename : str) : bool := false.
Definition nothing_written (data : pyval) : str := [].


Definition stock_record : pyval :=
  PDict [(KStr (lit "id"), PInt 7);
         (KStr (lit "tags"), PList [PStr (lit "a"); PNone; PBool true]);
         (KStr (lit "day"), PObj (lit "2024-01-02"))].

Definition undated_sale : ReportUtils.transaction :=
  {| ReportUtils.transaction_date := Some (PStr (lit "soon"));
     ReportUtils.total_amount := Some 5%Q |}.
Definition dated_sale : ReportUtils.transaction :=
  {| ReportUtils.transaction_date := Some (PStr (lit "95"));
     ReportUtils.total_amount := Some 7%Q |}.

(** A row writer that joins the strings of a row with commas. *)
Definition plain_row (cells : list pyval) : str :=
  List.concat
    (List.map (fun v => match v with PStr t => t ++ lit "," | _ => lit "," end)
       cells)
  ++ [13%N; 10%N].

Definition one_record : pyval :=
  PList [PDict [(KStr (lit "id"), PStr (lit "a7"))]].

(** A [float] that reads whole numbers only. *)
Definition whole_float (s : str) : option pyfloat :=
  match scan_natural s with
  | Some (n, []) => Some (Finite (inject_Z (Z.of_N n)))
  | _ => None
  end.

End Samples.

(** * Properties *)

(** ** CalculationUtils *)

Module CalculationFacts.
Import CalculationUtils.
Local Open Scope Q_scope.

Lemma truediv_nonzero (a b : Q) : ~ b == 0 -> truediv a b = Ok (a / b).
Proof.
  intros Hb. unfold truediv.
  destruct (Qeq_bool b 0) eqn:E; [|reflexivity].
  apply Qeq_bool_iff in E. contradiction.
Qed.

(** C6: [calculate_percentage_change] returns 100 when the old value is
    zero and the new one is not, 0 when both are zero, and otherwise the
    relative change ((new - old) / old) * 100; so it maps (0,0) to 0,
    (0,5) to 100 and (100,150) to 50. *)
Theorem calculate_percentage_change_spec (old_value new_value : Q) :
  (old_value == 0 -> ~ new_value == 0 ->
     calculate_percentage_change old_value new_value = Ok 100)
  /\ (old_value == 0 -> new_value == 0 ->
     calculate_percentage_change old_value new_value = Ok 0)
  /\ (~ old_value == 0 ->
     calculate_percentage_change old_value new_value
     = Ok (((new_value - old_value) / old_value) * 100))
  /\ calculate_percentage_change 0 0 = Ok 0
  /\ calculate_percentage_change 0 5 = Ok 100
  /\ (exists r, calculate_percentage_change 100 150 = Ok r /\ r == 50).
Proof.
  unfold calculate_percentage_change. repeat split.
  - intros Ho Hn. apply Qeq_bool_iff in Ho. rewrite Ho.
    destruct (Qeq_bool new_value 0) eqn:E; [|reflexivity].
    apply Qeq_bool_iff in E. contradiction.
  - intros Ho Hn. apply Qeq_bool_iff in Ho, Hn. now rewrite Ho, Hn.
  - intros Ho. destruct (Qeq_bool old_value 0) eqn:E.
    + apply Qeq_bool_iff in E. contradiction.
    + now rewrite truediv_nonzero.
  - exists ((150 - 100) / 100 * 100). split; reflexivity.
Qed.

Lemma calculate_percentage_change_witness :
  calculate_percentage_change 0 7 = Ok 100.
Proof.
  apply (proj1 (calculate_percentage_change_spec 0 7)).
  - reflexivity.
  - intros H. discriminate H.
Defined.

(** C5: [calculate_material_requirements] returns 0 when the coverage is
    zero and (area / coverage) * (1 + waste) otherwise, which is
    area / coverage when the waste factor is zero; it never raises
    ZeroDivisionError. *)
Theorem calculate_material_requirements_spec (area coverage waste : Q) :
  (coverage == 0 -> calculate_material_requirements area coverage waste = Ok 0)
  /\ (~ coverage == 0 ->
     calculate_material_requirements area coverage waste
     = Ok ((area / coverage) * (1 + waste)))
  /\ (~ coverage == 0 ->
     exists r, calculate_material_requirements area coverage 0 = Ok r
               /\ r == area / coverage)
  /\ (exists r, calculate_material_requirements area coverage waste = Ok r).
Proof.
  unfold calculate_material_requirements. repeat split.
  - intros Hc. apply Qeq_bool_iff in Hc. now rewrite Hc.
  - intros Hc. destruct (Qeq_bool coverage 0) eqn:E.
    + apply Qeq_bool_iff in E. contradiction.
    + now rewrite truediv_nonzero.
  - intros Hc. destruct (Qeq_bool coverage 0) eqn:E.
    + apply Qeq_bool_iff in E. contradiction.
    + rewrite truediv_nonzero by assumption. eexists. split; [reflexivity|].
      cbn. ring.
  - destruct (Qeq_bool coverage 0) eqn:E; [eauto|].
    rewrite truediv_nonzero; [eauto|].
    intros H. apply Qeq_bool_iff in H. congruence.
Qed.

Lemma calculate_material_requirements_witness :
  calculate_material_requirements 100 4 (1 # 10)
  = Ok ((100 / 4) * (1 + (1 # 10))).
Proof.
  apply (proj1 (proj2 (calculate_material_requirements_spec 100 4 (1 # 10)))).
  intros H. discriminate H.
Defined.

End CalculationFacts.

(** ** The [re] module *)

Module RegexFacts.
Import Regex.

Lemma nullable_lang (r : re) : nullable r = true <-> lang r [].
Proof.
  induction r as [| |p|r1 IH1 r2 IH2|r1 IH1 r2 IH2|r IH]; simpl.
  - split; [discriminate | inversion 1].
  - split; [constructor | reflexivity].
  - split; [discriminate | inversion 1].
  - rewrite andb_true_iff, IH1, IH2. split.
    + intros [H1 H2]. apply (lang_cat r1 r2 [] []); assumption.
    + intros H. inv H.
      match goal with E : _ ++ _ = [] |- _ => apply app_eq_nil in E as [-> ->] end.
      auto.
  - rewrite orb_true_iff, IH1, IH2. split.
    + intros [H|H]; [apply lang_alt_l | apply lang_alt_r]; assumption.
    + inversion 1; subst; auto.
  - split; [constructor | reflexivity].
Qed.

Lemma lang_star_cons_inv (r : re) (c : char) (s : str) :
  lang (Star r) (c :: s) ->
  exists s1 s2, s = s1 ++ s2 /\ lang r (c :: s1) /\ lang (Star r) s2.
Proof.
  remember (Star r) as q eqn:Eq. remember (c :: s) as w eqn:Ew.
  intros H. revert s Eq Ew.
  induction H as [| | | | | |r' s1 s2 H1 _ H2 IH2]; intros t Eq Ew;
    try discriminate.
  injection Eq as ->.
  destruct s1 as [|c' s1'].
  - simpl in Ew. apply IH2; auto.
  - simpl in Ew. injection Ew as -> <-. exists s1', s2. auto.
Qed.

Lemma deriv_lang (r : re) (c : char) (s : str) :
  lang (deriv c r) s <-> lang r (c :: s).
Proof.
  revert s.
  induction r as [| |p|r1 IH1 r2 IH2|r1 IH1 r2 IH2|r IH]; intros s; simpl.
  - split; inversion 1.
  - split; inversion 1.
  - destruct (p c) eqn:Ep; split; inversion 1; subst.
    + now constructor.
    + constructor.
    + congruence.
  - assert (Hcat : lang (Cat (deriv c r1) r2) s -> lang (Cat r1 r2) (c :: s)).
    { intros H. inv H.
      match goal with |- lang _ (c :: ?s1 ++ ?s2) =>
        apply (lang_cat r1 r2 (c :: s1) s2) end; [now apply IH1 | assumption]. }
    assert (Hinv : lang (Cat r1 r2) (c :: s) ->
                   lang (Cat (deriv c r1) r2) s
                   \/ (lang r1 [] /\ lang (deriv c r2) s)).
    { intros H. inv H.
      match goal with E : ?s1 ++ ?s2 = c :: s |- _ =>
        destruct s1 as [|c' s1']; simpl in E; [subst s2 | injection E as -> <-] end.
      - right. split; [assumption | now apply IH2].
      - left. constructor; [now apply IH1 | assumption]. }
    destruct (nullable r1) eqn:En.
    + split.
      * inversion 1; subst; [now apply Hcat|].
        apply (lang_cat r1 r2 [] (c :: s)); [now apply nullable_lang | now apply IH2].
      * intros H. destruct (Hinv H) as [H'|[_ H']];
          [now apply lang_alt_l | now apply lang_alt_r].
    + split; [exact Hcat|].
      intros H. destruct (Hinv H) as [H'|[H' _]]; [assumption|].
      apply nullable_lang in H'. congruence.
  - split.
    + inversion 1; subst; [apply lang_alt_l | apply lang_alt_r];
        [now apply IH1 | now apply IH2].
    + inversion 1; subst; [apply lang_alt_l | apply lang_alt_r];
        [now apply IH1 | now apply IH2].
  - split.
    + intros H. inv H.
      match goal with |- lang _ (c :: ?s1 ++ ?s2) =>
        apply (lang_star_app r (c :: s1) s2) end; [now apply IH | assumption].
    + intros H. apply lang_star_cons_inv in H as (s1 & s2 & -> & H1 & H2).
      constructor; [now apply IH | assumption].
Qed.

(** The derivative matcher decides the language of the pattern. *)
Lemma matches_lang (r : re) (s : str) : matches r s = true <-> lang r s.
Proof.
  revert r. induction s as [|c s IH]; intros r; simpl.
  - apply nullable_lang.
  - rewrite IH. apply deriv_lang.
Qed.

Lemma lang_star_cls (p : char -> bool) (s : str) :
  lang (Star (Cls p)) s <-> forallb p s = true.
Proof.
  split.
  - remember (Star (Cls p)) as q eqn:Eq. intros H.
    induction H as [| | | | | |r s1 s2 H1 _ H2 IH2]; try discriminate.
    + reflexivity.
    + injection Eq as ->. inversion H1; subst. simpl.
      rewrite IH2 by reflexivity. now rewrite andb_true_r.
  - induction s as [|c s IH]; simpl; [constructor|].
    rewrite andb_true_iff. intros [Hc Hs].
    apply (lang_star_app (Cls p) [c] s); [now constructor | auto].
Qed.

(** [[cls]+] matches the non-empty strings over the class. *)
Lemma matches_plus_cls (p : char -> bool) (s : str) :
  matches (Plus (Cls p)) s = true <-> s <> [] /\ forallb p s = true.
Proof.
  rewrite matches_lang. unfold Plus. split.
  - intros H. inv H.
    match goal with H1 : lang (Cls _) _, H2 : lang (Star _) _ |- _ =>
      inv H1; apply lang_star_cls in H2; simpl;
      split; [discriminate | now rewrite H2, andb_true_r] end.
  - intros [Hne Hall]. destruct s as [|c s]; [congruence|].
    simpl in Hall. apply andb_true_iff in Hall as [Hc Hs].
    apply (lang_cat (Cls p) (Star (Cls p)) [c] s);
      [now constructor | now apply lang_star_cls].
Qed.

Lemma chop_newline_spec (s s' : str) :
  chop_newline s = Some s' <-> s = s' ++ [10%N].
Proof.
  revert s'. induction s as [|c s IH]; intros s'.
  - simpl. split; [discriminate|]. destruct s'; discriminate.
  - destruct s as [|d s].
    + simpl. destruct (N.eqb_spec c 10) as [->|Hc].
      * split; [now intros [= <-]|]. destruct s' as [|? [|? ?]]; [reflexivity|discriminate..].
      * split; [discriminate|]. destruct s' as [|? [|? ?]]; intros [=]; congruence.
    + change (chop_newline (c :: d :: s))
        with (option_map (cons c) (chop_newline (d :: s))).
      remember (chop_newline (d :: s)) as o eqn:Et in |- *.
      symmetry in Et. destruct o as [t|]; simpl.
      * apply IH in Et. rewrite Et. split.
        -- now intros [= <-].
        -- destruct s' as [|c' s'']; simpl.
           ++ destruct t; discriminate.
           ++ intros [= -> E]. apply app_inj_tail in E as [-> _]. reflexivity.
      * split; [discriminate|]. destruct s' as [|c' s'']; simpl; [discriminate|].
        intros [= -> E]. apply IH in E. congruence.
Qed.

Lemma match_to_end_plus_cls (p : char -> bool) (s : str) :
  p 10%N = true ->
  match_to_end (Plus (Cls p)) s = true <-> s <> [] /\ forallb p s = true.
Proof.
  intros Hnl. unfold match_to_end. rewrite orb_true_iff, matches_plus_cls.
  split; [|now left].
  intros [H|H]; [assumption|].
  destruct (chop_newline s) as [s'|] eqn:E; [|discriminate].
  apply chop_newline_spec in E as ->.
  apply matches_plus_cls in H as [_ H]. split.
  - destruct s'; discriminate.
  - rewrite forallb_app, H. simpl. now rewrite Hnl.
Qed.

Lemma sub_class_delete (p : char -> bool) (s : str) :
  sub_class (fun c => negb (p c)) [] s = List.filter p s.
Proof.
  unfold sub_class. induction s as [|c s IH]; simpl; [reflexivity|].
  rewrite IH. now destruct (p c).
Qed.

Lemma startswith_spec (s p : str) :
  startswith s p = true <-> exists r, s = p ++ r.
Proof.
  revert s. induction p as [|a p IH]; intros s; simpl.
  - destruct s; split; eauto.
  - destruct s as [|b s]; simpl.
    + split; [discriminate | now intros [r [=]]].
    + rewrite andb_true_iff, N.eqb_eq, IH. split.
      * intros [-> [r ->]]. eauto.
      * intros [r [= -> ->]]. eauto.
Qed.

Lemma contains_spec (p s : str) :
  contains p s = true <-> exists a b, s = a ++ p ++ b.
Proof.
  induction s as [|c s IH]; cbn [contains].
  - rewrite orb_false_r, startswith_spec. split.
    + intros [r E]. exists [], r. exact E.
    + intros (a & b & E). exists b. destruct a; [exact E|discriminate].
  - rewrite orb_true_iff, startswith_spec, IH. split.
    + intros [[r E]|(a & b & E)].
      * exists [], r. exact E.
      * exists (c :: a), b. now rewrite E.
    + intros (a & b & E). destruct a as [|c' a].
      * left. exists b. exact E.
      * right. injection E as -> ->. eauto.
Qed.

End RegexFacts.

(** ** ValidationUtils *)

Module ValidationFacts.
Import Regex RegexFacts ValidationUtils.

Lemma BasicLatin_ascii : UnicodeAscii BasicLatin.tables.
Proof.
  split; try reflexivity.
  intros c Hc. cbn. unfold range, chr. cbn.
  apply andb_true_iff. split; apply N.leb_le; lia.
Qed.

Section WithUnicode.
Context {U : Unicode}.

Lemma filter_ascii_digits `{!UnicodeAscii U} (s : str) :
  forallb (range "0" "9") s = true -> List.filter re_digit s = s.
Proof.
  induction s as [|c s IH]; simpl; [reflexivity|].
  rewrite andb_true_iff. intros [Hc Hs].
  rewrite re_digit_ascii, IH; [reflexivity | assumption |].
  unfold range, chr in Hc. cbn in Hc.
  apply andb_true_iff in Hc as [H1 H2].
  apply N.leb_le in H1, H2. lia.
Qed.

Lemma validate_phone_str (phone : str) :
  validate_phone (PStr phone)
  = let digits := List.filter re_digit phone in
    Ok ((length digits =? 12)%nat && startswith digits (lit "237")
        || (length digits =? 9)%nat).
Proof.
  unfold validate_phone. cbn [subject mbind result_bind Py.bind].
  rewrite sub_class_delete. cbv zeta.
  destruct ((length _ =? 12)%nat && _); [reflexivity|].
  now destruct (length _ =? 9)%nat.
Qed.

(** C4: the phone validator accepts a string exactly when the digits
    left after removing every non-digit character are 9 digits, or
    12 digits that start with 237; it accepts 677123456 and
    237677123456 and rejects 12345. *)
Theorem validate_phone_spec `{!UnicodeAscii U} (phone : str) :
  let digits := List.filter re_digit phone in
  (exists b, validate_phone (PStr phone) = Ok b)
  /\ (validate_phone (PStr phone) = Ok true <->
      length digits = 9%nat
      \/ (length digits = 12%nat /\ exists rest, digits = lit "237" ++ rest))
  /\ validate_phone (PStr (lit "677123456")) = Ok true
  /\ validate_phone (PStr (lit "237677123456")) = Ok true
  /\ validate_phone (PStr (lit "12345")) = Ok false.
Proof.
  cbv zeta. repeat split.
  - rewrite validate_phone_str. eauto.
  - rewrite validate_phone_str. cbv zeta.
    pose proof (startswith_spec (List.filter re_digit phone) (lit "237")) as Hs.
    destruct (startswith (List.filter re_digit phone) (lit "237")).
    + destruct (Nat.eqb_spec (length (List.filter re_digit phone)) 12) as [H12|H12].
      * intros _. right. split; [exact H12 | now apply Hs].
      * destruct (Nat.eqb_spec (length (List.filter re_digit phone)) 9) as [H9|H9];
          [now left | discriminate].
    + rewrite andb_false_r.
      destruct (Nat.eqb_spec (length (List.filter re_digit phone)) 9) as [H9|H9];
        [now left | discriminate].
  - rewrite validate_phone_str. cbv zeta. intros [H|[H1 H2]]; f_equal.
    + apply orb_true_iff. right. now apply Nat.eqb_eq.
    + apply orb_true_iff. left. apply andb_true_iff.
      split; [now apply Nat.eqb_eq | now apply startswith_spec].
  - rewrite validate_phone_str, filter_ascii_digits; reflexivity.
  - rewrite validate_phone_str, filter_ascii_digits; reflexivity.
  - rewrite validate_phone_str, filter_ascii_digits; reflexivity.
Qed.

Lemma any_str_method (m : str -> bool) (s : str) :
  any (str_method m) (List.map (fun c => PStr [c]) s)
  = Ok (existsb (fun c => m [c]) s).
Proof.
  induction s as [|c s IH]; simpl; [reflexivity|].
  destruct (m [c]); [reflexivity | exact IH].
Qed.

(** C2, as the code has it: on every string each validation function
    returns a value of its result type and does not raise, and
    [validate_price] returns [None] rather than raising on every
    input, string or not. *)
Theorem validation_total_on_str (float_of_str : str -> option pyfloat)
    (s : str) (v : pyval) :
  (exists b, validate_email (PStr s) = Ok b)
  /\ (exists b, validate_phone (PStr s) = Ok b)
  /\ (exists d, validate_password (PStr s) = Ok d)
  /\ (exists o, validate_price float_of_str v = Ok o)
  /\ ((forall s', v <> PStr s') -> validate_price float_of_str v = Ok None).
Proof.
  repeat split.
  - unfold validate_email. cbn. eauto.
  - rewrite validate_phone_str. eauto.
  - unfold validate_password.
    cbn [len iter subject mbind result_bind Py.bind].
    rewrite !any_str_method. eauto.
  - unfold validate_price.
    destruct v; cbn [subject mbind result_bind Py.bind try_except]; eauto.
    destruct (float_of_str _); cbn; eauto.
  - intros Hv. unfold validate_price.
    destruct v; cbn; try reflexivity. now destruct (Hv s0).
Qed.

End WithUnicode.

Lemma validate_phone_witness :
  validate_phone (U := BasicLatin.tables) (PStr (lit "+237 677-123-456")) = Ok true.
Proof.
  apply (proj1 (proj2 (@validate_phone_spec BasicLatin.tables BasicLatin_ascii
                         (lit "+237 677-123-456")))).
  right. split; [reflexivity|]. exists (lit "677123456"). reflexivity.
Defined.

Lemma validation_total_on_str_witness :
  validate_price (U := BasicLatin.tables) (fun _ => None) (PInt 5) = Ok None.
Proof.
  apply (proj2 (proj2 (proj2 (proj2
           (@validation_total_on_str BasicLatin.tables (fun _ => None) [] (PInt 5)))))).
  intros s'. discriminate.
Defined.

(** C2 as stated fails: a non-string argument makes three of the four
    validation functions raise [TypeError]. *)
Lemma validation_raises_on_None :
  validate_email PNone = Raise TypeError
  /\ validate_phone (U := BasicLatin.tables) PNone = Raise TypeError
  /\ validate_password (U := BasicLatin.tables) PNone = Raise TypeError
  /\ ~ (forall v : pyval, exists b, validate_email v = Ok b).
Proof.
  repeat split. intros H. destruct (H PNone) as [b Hb]. discriminate Hb.
Qed.

End ValidationFacts.

(** ** SecurityUtils *)

Module SecurityFacts.
Import Regex RegexFacts SecurityUtils.

Section Filenames.
Context {U : Unicode} `{!UnicodeAscii U}.

(** The class of the pattern, character by character. *)
Lemma safe_char_spec (c : char) :
  safe_char c = true <->
  (97 <= c <= 122)%N \/ (65 <= c <= 90)%N \/ (48 <= c <= 57)%N
  \/ c = 46%N \/ c = 95%N \/ c = 45%N \/ re_space c = true.
Proof.
  unfold safe_char, alnum, range, one_of, chr. cbn.
  rewrite !orb_true_iff, !andb_true_iff, !N.leb_le, !N.eqb_eq.
  intuition discriminate.
Qed.

Lemma safe_chars_match (f : str) :
  match_to_end (Plus (Cls safe_char)) f = true
  <-> f <> [] /\ Forall (fun c => safe_char c = true) f.
Proof.
  rewrite match_to_end_plus_cls.
  - now rewrite forallb_forall, Stdlib.Lists.List.Forall_forall.
  - apply safe_char_spec. repeat right. apply re_space_newline.
Qed.

(** C10: [is_safe_filename] rejects a name that holds a slash or a
    backslash, holds two dots in a row, starts with a dot or is empty;
    it accepts exactly the non-empty names made of ASCII letters,
    digits, dots, underscores, hyphens and white space that do not
    start with a dot and hold no two dots in a row. *)
Theorem is_safe_filename_spec (f : str) :
  (In 47%N f \/ In 92%N f \/ (exists a b, f = a ++ lit ".." ++ b)
   \/ (exists r, f = 46%N :: r) \/ f = []
   -> is_safe_filename f = false)
  /\ (is_safe_filename f = true <->
      f <> []
      /\ Forall (fun c =>
           (97 <= c <= 122)%N \/ (65 <= c <= 90)%N \/ (48 <= c <= 57)%N
           \/ c = 46%N \/ c = 95%N \/ c = 45%N \/ re_space c = true) f
      /\ (forall r, f <> 46%N :: r)
      /\ (forall a b, f <> a ++ lit ".." ++ b)).
Proof.
  assert (Hiff : is_safe_filename f = true <->
      f <> []
      /\ Forall (fun c =>
           (97 <= c <= 122)%N \/ (65 <= c <= 90)%N \/ (48 <= c <= 57)%N
           \/ c = 46%N \/ c = 95%N \/ c = 45%N \/ re_space c = true) f
      /\ (forall r, f <> 46%N :: r)
      /\ (forall a b, f <> a ++ lit ".." ++ b)).
  { unfold is_safe_filename. cbv zeta.
    rewrite !andb_true_iff, !negb_true_iff, safe_chars_match.
    rewrite <- !not_true_iff_false, startswith_spec, contains_spec.
    setoid_rewrite safe_char_spec. split.
    - intros [[Hne Hall] [Hdot Hdots]]. repeat split; try assumption.
      + intros r ->. apply Hdot. exists r. reflexivity.
      + intros a b ->. apply Hdots. eauto.
    - intros (Hne & Hall & Hdot & Hdots). repeat split; try assumption.
      + intros [r ->]. now apply (Hdot r).
      + intros (a & b & ->). now apply (Hdots a b). }
  split; [|exact Hiff].
  intros H. apply not_true_iff_false. intros Ht.
  apply Hiff in Ht as (Hne & Hall & Hdot & Hdots).
  rewrite Stdlib.Lists.List.Forall_forall in Hall.
  destruct H as [H|[H|[[a [b ->]]|[[r ->]| ->]]]].
  - apply Hall in H.
    destruct H as [H|[H|[H|[H|[H|[H|H]]]]]]; try lia.
    rewrite re_space_slash in H. discriminate.
  - apply Hall in H.
    destruct H as [H|[H|[H|[H|[H|[H|H]]]]]]; try lia.
    rewrite re_space_backslash in H. discriminate.
  - now apply (Hdots a b).
  - now apply (Hdot r).
  - now apply Hne.
Qed.

End Filenames.

Lemma is_safe_filename_witness :
  is_safe_filename (U := BasicLatin.tables) (lit "../etc/passwd") = false.
Proof.
  apply (proj1 (@is_safe_filename_spec BasicLatin.tables
                  ValidationFacts.BasicLatin_ascii (lit "../etc/passwd"))).
  right. right. left. exists [], (lit "/etc/passwd"). reflexivity.
Defined.

Section Passwords.
Variable world : Type.
Variable urandom : nat -> world -> bytes * world.
Variable pbkdf2_hmac_sha256 : bytes -> bytes -> N -> bytes.

Local Abbreviation hash_password :=
  (hash_password world urandom pbkdf2_hmac_sha256).
Local Abbreviation verify_password :=
  (verify_password world urandom pbkdf2_hmac_sha256).

Lemma encode_utf8_returns (s : str) :
  Forall not_surrogate s -> exists b, encode_utf8 s = Ok b.
Proof.
  induction 1 as [|c s Hc _ [b IH]]; simpl; [eauto|].
  rewrite IH. unfold utf8_char.
  destruct (c <? 128)%N; [cbn; eauto|].
  destruct (c <? 2048)%N; [cbn; eauto|].
  destruct ((55296 <=? c)%N && (c <=? 57343)%N) eqn:E.
  - apply andb_true_iff in E as [H1 H2]. apply N.leb_le in H1, H2.
    exfalso. apply Hc. lia.
  - destruct (c <? 65536)%N; cbn; eauto.
Qed.

Lemma hex_digit_ascii (n : N) : (n < 16)%N -> (hex_digit n < 128)%N.
Proof. unfold hex_digit. destruct (N.ltb_spec n 10); lia. Qed.

Lemma hex_not_surrogate (b : bytes) : Forall not_surrogate (hex b).
Proof.
  unfold hex. induction b as [|x b IH]; simpl; [constructor|].
  pose proof (Byte.to_N_bounded x) as Hx.
  assert (H1 : (Byte.to_N x / 16 < 16)%N)
    by (apply N.Div0.div_lt_upper_bound; lia).
  assert (H2 : (Byte.to_N x mod 16 < 16)%N) by (apply N.mod_lt; lia).
  apply hex_digit_ascii in H1, H2.
  repeat constructor; unfold not_surrogate; try lia. exact IH.
Qed.

(** The derivation with a given salt does not draw randomness. *)
Lemma hash_password_salted (password salt : str) (w : world) :
  hash_password password (Some salt) w
  = (p ← encode_utf8 password;
     s ← encode_utf8 salt;
     Ok (hex (pbkdf2_hmac_sha256 p s 100000), salt),
     w).
Proof. reflexivity. Qed.

Lemma verify_own_hash (password h salt : str) (w w' : world) :
  hash_password password (Some salt) w = (Ok (h, salt), w') ->
  forall w2, verify_password password h salt w2 = (Ok true, w2).
Proof.
  rewrite hash_password_salted. intros [= H _] w2.
  unfold verify_password. rewrite hash_password_salted, H. cbn.
  now rewrite bool_decide_eq_true_2.
Qed.

(** C1: whatever [hash_password] returns for a password, without a salt
    or with one, [verify_password] accepts for that password; on a
    password that UTF-8 can encode, [hash_password] does return; and with
    a salt its result depends on the password and the salt alone. *)
Theorem verify_hash_password (p : str) :
  (forall w h s w',
      hash_password p None w = (Ok (h, s), w') ->
      forall w2, verify_password p h s w2 = (Ok true, w2))
  /\ (forall salt w h s w',
      hash_password p (Some salt) w = (Ok (h, s), w') ->
      s = salt /\ forall w2, verify_password p h salt w2 = (Ok true, w2))
  /\ (Forall not_surrogate p ->
      forall w, exists h s w', hash_password p None w = (Ok (h, s), w'))
  /\ (Forall not_surrogate p ->
      forall (salt : str) w, Forall not_surrogate salt ->
      exists h, hash_password p (Some salt) w = (Ok (h, salt), w))
  /\ (forall (salt : str) w1 w2,
      fst (hash_password p (Some salt) w1) = fst (hash_password p (Some salt) w2)).
Proof.
  assert (Hsalted : forall salt w h s w',
      hash_password p (Some salt) w = (Ok (h, s), w') ->
      s = salt /\ forall w2, verify_password p h salt w2 = (Ok true, w2)).
  { intros salt w h s w' H.
    assert (s = salt) as ->.
    { rewrite hash_password_salted in H. injection H as H _.
      destruct (encode_utf8 p); [|discriminate].
      destruct (encode_utf8 salt); [|discriminate].
      cbn in H. congruence. }
    split; [reflexivity|]. eapply verify_own_hash, H. }
  assert (Hret : Forall not_surrogate p ->
      forall (salt : str) w, Forall not_surrogate salt ->
      exists h, hash_password p (Some salt) w = (Ok (h, salt), w)).
  { intros Hp salt w Hs. rewrite hash_password_salted.
    destruct (encode_utf8_returns p Hp) as [pb ->].
    destruct (encode_utf8_returns salt Hs) as [sb ->].
    cbn. eauto. }
  assert (Hnone : forall w, hash_password p None w
            = (fst (hash_password p (Some (hex (fst (urandom 32 w)))) w),
               snd (urandom 32 w))).
  { intros w. unfold SecurityUtils.hash_password.
    now destruct (urandom 32 w). }
  repeat split.
  - intros w h s w' H w2. rewrite Hnone in H.
    destruct (hash_password p (Some (hex (fst (urandom 32 w)))) w)
      as [r w0] eqn:E.
    cbn [fst snd] in H. injection H as -> _.
    destruct (Hsalted _ _ _ _ _ E) as [-> Hv]. apply Hv.
  - eapply Hsalted; eassumption.
  - eapply Hsalted; eassumption.
  - intros Hp w. rewrite Hnone.
    destruct (Hret Hp (hex (fst (urandom 32 w))) w (hex_not_surrogate _)) as [h ->].
    simpl. eauto.
  - exact Hret.
Qed.

End Passwords.

Lemma verify_hash_password_witness :
  exists h s w',
    hash_password nat Samples.counting_urandom Samples.joining_kdf
      (lit "s3cret") None 0%nat = (Ok (h, s), w')
    /\ verify_password nat Samples.counting_urandom Samples.joining_kdf
         (lit "s3cret") h s w' = (Ok true, w').
Proof.
  destruct (verify_hash_password nat Samples.counting_urandom Samples.joining_kdf
              (lit "s3cret")) as (Hv & _ & Hr & _).
  destruct (Hr ltac:(repeat constructor; unfold not_surrogate; cbn; lia) 0%nat)
    as (h & s & w' & E).
  exists h, s, w'. split; [exact E|]. exact (Hv _ _ _ _ E w').
Defined.

End SecurityFacts.

(** ** ReportUtils *)

Module ReportFacts.
Import DateTimeUtils ReportUtils.

Lemma for_each_app {A S : Type} (body : S -> A -> result S) (l1 l2 : list A) (s : S) :
  for_each body (l1 ++ l2) s = (s' ← for_each body l1 s; for_each body l2 s').
Proof.
  revert s. induction l1 as [|a l1 IH]; intros s; simpl; [reflexivity|].
  destruct (body s a) as [s'|e]; simpl; [apply IH | reflexivity].
Qed.

(** An element the body leaves the state alone on can be dropped. *)
Lemma for_each_skip {A S : Type} (body : S -> A -> result S)
    (l1 l2 : list A) (a : A) (s : S) :
  (forall s', body s' a = Ok s') ->
  for_each body (l1 ++ a :: l2) s = for_each body (l1 ++ l2) s.
Proof.
  intros Ha. rewrite !for_each_app.
  destruct (for_each body l1 s) as [s'|e]; simpl; [|reflexivity].
  now rewrite Ha.
Qed.

Lemma for_each_returns {A S : Type} (body : S -> A -> result S)
    (P : A -> Prop) (I : S -> Prop) (l : list A) (s : S) :
  (forall s a, I s -> P a -> exists s', body s a = Ok s' /\ I s') ->
  I s -> Forall P l -> exists s', for_each body l s = Ok s' /\ I s'.
Proof.
  intros Hbody Hs Hl. revert s Hs.
  induction Hl as [|a l Ha _ IH]; intros s Hs; simpl; [eauto|].
  destruct (Hbody s a Hs Ha) as (s' & -> & Hs'). simpl. auto.
Qed.

Local Open Scope Q_scope.

Lemma fold_left_Qplus (xs : list Q) (a : Q) :
  fold_left Qplus xs a == a + fold_right Qplus 0 xs.
Proof.
  revert a. induction xs as [|x xs IH]; intros a; simpl.
  - ring.
  - rewrite IH. ring.
Qed.

Lemma sum_fold_right {A : Type} (f : A -> Q) (l : list A) :
  sum (List.map f l) == fold_right (fun a acc => f a + acc) 0 l.
Proof.
  unfold sum. rewrite fold_left_Qplus, Qplus_0_l.
  induction l as [|a l IH]; simpl; [reflexivity|]. now rewrite IH.
Qed.

(** What one turn of the category loop does to each entry. *)
Lemma add_to_category_lookup (m : gmap str category_totals) (it : item) (c : str) :
  add_to_category m it !! c
  = if decide (default (lit "Unknown") (category it) = c)
    then let e := default {| count := 0; value := 0 |} (m !! c) in
         Some {| count := (count e + 1)%Z; value := value e + item_value it |}
    else m !! c.
Proof.
  unfold add_to_category. cbv zeta.
  destruct (decide (default (lit "Unknown") (category it) = c)) as [<-|Hne].
  - destruct (m !! default (lit "Unknown") (category it)) as [e|] eqn:E.
    + rewrite !lookup_alter_eq, E. reflexivity.
    + rewrite !lookup_alter_eq, lookup_insert_eq. reflexivity.
  - rewrite !lookup_alter_ne by assumption.
    destruct (m !! default (lit "Unknown") (category it));
      [reflexivity | now rewrite lookup_insert_ne].
Qed.

Lemma categories_loop (l : list item) (m : gmap str category_totals) (c : str) :
  let lines :=
    List.filter (fun it => bool_decide (default (lit "Unknown") (category it) = c)) l in
  fold_left add_to_category l m !! c
  = match lines with
    | [] => m !! c
    | _ =>
        let e := default {| count := 0; value := 0 |} (m !! c) in
        Some {| count := (count e + Z.of_nat (length lines))%Z;
                value := fold_left Qplus (List.map item_value lines) (value e) |}
    end.
Proof.
  cbv zeta. revert m. induction l as [|it l IH]; intros m; [reflexivity|].
  cbn [fold_left List.filter]. rewrite IH, !add_to_category_lookup.
  destruct (decide (default (lit "Unknown") (category it) = c)) as [Hc|Hc].
  - rewrite bool_decide_eq_true_2 by assumption.
    destruct (List.filter _ l) as [|it' lines];
      cbn [default from_option id count value length List.map fold_left];
      do 2 f_equal; lia.
  - rewrite bool_decide_eq_false_2 by assumption. reflexivity.
Qed.

Lemma low_stock_spec (it : item) :
  low_stock it = true <-> default 0 (quantity it) < 10.
Proof.
  unfold low_stock. rewrite negb_true_iff, <- not_true_iff_false, Qle_bool_iff.
  split; [apply Qnot_le_lt | apply Qlt_not_le].
Qed.

Section WithDatetime.
Context {L : DatetimeLib}.

(** C3: the inventory report counts the lines, values them at the sum of
    quantity times price, lists as low stock exactly the lines whose
    quantity is below 10, in order, and gives each category the count and
    the value of its lines; on no lines it reports 0 items, value 0 and
    no category. *)
Theorem generate_inventory_report_spec (store_data : list item) (now : datetime) :
  let r := generate_inventory_report store_data now in
  total_items r = Z.of_nat (length store_data)
  /\ total_value r
     == fold_right (fun it acc => default 0 (quantity it) * default 0 (price it) + acc)
          0 store_data
  /\ (exists below_10 : item -> bool,
        (forall it, below_10 it = true <-> default 0 (quantity it) < 10)
        /\ low_stock_items r = List.filter below_10 store_data)
  /\ (forall c : str,
        let lines :=
          List.filter
            (fun it => bool_decide (default (lit "Unknown") (category it) = c))
            store_data in
        match categories r !! c with
        | None => lines = []
        | Some e =>
            lines <> []
            /\ count e = Z.of_nat (length lines)
            /\ value e
               == fold_right
                    (fun it acc => default 0 (quantity it) * default 0 (price it) + acc)
                    0 lines
        end)
  /\ total_items (generate_inventory_report [] now) = 0%Z
  /\ total_value (generate_inventory_report [] now) = 0
  /\ categories (generate_inventory_report [] now) = ∅.
Proof.
  cbv zeta. split; [reflexivity|]. split; [apply (sum_fold_right item_value)|].
  split; [exists low_stock; split; [apply low_stock_spec | reflexivity]|].
  split; [|repeat split].
  intros c. cbn [categories generate_inventory_report].
  rewrite categories_loop. cbv zeta.
  destruct (List.filter _ store_data) as [|it lines] eqn:E.
  - rewrite lookup_empty. reflexivity.
  - rewrite lookup_empty. cbn [default count value].
    split; [discriminate|]. split; [lia|].
    apply (sum_fold_right item_value).
Qed.

(** Nothing is read from a transaction whose date does not parse. *)
Lemma keep_in_period_unparsed start_date end_date acc (t : transaction) :
  parse_date (date_of t) = Ok None ->
  keep_in_period start_date end_date acc t = Ok acc.
Proof. intros H. unfold keep_in_period. now rewrite H. Qed.

Lemma truediv_count (a : Q) (n : Z) :
  (0 < n)%Z -> truediv a (inject_Z n) = Ok (a / inject_Z n).
Proof.
  intros Hn. apply CalculationFacts.truediv_nonzero.
  change 0 with (inject_Z 0). rewrite inject_Z_injective. lia.
Qed.

(** C7: a transaction whose date [parse_date] cannot parse changes
    nothing in the outcome of the sales report, neither a field nor
    whether it raises; the average is the revenue over the count when
    there are sales and 0 when there are none; and the report is returned
    whenever the start of the period is a date and every date is a
    string. *)
Theorem generate_sales_report_spec (before after : list transaction)
    (t : transaction) (days : Z) (now : datetime) :
  (parse_date (date_of t) = Ok None ->
     generate_sales_report (before ++ t :: after) days now
     = generate_sales_report (before ++ after) days now)
  /\ (forall r, generate_sales_report (before ++ after) days now = Ok r ->
        (0 < total_sales r)%Z /\ average_sale r = total_revenue r / inject_Z (total_sales r)
        \/ total_sales r = 0%Z /\ average_sale r = 0)
  /\ (forall start, sub_days now days = Ok start ->
        Forall (fun t' => exists s, date_of t' = PStr s) (before ++ after) ->
        exists r, generate_sales_report (before ++ after) days now = Ok r).
Proof.
  split; [|split].
  - intros Ht. unfold generate_sales_report. cbv zeta.
    destruct (sub_days now days) as [start|e]; [|reflexivity].
    cbn [mbind result_bind Py.bind].
    rewrite for_each_skip; [reflexivity|].
    intros acc. now apply keep_in_period_unparsed.
  - intros r. unfold generate_sales_report. cbv zeta.
    destruct (sub_days now days) as [start|e]; [|discriminate].
    cbn [mbind result_bind Py.bind].
    destruct (for_each _ (before ++ after) []) as [kept|e]; [|discriminate].
    cbn [mbind result_bind Py.bind].
    destruct (Z.ltb_spec 0 (Z.of_nat (length kept))) as [Hpos|Hzero].
    + rewrite truediv_count by assumption. cbn [mbind result_bind Py.bind].
      destruct (for_each add_to_day kept ∅); [|discriminate].
      intros [= <-]. left. split; [exact Hpos | reflexivity].
    + cbn [mbind result_bind Py.bind].
      destruct (for_each add_to_day kept ∅); [|discriminate].
      intros [= <-]. right. split; [cbn; lia | reflexivity].
  - intros start Hstart Hstr. unfold generate_sales_report. cbv zeta.
    rewrite Hstart. cbn [mbind result_bind Py.bind].
    destruct (for_each_returns (keep_in_period start now)
                (fun t' => exists s, date_of t' = PStr s)
                (Forall (fun t' => exists s, date_of t' = PStr s))
                (before ++ after) [])
      as (kept & -> & Hkept); [|constructor|assumption|].
    { intros acc a Hacc [s Hs]. unfold keep_in_period. rewrite Hs.
      cbn [parse_date mbind result_bind Py.bind].
      destruct (first_format s formats) as [d|]; [|eauto].
      destruct (dt_le start d && dt_le d now); [|eauto].
      eexists. split; [reflexivity|].
      apply Forall_app. split; [assumption|]. repeat constructor. eauto. }
    cbn [mbind result_bind Py.bind].
    destruct (for_each_returns add_to_day
                (fun t' => exists s, date_of t' = PStr s)
                (fun _ => True) kept ∅)
      as (daily & -> & _); [|exact I|assumption|].
    { intros m a _ [s Hs]. unfold add_to_day. rewrite Hs.
      cbn [parse_date mbind result_bind Py.bind].
      destruct (first_format s formats); eauto. }
    destruct (Z.ltb_spec 0 (Z.of_nat (length kept))) as [Hpos|Hzero].
    + rewrite truediv_count by assumption. cbn. eauto.
    + cbn. eauto.
Qed.

End WithDatetime.

Lemma generate_sales_report_witness :
  generate_sales_report (L := DayNumbers.lib)
    ([Samples.dated_sale] ++ Samples.undated_sale :: [Samples.dated_sale]) 30 100%Z
  = generate_sales_report (L := DayNumbers.lib)
      ([Samples.dated_sale] ++ [Samples.dated_sale]) 30 100%Z.
Proof.
  apply (proj1 (@generate_sales_report_spec DayNumbers.lib
                  [Samples.dated_sale] [Samples.dated_sale] Samples.undated_sale
                  30%Z 100%Z)).
  reflexivity.
Defined.

End ReportFacts.

(** ** DataExportUtils *)

Module ExportFacts.
Import Json DataExportUtils.

Lemma only_lift {A : Type} (r : result A) :
  (forall e, r = Raise e -> is_Exception e = true) ->
  raises_only_Exception (lift r).
Proof. intros H fs e fs' [= -> _]. now apply H. Qed.

Lemma only_ret {A : Type} (a : A) : raises_only_Exception (mret a : io A).
Proof. intros fs e fs' [=]. Qed.

Lemma only_bind {A B : Type} (m : io A) (k : A -> io B) :
  raises_only_Exception m ->
  (forall a, raises_only_Exception (k a)) ->
  raises_only_Exception (a ← m; k a).
Proof.
  intros Hm Hk fs e fs'. unfold mbind, io_bind.
  destruct (m fs) as [[a|e'] fs1] eqn:E.
  - apply Hk.
  - intros [= <- _]. exact (Hm _ _ _ E).
Qed.

Lemma only_for_each {A : Type} (body : A -> io unit) (l : list A) :
  (forall a, raises_only_Exception (body a)) ->
  raises_only_Exception (io_for_each body l).
Proof.
  intros Hbody. induction l as [|a l IH]; simpl.
  - apply only_ret.
  - apply only_bind; [apply Hbody | intros _; exact IH].
Qed.

(** Catching [Exception] around such a computation leaves nothing to
    propagate. *)
Lemma io_try_returns (body : io bool) (fs : filesystem) :
  raises_only_Exception body ->
  exists b fs', io_try body is_Exception (mret false) fs = (Ok b, fs').
Proof.
  intros Hbody. unfold io_try.
  destruct (body fs) as [[b|e] fs1] eqn:E; [eauto|].
  rewrite (Hbody _ _ _ E). cbv. eauto.
Qed.

Lemma key_str_raises (k : pykey) (e : exn) : key_str k = Raise e -> e = TypeError.
Proof. destruct k as [|[|]| | |]; simpl; congruence. Qed.

Lemma pyval_nested_ind (P : pyval -> Prop) :
  P PNone -> (forall b, P (PBool b)) -> (forall z, P (PInt z)) ->
  (forall s, P (PStr s)) ->
  (forall l, Forall P l -> P (PList l)) ->
  (forall l, Forall P l -> P (PTuple l)) ->
  (forall items, Forall (fun kv => P (snd kv)) items -> P (PDict items)) ->
  (forall r, P (PObj r)) ->
  forall v, P v.
Proof.
  intros HNone HBool HInt HStr HList HTuple HDict HObj.
  fix IH 1. intros [|b|z|s|l|l|items|r].
  - exact HNone.
  - apply HBool.
  - apply HInt.
  - apply HStr.
  - apply HList. revert l. fix IHl 1.
    intros [|x l]; constructor; [apply IH | apply IHl].
  - apply HTuple. revert l. fix IHl 1.
    intros [|x l]; constructor; [apply IH | apply IHl].
  - apply HDict. revert items. fix IHi 1.
    intros [|[k x] items]; constructor; [apply IH | apply IHi].
  - apply HObj.
Qed.

Lemma encode_list (level : nat) (x : pyval) (l : list pyval) :
  encode level (PList (x :: l))
  = (texts ← encode_elements level (x :: l); Ok (bracket 91%N 93%N level texts)).
Proof. reflexivity. Qed.

Lemma encode_tuple (level : nat) (x : pyval) (l : list pyval) :
  encode level (PTuple (x :: l))
  = (texts ← encode_elements level (x :: l); Ok (bracket 91%N 93%N level texts)).
Proof. reflexivity. Qed.

Lemma encode_dict (level : nat) (kx : pykey * pyval) (items : list (pykey * pyval)) :
  encode level (PDict (kx :: items))
  = (texts ← encode_members level (kx :: items); Ok (bracket 123%N 125%N level texts)).
Proof. reflexivity. Qed.

Lemma encode_elements_cons (level : nat) (x : pyval) (l : list pyval) :
  encode_elements level (x :: l)
  = (t ← encode (S level) x; ts ← encode_elements level l; Ok (t :: ts)).
Proof. reflexivity. Qed.

Lemma encode_members_cons (level : nat) (k : pykey) (x : pyval)
    (items : list (pykey * pyval)) :
  encode_members level ((k, x) :: items)
  = (key ← key_str k;
     t ← encode (S level) x;
     ts ← encode_members level items;
     Ok ((encode_basestring key ++ lit ": " ++ t) :: ts)).
Proof. reflexivity. Qed.

Lemma encode_elements_raises (level : nat) (l : list pyval) :
  Forall (fun v => forall level e, encode level v = Raise e -> e = TypeError) l ->
  forall e, encode_elements level l = Raise e -> e = TypeError.
Proof.
  induction 1 as [|x l Hx _ IH]; intros e; [discriminate|].
  rewrite encode_elements_cons.
  destruct (encode (S level) x) eqn:Ex; cbn.
  - destruct (encode_elements level l); cbn; [discriminate|].
    intros [= <-]. now apply IH.
  - intros [= <-]. eapply Hx, Ex.
Qed.

Lemma encode_members_raises (level : nat) (items : list (pykey * pyval)) :
  Forall (fun kv => forall level e, encode level (snd kv) = Raise e -> e = TypeError)
         items ->
  forall e, encode_members level items = Raise e -> e = TypeError.
Proof.
  induction 1 as [|[k x] items Hx _ IH]; intros e; [discriminate|].
  rewrite encode_members_cons.
  destruct (key_str k) eqn:Ek; cbn; [|intros [= <-]; eapply key_str_raises, Ek].
  destruct (encode (S level) x) eqn:Ex; cbn.
  - destruct (encode_members level items); cbn; [discriminate|].
    intros [= <-]. now apply IH.
  - intros [= <-]. eapply Hx, Ex.
Qed.

(** The encoder refuses nothing but a key of a type JSON has no form for. *)
Lemma encode_raises (v : pyval) :
  forall level e, encode level v = Raise e -> e = TypeError.
Proof.
  induction v as [|[|]| | |l IH|l IH|items IH|] using pyval_nested_ind;
    intros level e; try discriminate.
  - destruct l as [|x l]; [discriminate|]. rewrite encode_list.
    destruct (encode_elements level (x :: l)) eqn:E; [discriminate|].
    cbn. intros [= <-]. eapply encode_elements_raises; eassumption.
  - destruct l as [|x l]; [discriminate|]. rewrite encode_tuple.
    destruct (encode_elements level (x :: l)) eqn:E; [discriminate|].
    cbn. intros [= <-]. eapply encode_elements_raises; eassumption.
  - destruct items as [|kx items]; [discriminate|]. rewrite encode_dict.
    destruct (encode_members level (kx :: items)) eqn:E; [discriminate|].
    cbn. intros [= <-]. eapply encode_members_raises; eassumption.
Qed.

(** *** Reading back what the encoder wrote *)

Lemma skip_ws_newline_indent (level : nat) (s : str) :
  skip_ws (newline_indent level ++ s) = skip_ws s.
Proof.
  unfold newline_indent. cbn [app skip_ws is_ws N.eqb orb].
  induction (2 * level)%nat as [|n IH]; [reflexivity | exact IH].
Qed.

Lemma skip_ws_starts_value (s : str) : starts_value s -> skip_ws s = s.
Proof. destruct s as [|c s]; [intros []|]. intros (H & _). simpl. now rewrite H. Qed.

Lemma starts_value_app (s t : str) : starts_value s -> starts_value (s ++ t).
Proof. destruct s; [intros [] | exact id]. Qed.

Lemma digit_of_uint_chars (d : Decimal.uint) (rest : str) :
  delimited rest -> scan_digits (uint_chars d ++ rest) = (d, rest).
Proof.
  intros Hrest. induction d; cbn [uint_chars app scan_digits digit_of N.eqb Pos.eqb];
    try (rewrite IHd; reflexivity).
  destruct rest as [|c rest]; [reflexivity|].
  cbn [scan_digits]. destruct Hrest as [-> | ->]; reflexivity.
Qed.

Lemma to_uint_normal (n : N) : N.to_uint n = Decimal.unorm (N.to_uint n).
Proof. now rewrite <- DecimalN.Unsigned.to_of, DecimalN.Unsigned.of_to. Qed.

Lemma to_uint_leading_zero (n : N) (d : Decimal.uint) :
  N.to_uint n = Decimal.D0 d -> d = Decimal.Nil /\ n = 0%N.
Proof.
  intros H. assert (Hd : d = Decimal.Nil).
  { rewrite to_uint_normal in H. unfold Decimal.unorm in H.
    destruct (Decimal.nzhead (N.to_uint n)) eqn:E; try discriminate.
    - now injection H.
    - now apply DecimalFacts.nzhead_nonzero in E. }
  split; [exact Hd|]. subst d.
  rewrite <- (DecimalN.Unsigned.of_to n), H. reflexivity.
Qed.

Lemma scan_natural_to_uint (n : N) (rest : str) :
  delimited rest ->
  scan_natural (uint_chars (N.to_uint n) ++ rest) = Some (n, rest).
Proof.
  intros Hrest. pose proof (digit_of_uint_chars (N.to_uint n) rest Hrest) as Hd.
  pose proof (DecimalN.Unsigned.of_to n) as Hn.
  destruct (N.to_uint n) as [|d|d|d|d|d|d|d|d|d|d] eqn:E;
    [ rewrite to_uint_normal in E; now apply DecimalFacts.unorm_nonnil in E
    | apply to_uint_leading_zero in E as [-> ->]; reflexivity
    | unfold scan_natural; cbn [uint_chars app] in *; now rewrite Hd, Hn .. ].
Qed.

Lemma uint_chars_head (n : N) :
  exists c t, uint_chars (N.to_uint n) = c :: t /\ (48 <= c <= 57)%N.
Proof.
  destruct (N.to_uint n) eqn:E; cbn [uint_chars];
    try (eexists _, _; split; [reflexivity | lia]).
  rewrite to_uint_normal in E. now apply DecimalFacts.unorm_nonnil in E.
Qed.

Lemma delimited_not_float (rest : str) (z : Z) :
  delimited rest ->
  match rest with
  | c :: _ => if (N.eqb c 46 || N.eqb c 101 || N.eqb c 69)%N then None else Some (z, rest)
  | [] => Some (z, rest)
  end = Some (z, rest).
Proof. destruct rest as [|c rest]; [reflexivity|]. now intros [-> | ->]. Qed.

Lemma scan_number_int_repr (z : Z) (rest : str) :
  delimited rest -> scan_number (int_repr z ++ rest) = Some (z, rest).
Proof.
  intros Hrest. unfold scan_number, int_repr. destruct z as [|p|p].
  - cbn. now apply delimited_not_float.
  - destruct (uint_chars_head (Z.to_N (Z.pos p))) as (c & t & E & Hc).
    pose proof (scan_natural_to_uint (Z.to_N (Z.pos p)) rest Hrest) as Hs.
    rewrite E in *. cbn [app] in *.
    destruct (N.eqb_spec c 45) as [->|_]; [lia|].
    rewrite Hs. now apply delimited_not_float.
  - cbn [app N.eqb Pos.eqb]. rewrite scan_natural_to_uint by assumption.
    now apply (delimited_not_float rest (- Z.of_N (N.pos p))).
Qed.

Lemma int_repr_head (z : Z) :
  exists c t, int_repr z = c :: t /\ (c = 45 \/ 48 <= c <= 57)%N.
Proof.
  unfold int_repr. destruct z as [|p|p].
  - exists 48%N, []. split; [reflexivity | lia].
  - destruct (uint_chars_head (Z.to_N (Z.pos p))) as (c & t & E & Hc). eauto.
  - eexists _, _. split; [reflexivity | now left].
Qed.

Lemma scan_escape_char (c : char) (out rest : str) :
  scan Plain None out (escape_char c ++ rest) = scan Plain None (out ++ [c]) rest.
Proof.
  destruct (N.ltb_spec c 32) as [Hc|Hc].
  - destruct c as [|p]; [reflexivity|].
    repeat (match goal with
            | q : positive |- _ => destruct q as [q|q|]; try (exfalso; lia)
            end);
      reflexivity.
  - unfold escape_char.
    destruct (N.eqb_spec c 34) as [->|H34]; [reflexivity|].
    destruct (N.eqb_spec c 92) as [->|H92]; [reflexivity|].
    repeat match goal with
           | |- context [N.eqb c ?k] => destruct (N.eqb_spec c k); [lia|]
           end.
    destruct (N.ltb_spec c 32); [lia|].
    cbn [app scan].
    destruct (N.eqb_spec c 34); [contradiction|].
    destruct (N.eqb_spec c 92); [contradiction|].
    destruct (N.ltb_spec c 32); [lia|]. reflexivity.
Qed.

Lemma scan_escaped (s out rest : str) :
  scan Plain None out (List.concat (List.map escape_char s) ++ 34%N :: rest)
  = Some (out ++ s, rest).
Proof.
  revert out. induction s as [|c s IH]; intros out.
  - cbn. now rewrite app_nil_r.
  - cbn [List.map List.concat]. rewrite <- app_assoc, scan_escape_char, IH.
    now rewrite <- app_assoc.
Qed.

(** The scanner reads a string literal back as the string it was
    written from. *)
Lemma decode_basestring (fuel : nat) (s rest : str) :
  decode_value (S fuel) (encode_basestring s ++ rest) = Some (PStr s, rest).
Proof.
  unfold encode_basestring. cbn [app decode_value N.eqb Pos.eqb].
  unfold scan_string. rewrite <- app_assoc. cbn [app].
  now rewrite scan_escaped.
Qed.

Lemma scan_string_basestring (s rest : str) :
  scan_string (List.concat (List.map escape_char s) ++ 34%N :: rest) = Some (s, rest).
Proof. apply scan_escaped. Qed.

Lemma decode_number (fuel : nat) (c : char) (t : str) :
  (c = 45 \/ 48 <= c <= 57)%N ->
  decode_value (S fuel) (c :: t)
  = match scan_number (c :: t) with
    | Some (z, rest) => Some (PInt z, rest)
    | None => None
    end.
Proof.
  intros Hc. cbn [decode_value].
  repeat match goal with
         | |- context [N.eqb c ?k] => destruct (N.eqb_spec c k); [lia|]
         end.
  reflexivity.
Qed.

Lemma decode_int_repr (fuel : nat) (z : Z) (rest : str) :
  delimited rest ->
  decode_value (S fuel) (int_repr z ++ rest) = Some (PInt z, rest).
Proof.
  intros Hrest. pose proof (scan_number_int_repr z rest Hrest) as Hs.
  destruct (int_repr_head z) as (c & t & E & Hc). rewrite E in *.
  cbn [app] in *. now rewrite decode_number, Hs.
Qed.

Lemma encode_elements_nonempty (level : nat) (x : pyval) (l : list pyval)
    (texts : list str) :
  encode_elements level (x :: l) = Ok texts ->
  exists t ts, texts = t :: ts /\ encode (S level) x = Ok t
               /\ encode_elements level l = Ok ts.
Proof.
  rewrite encode_elements_cons.
  destruct (encode (S level) x) as [t|]; [|discriminate].
  destruct (encode_elements level l) as [ts|]; [|discriminate].
  intros [= <-]. eauto.
Qed.

Lemma encode_members_nonempty (level : nat) (k : pykey) (x : pyval)
    (items : list (pykey * pyval)) (texts : list str) :
  encode_members level ((k, x) :: items) = Ok texts ->
  exists key t ts,
    texts = (encode_basestring key ++ lit ": " ++ t) :: ts
    /\ key_str k = Ok key /\ encode (S level) x = Ok t
    /\ encode_members level items = Ok ts.
Proof.
  rewrite encode_members_cons.
  destruct (key_str k) as [key|]; [|discriminate].
  destruct (encode (S level) x) as [t|]; [|discriminate].
  destruct (encode_members level items) as [ts|]; [|discriminate].
  intros [= <-]. eauto 7.
Qed.

Lemma encode_starts_value (level : nat) (v : pyval) (text : str) :
  encode level v = Ok text -> starts_value text.
Proof.
  destruct v as [|[|]|z|s|[|x l]|[|x l]|[|[k x] items]|r];
    try (intros [= <-]; cbn; repeat split; discriminate).
  - intros [= <-]. destruct (int_repr_head z) as (c & t & -> & Hc).
    cbn. unfold is_ws.
    repeat match goal with
           | |- context [N.eqb c ?k] => destruct (N.eqb_spec c k); [lia|]
           end.
    repeat split; lia.
  - rewrite encode_list. destruct (encode_elements level (x :: l)); [|discriminate].
    intros [= <-]. cbn. repeat split; discriminate.
  - rewrite encode_tuple. destruct (encode_elements level (x :: l)); [|discriminate].
    intros [= <-]. cbn. repeat split; discriminate.
  - rewrite encode_dict. destruct (encode_members level ((k, x) :: items)); [|discriminate].
    intros [= <-]. cbn. repeat split; discriminate.
Qed.

Lemma join_cons (sep t : str) (ts : list str) :
  join sep (t :: ts) = t ++ match ts with [] => [] | _ => sep ++ join sep ts end.
Proof. destruct ts; cbn [join]; [now rewrite app_nil_r | reflexivity]. Qed.

Lemma decode_elements_step (fuel : nat) (s : str) :
  decode_elements (S fuel) s
  = match decode_value fuel s with
    | None => None
    | Some (v, rest) =>
        match skip_ws rest with
        | c :: rest' =>
            if N.eqb c 93 then Some ([v], rest')
            else if N.eqb c 44 then
              match decode_elements fuel (skip_ws rest') with
              | Some (values, rest'') => Some (v :: values, rest'')
              | None => None
              end
            else None
        | [] => None
        end
    end.
Proof. reflexivity. Qed.

Lemma delimited_newline_indent (level : nat) (s : str) :
  delimited (newline_indent level ++ s).
Proof. now right. Qed.

Lemma bracket_app (opening closing : char) (level : nat) (texts : list str)
    (rest : str) :
  bracket opening closing level texts ++ rest
  = opening :: newline_indent (S level)
      ++ (join (44%N :: newline_indent (S level)) texts
            ++ newline_indent level ++ closing :: rest).
Proof. unfold bracket. cbn [app]. now rewrite <- !app_assoc. Qed.

(** The loop over the elements of an array reads back what the loop of
    the encoder wrote. *)
Lemma decode_elements_encode (l : list pyval) :
  Forall reads_back l ->
  forall (level : nat) (texts : list str) (rest : str) (fuel : nat),
    l <> [] ->
    encode_elements level l = Ok texts ->
    forallb keys_distinct l = true ->
    (weight_elements l <= fuel)%nat ->
    decode_elements fuel
      (join (44%N :: newline_indent (S level)) texts
         ++ newline_indent level ++ 93%N :: rest)
    = Some (List.map as_json l, rest).
Proof.
  induction 1 as [|x l Hx _ IH]; intros level texts rest fuel Hne Henc Hkeys Hfuel;
    [congruence|].
  apply encode_elements_nonempty in Henc as (t & ts & -> & Ht & Hts).
  cbn [forallb] in Hkeys. apply andb_true_iff in Hkeys as [Hkx Hkl].
  change (weight_elements (x :: l)) with (S (weight x) + weight_elements l)%nat in Hfuel.
  destruct fuel as [|fuel]; [lia|].
  rewrite decode_elements_step, join_cons, <- app_assoc.
  destruct l as [|y l].
  - injection Hts as <-. cbn [app].
    rewrite (Hx (S level) t _ fuel Ht Hkx) by (lia || apply delimited_newline_indent).
    rewrite skip_ws_newline_indent. reflexivity.
  - destruct (encode_elements_nonempty _ _ _ _ Hts) as (t' & ts' & -> & Ht' & _).
    rewrite <- app_assoc. cbn [app].
    rewrite (Hx (S level) t _ fuel Ht Hkx) by (lia || now left).
    cbn [skip_ws is_ws N.eqb Pos.eqb orb].
    rewrite skip_ws_newline_indent, skip_ws_starts_value.
    + rewrite (IH level (t' :: ts') rest fuel); [reflexivity|discriminate|assumption..|lia].
    + apply starts_value_app. rewrite join_cons.
      apply starts_value_app. eapply encode_starts_value, Ht'.
Qed.

Lemma decode_members_step (fuel : nat) (s : str) :
  decode_members (S fuel) s
  = match scan_string s with
    | None => None
    | Some (key, rest) =>
        match skip_ws rest with
        | c :: rest1 =>
            if N.eqb c 58 then
              match decode_value fuel (skip_ws rest1) with
              | None => None
              | Some (v, rest2) =>
                  match skip_ws rest2 with
                  | d :: rest3 =>
                      if N.eqb d 125 then Some ([(key, v)], rest3)
                      else if N.eqb d 44 then
                        match skip_ws rest3 with
                        | q :: rest4 =>
                            if N.eqb q 34 then
                              match decode_members fuel rest4 with
                              | Some (pairs, rest5) => Some ((key, v) :: pairs, rest5)
                              | None => None
                              end
                            else None
                        | [] => None
                        end
                      else None
                  | [] => None
                  end
              end
            else None
        | [] => None
        end
    end.
Proof. reflexivity. Qed.

(** The loop over the items of an object reads back what the loop of the
    encoder wrote, from after the quote that opens the first key. *)
Lemma decode_members_encode (items : list (pykey * pyval)) :
  Forall (fun kv => reads_back (snd kv)) items ->
  forall (level : nat) (texts : list str) (rest : str) (fuel : nat),
    items <> [] ->
    encode_members level items = Ok texts ->
    forallb (fun kv => keys_distinct (snd kv)) items = true ->
    (weight_members items <= fuel)%nat ->
    exists body,
      join (44%N :: newline_indent (S level)) texts
        ++ newline_indent level ++ 125%N :: rest = 34%N :: body
      /\ decode_members fuel body
         = Some (List.map (fun kv => (key_text (fst kv), as_json (snd kv))) items, rest).
Proof.
  induction 1 as [|[k x] items Hx _ IH];
    intros level texts rest fuel Hne Henc Hkeys Hfuel; [congruence|].
  apply encode_members_nonempty in Henc as (key & t & ts & -> & Hkey & Ht & Hts).
  cbn [forallb snd] in Hkeys. apply andb_true_iff in Hkeys as [Hkx Hkl].
  change (weight_members ((k, x) :: items))
    with (S (weight x) + weight_members items)%nat in Hfuel.
  destruct fuel as [|fuel]; [lia|].
  assert (Hfx : (weight x <= fuel)%nat) by lia.
  assert (Hfi : (weight_members items <= fuel)%nat) by lia.
  cbn [snd] in Hx.
  assert (Hstart : starts_value t) by (eapply encode_starts_value, Ht).
  rewrite join_cons. unfold encode_basestring.
  change (lit ": ") with [58%N; 32%N].
  cbn [app]. eexists. split; [reflexivity|].
  rewrite decode_members_step, <- !app_assoc. cbn [app].
  rewrite scan_string_basestring.
  cbn [skip_ws is_ws N.eqb Pos.eqb orb List.map fst snd].
  rewrite skip_ws_starts_value by now apply starts_value_app.
  unfold key_text at 1. rewrite Hkey.
  destruct items as [|[k' y] items].
  - injection Hts as <-. cbn [app].
    rewrite (Hx (S level) t _ fuel Ht Hkx Hfx) by apply delimited_newline_indent.
    rewrite skip_ws_newline_indent. reflexivity.
  - destruct (IH level ts rest fuel) as (body & Hbody & Hdec);
      [discriminate|assumption..|].
    destruct ts as [|t' ts']; [apply encode_members_nonempty in Hts as (?&?&?&?&_); discriminate|].
    cbn [app].
    rewrite (Hx (S level) t _ fuel Ht Hkx Hfx) by now left.
    cbn [skip_ws is_ws N.eqb Pos.eqb orb].
    rewrite <- app_assoc, skip_ws_newline_indent, Hbody.
    cbn [skip_ws is_ws N.eqb Pos.eqb orb]. now rewrite Hdec.
Qed.

Lemma dict_set_fresh (k : pykey) (v : pyval) (items : list (pykey * pyval)) :
  existsb (fun k' => key_eqb k' k) (List.map fst items) = false ->
  dict_set k v items = items ++ [(k, v)].
Proof.
  induction items as [|[k' v'] items IH]; [reflexivity|].
  cbn [List.map fst existsb dict_set]. rewrite orb_false_iff. intros [-> H].
  now rewrite IH.
Qed.

Lemma dict_of_pairs_distinct (pairs : list (str * pyval)) (acc : list (pykey * pyval)) :
  distinct (List.map fst acc ++ List.map (fun kv => KStr (fst kv)) pairs) = true ->
  fold_left (fun items kv => dict_set (KStr (fst kv)) (snd kv) items) pairs acc
  = acc ++ List.map (fun kv => (KStr (fst kv), snd kv)) pairs.
Proof.
  revert acc. induction pairs as [|[key v] pairs IH]; intros acc Hd.
  - now rewrite app_nil_r.
  - cbn [fold_left fst snd List.map]. rewrite dict_set_fresh.
    + rewrite IH.
      * now rewrite <- app_assoc.
      * rewrite List.map_app. cbn [List.map fst]. now rewrite <- app_assoc.
    + clear IH. induction acc as [|[k' v'] acc IHacc]; [reflexivity|].
      cbn [List.map fst app distinct existsb] in *.
      apply andb_true_iff in Hd as [Hk Hd].
      rewrite IHacc by assumption. rewrite orb_false_r.
      apply negb_true_iff in Hk. rewrite existsb_app in Hk.
      apply orb_false_iff in Hk as [_ Hk]. cbn [List.map existsb fst] in Hk.
      now apply orb_false_iff in Hk as [Hk _].
Qed.

Lemma key_as_json_text (k : pykey) (key : str) :
  key_str k = Ok key -> key_as_json k = KStr (key_text k).
Proof. intros H. unfold key_as_json, key_text. now rewrite H. Qed.

Lemma encode_members_keys (level : nat) (items : list (pykey * pyval))
    (texts : list str) :
  encode_members level items = Ok texts ->
  Forall (fun kv => key_as_json (fst kv) = KStr (key_text (fst kv))) items.
Proof.
  revert texts. induction items as [|[k x] items IH]; intros texts H; [constructor|].
  apply encode_members_nonempty in H as (key & t & ts & _ & Hkey & _ & Hts).
  constructor; [eapply key_as_json_text, Hkey | eapply IH, Hts].
Qed.

(** An array is read back as the list of what its elements are read back
    as. *)
Lemma decode_array (x : pyval) (l : list pyval) (level : nat) (texts : list str)
    (rest : str) (fuel : nat) :
  Forall reads_back (x :: l) ->
  encode_elements level (x :: l) = Ok texts ->
  forallb keys_distinct (x :: l) = true ->
  (weight_elements (x :: l) <= fuel)%nat ->
  decode_value (S fuel) (bracket 91%N 93%N level texts ++ rest)
  = Some (PList (List.map as_json (x :: l)), rest).
Proof.
  intros IH E Hkeys Hfuel.
  destruct (encode_elements_nonempty _ _ _ _ E) as (t & ts & -> & Ht & _).
  rewrite bracket_app. cbn [decode_value N.eqb Pos.eqb].
  rewrite skip_ws_newline_indent.
  pose proof (decode_elements_encode (x :: l) IH level _ rest fuel
                ltac:(discriminate) E Hkeys Hfuel) as Hdec.
  assert (Hs : starts_value
                 (join (44%N :: newline_indent (S level)) (t :: ts)
                    ++ newline_indent level ++ 93%N :: rest)).
  { apply starts_value_app. rewrite join_cons. apply starts_value_app.
    eapply encode_starts_value, Ht. }
  rewrite skip_ws_starts_value by exact Hs.
  destruct (join _ (t :: ts) ++ _) as [|c r]; [destruct Hs|].
  destruct Hs as (_ & Hc & _).
  destruct (N.eqb_spec c 93); [contradiction|].
  now rewrite Hdec.
Qed.

(** Every value is read back from its text as the value the text
    denotes. *)
Lemma decode_encode (v : pyval) : reads_back v.
Proof.
  induction v as [|b|z|s|l IH|l IH|items IH|r] using pyval_nested_ind;
    intros level text rest fuel Henc Hkeys Hfuel Hrest;
    (destruct fuel as [|fuel]; [cbn in Hfuel; lia|]).
  - injection Henc as <-. reflexivity.
  - destruct b; injection Henc as <-; reflexivity.
  - injection Henc as <-. now apply decode_int_repr.
  - injection Henc as <-. apply decode_basestring.
  - destruct l as [|x l]; [injection Henc as <-; reflexivity|].
    rewrite encode_list in Henc.
    destruct (encode_elements level (x :: l)) as [texts|] eqn:E; [|discriminate].
    injection Henc as <-. apply decode_array; try assumption.
    change (weight (PList (x :: l))) with (S (weight_elements (x :: l))) in Hfuel. lia.
  - destruct l as [|x l]; [injection Henc as <-; reflexivity|].
    rewrite encode_tuple in Henc.
    destruct (encode_elements level (x :: l)) as [texts|] eqn:E; [|discriminate].
    injection Henc as <-. apply decode_array; try assumption.
    change (weight (PTuple (x :: l))) with (S (weight_elements (x :: l))) in Hfuel. lia.
  - destruct items as [|kx items]; [injection Henc as <-; reflexivity|].
    rewrite encode_dict in Henc.
    destruct (encode_members level (kx :: items)) as [texts|] eqn:E; [|discriminate].
    injection Henc as <-.
    change (keys_distinct (PDict (kx :: items)))
      with (distinct (List.map (fun kv => key_as_json (fst kv)) (kx :: items))
            && forallb (fun kv => keys_distinct (snd kv)) (kx :: items)) in Hkeys.
    apply andb_true_iff in Hkeys as [Hdist Hkeys].
    destruct (decode_members_encode (kx :: items) IH level texts rest fuel)
      as (body & Hbody & Hdec); [discriminate|assumption..| |].
    { change (weight (PDict (kx :: items)))
        with (S (weight_members (kx :: items))) in Hfuel. lia. }
    rewrite bracket_app. cbn [decode_value N.eqb Pos.eqb].
    rewrite skip_ws_newline_indent. unfold char in *. rewrite Hbody.
    cbn [skip_ws is_ws N.eqb Pos.eqb orb]. rewrite Hdec.
    pose proof (encode_members_keys _ _ _ E) as Hk.
    assert (Hmap :
      List.map (fun kv => KStr (fst kv))
        (List.map (fun kv => (key_text (fst kv), as_json (snd kv))) (kx :: items))
      = List.map (fun kv => key_as_json (fst kv)) (kx :: items)).
    { rewrite List.map_map. apply List.map_ext_Forall.
      eapply Forall_impl; [exact Hk|]. intros [k x] Hkx. cbn [fst snd] in *.
      now rewrite Hkx. }
    assert (Hpairs :
      dict_of_pairs
        (List.map (fun kv => (key_text (fst kv), as_json (snd kv))) (kx :: items))
      = List.map (fun kv => (key_as_json (fst kv), as_json (snd kv))) (kx :: items)).
    { unfold dict_of_pairs. rewrite dict_of_pairs_distinct.
      - cbn [app]. rewrite List.map_map. apply List.map_ext_Forall.
        eapply Forall_impl; [exact Hk|]. intros [k x] Hkx. cbn [fst snd] in *.
        now rewrite Hkx.
      - cbn [List.map app] in *. now rewrite Hmap. }
    rewrite Hpairs. reflexivity.
  - injection Henc as <-. apply decode_basestring.
Qed.

Lemma starts_value_nonempty (text : str) : starts_value text -> (1 <= length text)%nat.
Proof. destruct text; [intros [] | cbn; lia]. Qed.

Lemma weight_elements_le (level : nat) (sep : str) (l : list pyval) :
  Forall (fun v => forall level text, encode level v = Ok text ->
                                      (weight v <= length text)%nat) l ->
  forall texts, encode_elements level l = Ok texts ->
    (1 <= length sep)%nat ->
    (weight_elements l <= length (join sep texts) + 1)%nat.
Proof.
  induction 1 as [|x l Hx _ IH]; intros texts Henc Hsep; [cbn; lia|].
  apply encode_elements_nonempty in Henc as (t & ts & -> & Ht & Hts).
  change (weight_elements (x :: l)) with (S (weight x) + weight_elements l)%nat.
  specialize (Hx _ _ Ht). specialize (IH _ Hts Hsep). rewrite join_cons.
  destruct l as [|y l].
  - injection Hts as <-. cbn [weight_elements]. rewrite length_app. cbn. lia.
  - destruct ts as [|t' ts']; [apply encode_elements_nonempty in Hts as (?&?&?&_); discriminate|].
    rewrite !length_app. lia.
Qed.

Lemma weight_members_le (level : nat) (sep : str) (items : list (pykey * pyval)) :
  Forall (fun kv => forall level text, encode level (snd kv) = Ok text ->
                                       (weight (snd kv) <= length text)%nat) items ->
  forall texts, encode_members level items = Ok texts ->
    (1 <= length sep)%nat ->
    (weight_members items <= length (join sep texts) + 1)%nat.
Proof.
  induction 1 as [|[k x] items Hx _ IH]; intros texts Henc Hsep; [cbn; lia|].
  apply encode_members_nonempty in Henc as (key & t & ts & -> & _ & Ht & Hts).
  change (weight_members ((k, x) :: items))
    with (S (weight x) + weight_members items)%nat.
  specialize (Hx _ _ Ht). specialize (IH _ Hts Hsep). rewrite join_cons.
  cbn [snd] in Hx.
  destruct items as [|[k' y] items].
  - injection Hts as <-. cbn [weight_members]. rewrite !length_app. cbn. lia.
  - destruct ts as [|t' ts']; [apply encode_members_nonempty in Hts as (?&?&?&?&_); discriminate|].
    rewrite !length_app. lia.
Qed.

Lemma length_bracket (opening closing : char) (level : nat) (texts : list str) :
  (length (join (44%N :: newline_indent (S level)) texts) + 4
   <= length (bracket opening closing level texts))%nat.
Proof.
  unfold bracket, newline_indent. cbn [length]. rewrite !length_app. cbn [length]. lia.
Qed.

Lemma weight_array (x : pyval) (l : list pyval) (level : nat) (texts : list str) :
  Forall (fun v => forall level text, encode level v = Ok text ->
                                      (weight v <= length text)%nat) (x :: l) ->
  encode_elements level (x :: l) = Ok texts ->
  (S (weight_elements (x :: l)) <= length (bracket 91%N 93%N level texts))%nat.
Proof.
  intros IH E.
  pose proof (weight_elements_le level (44%N :: newline_indent (S level))
                (x :: l) IH texts E ltac:(cbn; lia)).
  pose proof (length_bracket 91%N 93%N level texts). lia.
Qed.

(** The text of a value is at least as long as the fuel its decoding
    takes. *)
Lemma weight_le_length (v : pyval) :
  forall level text, encode level v = Ok text -> (weight v <= length text)%nat.
Proof.
  induction v as [|b|z|s|l IH|l IH|items IH|r] using pyval_nested_ind;
    intros level text Henc;
    try (apply encode_starts_value, starts_value_nonempty in Henc; exact Henc).
  - destruct l as [|x l]; [injection Henc as <-; cbn; lia|].
    rewrite encode_list in Henc.
    destruct (encode_elements level (x :: l)) as [texts|] eqn:E; [|discriminate].
    injection Henc as <-. now apply weight_array.
  - destruct l as [|x l]; [injection Henc as <-; cbn; lia|].
    rewrite encode_tuple in Henc.
    destruct (encode_elements level (x :: l)) as [texts|] eqn:E; [|discriminate].
    injection Henc as <-. now apply weight_array.
  - destruct items as [|kx items]; [injection Henc as <-; cbn; lia|].
    rewrite encode_dict in Henc.
    destruct (encode_members level (kx :: items)) as [texts|] eqn:E; [|discriminate].
    injection Henc as <-.
    pose proof (weight_members_le level (44%N :: newline_indent (S level))
                  (kx :: items) IH texts E ltac:(cbn; lia)).
    pose proof (length_bracket 123%N 125%N level texts).
    change (weight (PDict (kx :: items))) with (S (weight_members (kx :: items))). lia.
Qed.

(** [json.loads] on the text of a value *)
Lemma loads_encode (v : pyval) (text : str) :
  encode 0 v = Ok text -> keys_distinct v = true -> loads text = Some (as_json v).
Proof.
  intros Henc Hkeys. unfold loads.
  rewrite skip_ws_starts_value by (eapply encode_starts_value, Henc).
  pose proof (decode_encode v 0%nat text [] (S (length text)) Henc Hkeys) as H.
  rewrite app_nil_r in H. rewrite H; [reflexivity| |exact I].
  pose proof (weight_le_length v _ _ Henc). lia.
Qed.







Section WithPlatform.
Variable unwritable : str -> bool.
Variable interrupted : pyval -> str.
Variable csv_row : list pyval -> str.

Lemma only_open_w (filename : str) : raises_only_Exception (open_w unwritable filename).
Proof.
  intros fs e fs'. unfold open_w.
  destruct (existsb (N.eqb 0) filename); [now intros [= <- _]|].
  destruct (unwritable filename); [now intros [= <- _] | discriminate].
Qed.

Lemma only_write (filename text : str) : raises_only_Exception (write filename text).
Proof.
  intros fs e fs'. unfold write.
  destruct (forallb encodable text); [discriminate | now intros [= <- _]].
Qed.

Lemma only_json_dump (data : pyval) (filename : str) :
  raises_only_Exception (json_dump interrupted data filename).
Proof.
  intros fs e fs'. unfold json_dump.
  destruct (encode 0 data) as [text|e'] eqn:E.
  - destruct (forallb encodable text) eqn:Et.
    + apply only_write.
    + now intros [= <- _].
  - intros [= <- _]. now rewrite (encode_raises _ _ _ E).
Qed.

(** What [export_to_json] returns: true when the path opens, the encoder
    accepts the data and UTF-8 can encode the text, false otherwise. *)
Lemma export_to_json_outcome (data : pyval) (filename : str) (fs : filesystem) :
  fst (export_to_json unwritable interrupted data filename fs)
  = Ok (negb (existsb (N.eqb 0) filename) && negb (unwritable filename)
        && match encode 0 data with
           | Ok text => forallb encodable text
           | Raise _ => false
           end).
Proof.
  unfold export_to_json, io_try, mbind, io_bind, open_w, json_dump, write.
  destruct (existsb (N.eqb 0) filename); [reflexivity|].
  destruct (unwritable filename); [reflexivity|].
  destruct (encode 0 data) as [text|e] eqn:E.
  - now destruct (forallb encodable text).
  - now rewrite (encode_raises _ _ _ E).
Qed.

(** C8: whatever the data and the path, [export_to_csv] and
    [export_to_json] return a boolean and let no exception through;
    [export_to_json] returns true exactly when every step succeeded, and
    [export_to_csv] returns false on an empty list. *)
Theorem export_returns_bool (data : pyval) (filename : str) (fs : filesystem) :
  (exists b fs', export_to_csv unwritable csv_row data filename fs = (Ok b, fs'))
  /\ (exists b fs',
        export_to_json unwritable interrupted data filename fs = (Ok b, fs'))
  /\ fst (export_to_json unwritable interrupted data filename fs)
     = Ok (negb (existsb (N.eqb 0) filename) && negb (unwritable filename)
           && match encode 0 data with
              | Ok text => forallb encodable text
              | Raise _ => false
              end)
  /\ export_to_csv unwritable csv_row (PList []) filename fs = (Ok false, fs).
Proof.
  split; [|split; [|split; [apply export_to_json_outcome | reflexivity]]];
    apply io_try_returns.
  - destruct (negb (truthy data)); [apply only_ret|].
    apply only_bind; [apply only_open_w | intros _].
    apply only_bind; [apply only_lift | intros first].
    { destruct data as [| | |[|]|[|]|[|]| |]; simpl; try (now intros ? [= <-]); try discriminate.
      destruct (dict_get _ _); [discriminate | now intros ? [= <-]]. }
    apply only_bind; [apply only_lift | intros fieldnames].
    { destruct first; simpl; try (now intros ? [= <-]); discriminate. }
    apply only_bind; [apply only_write | intros _].
    apply only_bind; [apply only_lift | intros rows].
    { destruct data; simpl; try (now intros ? [= <-]); discriminate. }
    apply only_bind; [|intros _; apply only_ret].
    apply only_for_each. intros row.
    apply only_bind; [apply only_lift | intros cells; apply only_write].
    unfold dict_to_list. destruct row; simpl; try (now intros ? [= <-]).
    destruct (List.filter _ _); [discriminate | now intros ? [= <-]].
  - apply only_bind; [apply only_open_w | intros _].
    apply only_bind; [apply only_json_dump | intros _; apply only_ret].
Qed.

(** When [export_to_json] reports success, the file holds the whole
    text of the data. *)
Lemma export_to_json_true (data : pyval) (filename : str) (fs fs' : filesystem) :
  export_to_json unwritable interrupted data filename fs = (Ok true, fs') ->
  exists text, encode 0 data = Ok text /\ fs' !! filename = Some text.
Proof.
  unfold export_to_json, io_try, mbind, io_bind, open_w, json_dump, write.
  destruct (existsb (N.eqb 0) filename); [discriminate|].
  destruct (unwritable filename); [discriminate|].
  destruct (encode 0 data) as [text|e] eqn:E.
  - destruct (forallb encodable text); [|discriminate].
    intros [= <-]. exists text. split; [reflexivity|].
    now rewrite lookup_alter_eq, lookup_insert_eq.
  - rewrite (encode_raises _ _ _ E). discriminate.
Qed.


End WithPlatform.



End ExportFacts.

(** * Further properties *)

(** ** Totals of the reports *)

Module ReportTotalsFacts.
Import DateTimeUtils ReportUtils ReportTotals ReportFacts.
Local Open Scope Q_scope.

Lemma add_to_category_insert (m : gmap str category_totals) (it : item) :
  add_to_category m it
  = <[default (lit "Unknown") (category it) :=
        let e := default {| count := 0; value := 0 |}
                   (m !! default (lit "Unknown") (category it)) in
        {| count := (count e + 1)%Z; value := value e + item_value it |}]> m.
Proof.
  apply map_eq. intros c. rewrite add_to_category_lookup, lookup_insert.
  now destruct (decide (default (lit "Unknown") (category it) = c)) as [<-|].
Qed.

Lemma categories_count_insert (m : gmap str category_totals) (c : str)
    (e : category_totals) :
  categories_count (<[c := e]> m)
  = (count e + categories_count m
     - count (default {| count := 0; value := 0 |} (m !! c)))%Z.
Proof.
  unfold categories_count.
  rewrite <- insert_delete_eq, map_fold_insert_L;
    [|intros; lia | apply lookup_delete_eq].
  destruct (m !! c) as [old|] eqn:E.
  - rewrite (map_fold_delete_L _ _ c old m); [cbn; lia | intros; lia | exact E].
  - rewrite delete_id by exact E. cbn. lia.
Qed.

Lemma categories_loop_counts (l : list item) (m : gmap str category_totals) :
  categories_count (fold_left add_to_category l m)
  = (categories_count m + Z.of_nat (length l))%Z.
Proof.
  revert m. induction l as [|it l IH]; intros m.
  - cbn. lia.
  - cbn [fold_left]. rewrite IH, add_to_category_insert.
    cbv zeta. rewrite categories_count_insert. cbn [count length]. lia.
Qed.

Section WithDatetime.
Context {L : DatetimeLib}.

(** The counts of the categories add up to the number of lines of the
    report, and the low-stock lines are no more than the lines. *)
Theorem inventory_report_counts (store_data : list item) (now : datetime) :
  categories_count (categories (generate_inventory_report store_data now))
  = total_items (generate_inventory_report store_data now)
  /\ (0 <= low_stock_count (generate_inventory_report store_data now)
         <= total_items (generate_inventory_report store_data now))%Z.
Proof.
  cbn [categories total_items low_stock_count generate_inventory_report].
  split.
  - rewrite categories_loop_counts. unfold categories_count.
    rewrite map_fold_empty. lia.
  - pose proof (List.filter_length_le low_stock store_data). lia.
Qed.

Lemma add_to_day_insert (m : gmap str day_totals) (t : transaction) (s : str)
    (d : datetime) :
  date_of t = PStr s -> first_format s formats = Some d ->
  add_to_day m t
  = Ok (<[format_date (inr d) default_format :=
            let e := default {| day_count := 0; revenue := 0 |}
                       (m !! format_date (inr d) default_format) in
            {| day_count := (day_count e + 1)%Z;
               revenue := revenue e + amount_of t |}]> m).
Proof.
  intros Hs Hd. unfold add_to_day. rewrite Hs. cbn [parse_date mbind result_bind Py.bind].
  rewrite Hd. cbv zeta. f_equal. apply map_eq. intros k.
  rewrite lookup_insert.
  destruct (decide (format_date (inr d) default_format = k)) as [<-|Hne].
  - destruct (m !! format_date (inr d) default_format) as [e|] eqn:E.
    + now rewrite !lookup_alter_eq, E.
    + now rewrite !lookup_alter_eq, lookup_insert_eq.
  - rewrite !lookup_alter_ne by assumption.
    destruct (m !! format_date (inr d) default_format);
      [reflexivity | now rewrite lookup_insert_ne].
Qed.

(** What one turn of the loop over the days does, for a transaction
    that has a day. *)
Lemma add_to_day_of (m : gmap str day_totals) (t : transaction) (k : str) :
  day_of t = Some k ->
  add_to_day m t
  = Ok (<[k := let e := default {| day_count := 0; revenue := 0 |} (m !! k) in
              {| day_count := (day_count e + 1)%Z;
                 revenue := revenue e + amount_of t |}]> m).
Proof.
  unfold day_of.
  destruct (date_of t) as [|?|?|s|?|?|?|?] eqn:Hs; try discriminate.
  destruct (first_format s formats) as [d|] eqn:Hd; [|discriminate].
  intros [= <-]. now apply (add_to_day_insert m t s d).
Qed.

Lemma in_period_day_of (start_date end_date : datetime) (t : transaction) :
  in_period start_date end_date t = true -> exists k, day_of t = Some k.
Proof.
  unfold in_period, day_of.
  destruct (date_of t) as [|?|?|s|?|?|?|?]; try discriminate.
  destruct (first_format s formats); [eauto | discriminate].
Qed.

Lemma days_count_insert (m : gmap str day_totals) (k : str) (e : day_totals) :
  days_count (<[k := e]> m)
  = (day_count e + days_count m
     - day_count (default {| day_count := 0; revenue := 0 |} (m !! k)))%Z.
Proof.
  unfold days_count.
  rewrite <- insert_delete_eq, map_fold_insert_L;
    [|intros; lia | apply lookup_delete_eq].
  destruct (m !! k) as [old|] eqn:E.
  - rewrite (map_fold_delete_L _ _ k old m); [cbn; lia | intros; lia | exact E].
  - rewrite delete_id by exact E. cbn. lia.
Qed.

Lemma keep_in_period_step (start_date end_date : datetime)
    (acc : list transaction) (t : transaction) :
  keep_in_period start_date end_date acc t
  = match date_of t with
    | PStr _ => Ok (if in_period start_date end_date t then acc ++ [t] else acc)
    | _ => Raise TypeError
    end.
Proof.
  unfold keep_in_period, in_period.
  destruct (date_of t) as [|?|?|s|?|?|?|?]; try reflexivity.
  cbn [parse_date mbind result_bind Py.bind].
  destruct (first_format s formats) as [d|]; [|reflexivity].
  now destruct (dt_le start_date d && dt_le d end_date).
Qed.

(** The first loop keeps the transactions of the period, in order. *)
Lemma keep_loop (start_date end_date : datetime) (l acc kept : list transaction) :
  for_each (keep_in_period start_date end_date) l acc = Ok kept ->
  kept = acc ++ List.filter (in_period start_date end_date) l.
Proof.
  revert acc. induction l as [|t l IH]; intros acc; cbn [for_each List.filter].
  - intros [= <-]. now rewrite app_nil_r.
  - rewrite keep_in_period_step.
    destruct (date_of t) as [|?|?|s|?|?|?|?]; try discriminate.
    cbn [mbind result_bind Py.bind].
    destruct (in_period start_date end_date t); intros H; apply IH in H; [|exact H].
    now rewrite <- app_assoc in H.
Qed.

(** The second loop adds every transaction of the period to its day:
    the count of the day goes up by one and the amount is added to the
    revenue of the day, in the order of the list. *)
Lemma day_loop (start_date end_date : datetime) (kept : list transaction)
    (m : gmap str day_totals) :
  Forall (fun t => in_period start_date end_date t = true) kept ->
  exists m', for_each add_to_day kept m = Ok m'
    /\ days_count m' = (days_count m + Z.of_nat (length kept))%Z
    /\ forall day,
         m' !! day
         = let sales := List.filter (on_day day) kept in
           match sales with
           | [] => m !! day
           | _ =>
               let e := default {| day_count := 0; revenue := 0 |} (m !! day) in
               Some {| day_count := (day_count e + Z.of_nat (length sales))%Z;
                       revenue := fold_left Qplus (List.map amount_of sales)
                                    (revenue e) |}
           end.
Proof.
  intros Hk. revert m. induction Hk as [|t kept Ht _ IH]; intros m.
  - exists m. cbn. split; [reflexivity|]. split; [lia | reflexivity].
  - destruct (in_period_day_of _ _ _ Ht) as [k Hday].
    cbn [for_each]. rewrite (add_to_day_of m t k Hday).
    cbn [mbind result_bind Py.bind]. cbv zeta.
    match goal with
    | |- context [for_each add_to_day kept ?M] =>
        destruct (IH M) as (m' & Hm & Hc & Hl)
    end.
    exists m'. split; [exact Hm|]. split.
    + rewrite Hc, days_count_insert. cbn [day_count length]. lia.
    + intros day. rewrite Hl. cbv zeta. cbn [List.filter].
      assert (Hon : on_day day t = bool_decide (k = day)).
      { unfold on_day. rewrite Hday. apply bool_decide_ext. split; congruence. }
      rewrite Hon, lookup_insert.
      destruct (decide (k = day)) as [->|Hne].
      * rewrite bool_decide_eq_true_2 by reflexivity.
        destruct (List.filter (on_day day) kept) as [|t' sales];
          cbn [default from_option id day_count revenue length List.map fold_left];
          do 2 f_equal; lia.
      * rewrite bool_decide_eq_false_2 by congruence. reflexivity.
Qed.

(** What a returned sales report was computed from. *)
Lemma sales_report_inv (transactions : list transaction) (days : Z)
    (now : datetime) (r : sales_report) :
  generate_sales_report transactions days now = Ok r ->
  exists start daily,
    sub_days now days = Ok start
    /\ for_each add_to_day (List.filter (in_period start now) transactions) ∅
       = Ok daily
    /\ total_sales r
       = Z.of_nat (length (List.filter (in_period start now) transactions))
    /\ total_revenue r
       = sum (List.map amount_of (List.filter (in_period start now) transactions))
    /\ daily_breakdown r = daily.
Proof.
  unfold generate_sales_report. cbv zeta.
  destruct (sub_days now days) as [start|]; [|discriminate].
  cbn [mbind result_bind Py.bind].
  destruct (for_each _ transactions []) as [kept|] eqn:Ek; [|discriminate].
  apply keep_loop in Ek. cbn [app] in Ek. subst kept.
  cbn [mbind result_bind Py.bind].
  destruct (if (0 <? _)%Z then _ else _) as [avg|]; [|discriminate].
  cbn [mbind result_bind Py.bind].
  destruct (for_each add_to_day _ ∅) as [daily|] eqn:Ed; [|discriminate].
  intros [= <-]. exists start, daily. auto.
Qed.

(** A sales report counts and sums exactly the transactions whose date
    parses to a date from the start of the period to now. *)
Theorem sales_report_counts_period (transactions : list transaction) (days : Z)
    (now : datetime) (r : sales_report) :
  generate_sales_report transactions days now = Ok r ->
  exists start,
    sub_days now days = Ok start
    /\ total_sales r
       = Z.of_nat (length (List.filter (in_period start now) transactions))
    /\ total_revenue r
       = sum (List.map amount_of (List.filter (in_period start now) transactions))
    /\ (0 <= total_sales r <= Z.of_nat (length transactions))%Z.
Proof.
  intros H. apply sales_report_inv in H as (start & daily & Hs & _ & Hn & Hr & _).
  exists start. repeat split; try assumption; try lia.
  rewrite Hn. pose proof (List.filter_length_le (in_period start now) transactions). lia.
Qed.

(** The daily breakdown of a sales report has an entry for exactly the
    days of the transactions of the period; the entry of a day holds
    the number of those transactions and their amounts added to 0 one
    after the other, in the order of the list; and the counts of the
    days add up to the number of sales of the report. *)
Theorem sales_report_days (transactions : list transaction) (days : Z)
    (now : datetime) (r : sales_report) :
  generate_sales_report transactions days now = Ok r ->
  exists start,
    sub_days now days = Ok start
    /\ (forall day,
          daily_breakdown r !! day
          = let sales :=
              List.filter (on_day day)
                (List.filter (in_period start now) transactions) in
            match sales with
            | [] => None
            | _ =>
                Some {| day_count := Z.of_nat (length sales);
                        revenue := fold_left Qplus (List.map amount_of sales) 0 |}
            end)
    /\ days_count (daily_breakdown r) = total_sales r.
Proof.
  intros H. apply sales_report_inv in H as (start & daily & Hs & Hd & -> & _ & ->).
  destruct (day_loop start now (List.filter (in_period start now) transactions) ∅)
    as (m' & Hm & Hc & Hl).
  { apply List.Forall_forall. intros t Ht. now apply List.filter_In in Ht as [_ Ht]. }
  rewrite Hd in Hm. injection Hm as <-.
  exists start. split; [exact Hs|]. split.
  - intros day. rewrite Hl. cbv zeta. rewrite lookup_empty.
    now destruct (List.filter (on_day day) _).
  - rewrite Hc. unfold days_count. rewrite map_fold_empty. lia.
Qed.

End WithDatetime.

Lemma sales_report_counts_period_witness :
  exists r,
    generate_sales_report (L := DayNumbers.lib)
      [Samples.dated_sale; Samples.undated_sale; Samples.dated_sale] 30 100%Z = Ok r
    /\ total_sales r = 2%Z.
Proof.
  destruct (generate_sales_report (L := DayNumbers.lib)
              [Samples.dated_sale; Samples.undated_sale; Samples.dated_sale] 30 100%Z)
    as [r|e] eqn:E; [|vm_compute in E; discriminate E].
  exists r. split; [reflexivity|].
  destruct (sales_report_counts_period (L := DayNumbers.lib) _ _ _ _ E)
    as (start & Hs & Hn & _).
  injection Hs as <-. exact Hn.
Defined.

Lemma sales_report_days_witness :
  exists r,
    generate_sales_report (L := DayNumbers.lib)
      [Samples.dated_sale; Samples.undated_sale; Samples.dated_sale] 30 100%Z = Ok r
    /\ days_count (daily_breakdown r) = total_sales r.
Proof.
  destruct (generate_sales_report (L := DayNumbers.lib)
              [Samples.dated_sale; Samples.undated_sale; Samples.dated_sale] 30 100%Z)
    as [r|e] eqn:E; [|vm_compute in E; discriminate E].
  exists r. split; [reflexivity|].
  destruct (sales_report_days (L := DayNumbers.lib) _ _ _ _ E) as (start & _ & _ & H).
  exact H.
Defined.

End ReportTotalsFacts.

(** ** FileUtils *)

Module FileFacts.
Import Regex RegexFacts SecurityUtils FileUtils.

Lemma BasicLatin_visible : UnicodeVisible BasicLatin.tables.
Proof.
  split; intros c Hc; cbn.
  - unfold BasicLatin.space.
    apply orb_false_iff. split; apply andb_false_iff.
    + right. apply N.leb_gt. lia.
    + right. apply N.leb_gt. lia.
  - unfold range, chr. cbn.
    rewrite andb_true_iff, !N.leb_le. lia.
Qed.

Lemma invalid_char_spec (c : char) :
  invalid_char c = false <-> ~ In c forbidden.
Proof.
  unfold invalid_char, one_of, forbidden. cbn.
  rewrite !orb_false_iff, !N.eqb_neq. intuition congruence.
Qed.

Lemma replace_invalid_map (f : str) :
  replace_invalid f = List.map (fun c => if invalid_char c then 95%N else c) f.
Proof.
  unfold replace_invalid, sub_class.
  induction f as [|c f IH]; simpl; [reflexivity|].
  rewrite <- IH. now destruct (invalid_char c).
Qed.

Lemma replace_invalid_length (f : str) :
  length (replace_invalid f) = length f.
Proof. rewrite replace_invalid_map. apply length_map. Qed.

Lemma replace_invalid_valid (f : str) :
  Forall (fun c => invalid_char c = false) (replace_invalid f).
Proof.
  rewrite replace_invalid_map.
  induction f as [|c f IH]; simpl; constructor; [|exact IH].
  destruct (invalid_char c) eqn:E; [reflexivity | exact E].
Qed.

Lemma replace_invalid_id (f : str) :
  Forall (fun c => invalid_char c = false) f -> replace_invalid f = f.
Proof.
  rewrite replace_invalid_map.
  induction 1 as [|c f Hc _ IH]; simpl; [reflexivity|].
  now rewrite Hc, IH.
Qed.

(** What [splitext] returns are the two parts of a cut of the path. *)
Lemma splitext_generic_parts (sep : char) (altsep : option char) (p name ext : str) :
  splitext_generic sep altsep p = (name, ext) -> name ++ ext = p.
Proof.
  unfold splitext_generic. cbv zeta.
  match goal with |- context [if ?b then _ else _] => destruct b end.
  - intros [= <- <-]. apply take_drop.
  - intros [= <- <-]. apply app_nil_r.
Qed.

Lemma splitext_parts (os : platform) (p name ext : str) :
  splitext os p = (name, ext) -> name ++ ext = p.
Proof. destruct os; apply splitext_generic_parts. Qed.

Lemma rfind_from_absent (c : char) (s : str) (i last : Z) :
  ~ In c s -> rfind_from c s i last = last.
Proof.
  revert i last. induction s as [|x s IH]; intros i last Hc; simpl; [reflexivity|].
  rewrite IH by (intros H; apply Hc; now right).
  destruct (N.eqb_spec x c) as [->|_]; [|reflexivity].
  exfalso. apply Hc. now left.
Qed.

(** A path without separators is split the same way on every platform. *)
Lemma splitext_no_separator (os : platform) (p : str) :
  Forall (fun c => invalid_char c = false) p ->
  splitext os p = splitext_generic 47%N None p.
Proof.
  intros Hp. destruct os; [reflexivity|].
  assert (Hno : forall c, In c forbidden -> ~ In c p).
  { intros c Hc Hin. rewrite Stdlib.Lists.List.Forall_forall in Hp.
    apply Hp in Hin. apply invalid_char_spec in Hin. contradiction. }
  unfold splitext, splitext_generic, rfind.
  rewrite !(rfind_from_absent 47%N) by (apply Hno; cbn; tauto).
  rewrite !(rfind_from_absent 92%N) by (apply Hno; cbn; tauto).
  reflexivity.
Qed.

Lemma slice_to_length (k : Z) (s : str) :
  length (slice_to k s) = Nat.min (clip k s) (length s).
Proof. unfold slice_to. apply length_take. Qed.

Lemma sanitize_filename_cut (os : platform) (f : str) :
  exists name ext,
    splitext os (replace_invalid f) = (name, ext)
    /\ name ++ ext = replace_invalid f
    /\ sanitize_filename os f =
       if 255 <? Z.of_nat (length f)
       then slice_to (255 - Z.of_nat (length ext)) name ++ ext
       else replace_invalid f.
Proof.
  destruct (splitext os (replace_invalid f)) as [name ext] eqn:E.
  exists name, ext. split; [reflexivity|]. split; [now apply splitext_parts in E|].
  unfold sanitize_filename. cbv zeta.
  rewrite replace_invalid_length, E. reflexivity.
Qed.

Lemma sanitized_valid (os : platform) (f : str) :
  Forall (fun c => ~ In c forbidden) (sanitize_filename os f).
Proof.
  destruct (sanitize_filename_cut os f) as (name & ext & _ & Hcut & ->).
  pose proof (replace_invalid_valid f) as Hv. rewrite <- Hcut in Hv.
  apply Forall_app in Hv as [Hname Hext].
  eapply Forall_impl; [|intros c Hc; apply invalid_char_spec; exact Hc].
  destruct (255 <? Z.of_nat (length f)).
  - apply Forall_app. split; [|exact Hext].
    unfold slice_to. now apply Forall_take.
  - rewrite <- Hcut. apply Forall_app. now split.
Qed.

(** The name that [sanitize_filename] returns holds none of the
    characters of its pattern, whatever the name it is given. *)
Theorem sanitize_filename_valid (os : platform) (f : str) :
  Forall (fun c => ~ In c forbidden) (sanitize_filename os f).
Proof. apply sanitized_valid. Qed.

(** The platform does not matter to [sanitize_filename]: the separators
    of both are replaced before the name is split. *)
Theorem sanitize_filename_platform (f : str) :
  sanitize_filename Posix f = sanitize_filename Nt f.
Proof.
  unfold sanitize_filename. cbv zeta.
  now rewrite !(splitext_no_separator _ _ (replace_invalid_valid f)).
Qed.

Lemma sanitized_length (os : platform) (f : str) :
  (length (snd (splitext os (replace_invalid f))) <= 255)%nat ->
  length (sanitize_filename os f) = Nat.min (length f) 255.
Proof.
  destruct (sanitize_filename_cut os f) as (name & ext & -> & Hcut & ->).
  simpl. intros Hext.
  apply (f_equal (@length char)) in Hcut.
  rewrite length_app, replace_invalid_length in Hcut.
  destruct (Z.ltb_spec 255 (Z.of_nat (length f))) as [Hlong|Hshort].
  - rewrite length_app, slice_to_length. unfold clip.
    destruct (Z.ltb_spec (255 - Z.of_nat (length ext)) 0); lia.
  - rewrite replace_invalid_length. lia.
Qed.

(** When the extension that [os.path.splitext] finds in the name is at
    most 255 characters long, the name returned is the given one cut to
    255 characters: it has the length of the given name, or 255. *)
Theorem sanitize_filename_length (os : platform) (f : str) :
  (length (snd (splitext os (replace_invalid f))) <= 255)%nat ->
  length (sanitize_filename os f) = Nat.min (length f) 255.
Proof. apply sanitized_length. Qed.

(** When that extension is longer than 255 characters, the name
    returned is longer than 255 characters too: the limit is not met. *)
Theorem sanitize_filename_long_extension (os : platform) (f : str) :
  (255 < length (snd (splitext os (replace_invalid f))))%nat ->
  (255 < length (sanitize_filename os f))%nat.
Proof.
  destruct (sanitize_filename_cut os f) as (name & ext & -> & Hcut & ->).
  simpl. intros Hext.
  apply (f_equal (@length char)) in Hcut.
  rewrite length_app, replace_invalid_length in Hcut.
  destruct (Z.ltb_spec 255 (Z.of_nat (length f))) as [Hlong|Hshort].
  - rewrite length_app. lia.
  - lia.
Qed.

(** Sanitizing twice gives what sanitizing once gives, when the
    extension is at most 255 characters long. *)
Theorem sanitize_filename_idempotent (os : platform) (f : str) :
  (length (snd (splitext os (replace_invalid f))) <= 255)%nat ->
  sanitize_filename os (sanitize_filename os f) = sanitize_filename os f.
Proof.
  intros Hext.
  pose proof (sanitized_length os f Hext) as Hlen.
  pose proof (sanitized_valid os f) as Hv.
  set (g := sanitize_filename os f) in *.
  unfold sanitize_filename at 1. cbv zeta.
  assert (Hid : replace_invalid g = g).
  { apply replace_invalid_id.
    eapply Forall_impl; [exact Hv|]. intros c Hc. now apply invalid_char_spec. }
  rewrite Hid.
  destruct (Z.ltb_spec 255 (Z.of_nat (length g))); [lia | reflexivity].
Qed.

Section Safe.
Context {U : Unicode} `{!UnicodeAscii U} `{!UnicodeVisible U}.

(** A name that [is_safe_filename] accepts and that is at most 255
    characters long is returned as it is by [sanitize_filename]. *)
Theorem sanitize_safe_filename (os : platform) (f : str) :
  is_safe_filename f = true ->
  (length f <= 255)%nat ->
  sanitize_filename os f = f.
Proof.
  intros Hsafe Hlen.
  unfold is_safe_filename in Hsafe. cbv zeta in Hsafe.
  apply andb_true_iff in Hsafe as [Hchars _].
  apply SecurityFacts.safe_chars_match in Hchars as [_ Hall].
  assert (Hid : replace_invalid f = f).
  { apply replace_invalid_id.
    eapply Forall_impl; [exact Hall|]. intros c Hc. cbv beta in Hc.
    apply invalid_char_spec. intros Hin.
    apply SecurityFacts.safe_char_spec in Hc.
    assert (Hv : re_space c = false).
    { apply re_space_visible. cbn in Hin.
      repeat (destruct Hin as [<-|Hin]; [lia|]). contradiction. }
    rewrite Hv in Hc. cbn in Hin.
    repeat (destruct Hin as [<-|Hin]; [intuition (discriminate || lia)|]).
    contradiction. }
  unfold sanitize_filename. cbv zeta. rewrite Hid.
  destruct (Z.ltb_spec 255 (Z.of_nat (length f))); [lia | reflexivity].
Qed.

End Safe.

Lemma sanitize_filename_length_witness :
  length (sanitize_filename Posix (List.repeat 97%N 300 ++ lit ".txt"))
  = Nat.min 304 255.
Proof.
  apply (sanitize_filename_length Posix (List.repeat 97%N 300 ++ lit ".txt")).
  vm_compute. lia.
Defined.

Lemma sanitize_filename_long_extension_witness :
  (255 < length (sanitize_filename Posix (lit "a." ++ List.repeat 97%N 300)))%nat.
Proof.
  apply (sanitize_filename_long_extension Posix (lit "a." ++ List.repeat 97%N 300)).
  vm_compute. lia.
Defined.

Lemma sanitize_filename_idempotent_witness :
  sanitize_filename Nt (sanitize_filename Nt (lit "a<b>.txt"))
  = sanitize_filename Nt (lit "a<b>.txt").
Proof.
  apply (sanitize_filename_idempotent Nt (lit "a<b>.txt")).
  vm_compute. lia.
Defined.

Lemma sanitize_safe_filename_witness :
  sanitize_filename Posix (lit "report 2024.pdf") = lit "report 2024.pdf".
Proof.
  apply (@sanitize_safe_filename BasicLatin.tables
           ValidationFacts.BasicLatin_ascii BasicLatin_visible
           Posix (lit "report 2024.pdf")).
  - reflexivity.
  - vm_compute. lia.
Defined.

Section FileTypes.
Variable lower : str -> str.

(** [split] cuts at every separator: the last piece holds none, and it
    is the whole string or what follows its last separator. *)
Lemma split_last_piece (sep : char) (s : str) :
  exists pieces ext,
    split sep s = pieces ++ [ext]
    /\ ~ In sep ext
    /\ ((pieces = [] /\ s = ext)
        \/ (pieces <> [] /\ exists stem, s = stem ++ sep :: ext)).
Proof.
  induction s as [|c s (pieces & ext & Hs & Hext & Hcase)].
  - exists [], []. simpl. split; [reflexivity|]. split; [tauto|]. now left.
  - simpl. destruct (N.eqb_spec c sep) as [->|Hc].
    + exists ([] :: pieces), ext. rewrite Hs.
      split; [reflexivity|]. split; [exact Hext|]. right.
      split; [discriminate|].
      destruct Hcase as [[_ ->]|[_ [stem ->]]].
      * now exists [].
      * now exists (sep :: stem).
    + rewrite Hs. destruct Hcase as [[-> ->]|[Hne [stem ->]]].
      * exists [], (c :: ext). simpl.
        split; [reflexivity|]. split; [|now left].
        intros [H|H]; [congruence | contradiction].
      * destruct pieces as [|piece pieces]; [contradiction|].
        exists ((c :: piece) :: pieces), ext. simpl.
        split; [reflexivity|]. split; [exact Hext|]. right.
        split; [discriminate|]. now exists (c :: stem).
Qed.

(** [is_valid_file_type] never raises. It compares, in lower case, the
    allowed extensions with what follows the last dot of the name, or
    with the whole name when it holds no dot; an empty name is refused. *)
Theorem is_valid_file_type_spec (filename : str) (allowed_extensions : list str) :
  exists (ext : str) (b : bool),
    is_valid_file_type lower filename allowed_extensions = Ok b
    /\ ~ In 46%N ext
    /\ (lower filename = ext \/ exists stem, lower filename = stem ++ 46%N :: ext)
    /\ (b = true <->
        filename <> []
        /\ exists e, In e allowed_extensions /\ lower e = ext).
Proof.
  destruct (split_last_piece 46%N (lower filename))
    as (pieces & ext & Hs & Hext & Hcase).
  unfold is_valid_file_type. rewrite Hs.
  unfold last_item. rewrite last_snoc.
  exists ext.
  destruct (decide (filename = [])) as [->|Hne].
  - exists false. rewrite bool_decide_eq_true_2 by reflexivity.
    split; [reflexivity|]. split; [exact Hext|].
    split; [destruct Hcase as [[_ ?]|[_ ?]]; tauto|].
    split; [discriminate | intros [H _]; congruence].
  - exists (bool_decide (ext ∈ List.map lower allowed_extensions)).
    rewrite bool_decide_eq_false_2 by exact Hne.
    split; [reflexivity|]. split; [exact Hext|].
    split; [destruct Hcase as [[_ ?]|[_ ?]]; tauto|].
    rewrite bool_decide_eq_true, list_elem_of_In, in_map_iff.
    split.
    + intros (e & He & Hin). split; [exact Hne|]. now exists e.
    + intros [_ (e & Hin & He)]. now exists e.
Qed.

End FileTypes.

End FileFacts.

(** ** SecurityUtils: session tokens *)

Module TokenFacts.
Import Regex RegexFacts SecurityUtils SessionTokens.

Lemma hex_digit_hex (n : N) : (n < 16)%N -> hex_char (hex_digit n).
Proof. unfold hex_char, hex_digit. destruct (N.ltb_spec n 10); lia. Qed.

Lemma hex_chars (b : bytes) : Forall hex_char (hex b).
Proof.
  unfold hex. induction b as [|x b IH]; simpl; [constructor|].
  pose proof (Byte.to_N_bounded x) as Hx.
  assert (H1 : (Byte.to_N x / 16 < 16)%N)
    by (apply N.Div0.div_lt_upper_bound; lia).
  assert (H2 : (Byte.to_N x mod 16 < 16)%N) by (apply N.mod_lt; lia).
  apply hex_digit_hex in H1, H2.
  constructor; [exact H1|]. constructor; [exact H2 | exact IH].
Qed.

Lemma replace_app (old : char) (new s t : str) :
  Str.replace old new (s ++ t) = Str.replace old new s ++ Str.replace old new t.
Proof. unfold Str.replace. now rewrite map_app, concat_app. Qed.

Lemma replace_absent (old : char) (new s : str) :
  ~ In old s -> Str.replace old new s = s.
Proof.
  unfold Str.replace. induction s as [|c s IH]; intros Hs; simpl; [reflexivity|].
  rewrite IH by (intros H; apply Hs; now right).
  destruct (N.eqb_spec c old) as [->|_]; [|reflexivity].
  exfalso. apply Hs. now left.
Qed.

Lemma hex_char_no_hyphen (s : str) : Forall hex_char s -> ~ In 45%N s.
Proof.
  rewrite Stdlib.Lists.List.Forall_forall. intros Hs Hin.
  apply Hs in Hin. unfold hex_char in Hin. lia.
Qed.

(** Without its hyphens, the text of a UUID is its hexadecimal digits. *)
Lemma str_uuid_replace (u : bytes) : Str.replace 45%N [] (str_uuid u) = hex u.
Proof.
  pose proof (hex_chars u) as Hh. unfold str_uuid. cbv zeta.
  set (h := hex u) in *.
  assert (Ht : forall n, ~ In 45%N (take n h)).
  { intros n. apply hex_char_no_hyphen. now apply Forall_take. }
  assert (Hd : forall n m, ~ In 45%N (take m (drop n h))).
  { intros n m. apply hex_char_no_hyphen. now apply Forall_take, Forall_drop. }
  assert (Hd' : forall n, ~ In 45%N (drop n h)).
  { intros n. apply hex_char_no_hyphen. now apply Forall_drop. }
  rewrite !replace_app.
  rewrite (replace_absent _ _ (take 8 h)), !(replace_absent _ _ (take 4 _)),
    (replace_absent _ _ (drop 20 h)) by auto.
  change (Str.replace 45%N [] (lit "-")) with (@nil char). cbn [app].
  replace (drop 20 h) with (drop 4 (drop 16 h)) by (now rewrite drop_drop).
  rewrite (take_drop 4 (drop 16 h)).
  replace (drop 16 h) with (drop 4 (drop 12 h)) by (now rewrite drop_drop).
  rewrite (take_drop 4 (drop 12 h)).
  replace (drop 12 h) with (drop 4 (drop 8 h)) by (now rewrite drop_drop).
  rewrite (take_drop 4 (drop 8 h)).
  apply take_drop.
Qed.

Lemma hex_char_high (x : byte) : hex_char (hex_digit (Byte.to_N x / 16)).
Proof.
  pose proof (Byte.to_N_bounded x). apply hex_digit_hex.
  apply N.Div0.div_lt_upper_bound. lia.
Qed.

Lemma hex_char_low (x : byte) : hex_char (hex_digit (Byte.to_N x mod 16)).
Proof. apply hex_digit_hex, N.mod_lt. lia. Qed.

Lemma version_digit (x : byte) :
  hex_digit (Byte.to_N (with_bits 15 64 x) / 16) = 52%N.
Proof. destruct x; reflexivity. Qed.

Lemma UUID_returns (b u : bytes) :
  UUID b = Ok u ->
  length b = 16%nat
  /\ u = alter (with_bits 15 64) 6%nat (alter (with_bits 63 128) 8%nat b).
Proof.
  unfold UUID. destruct (Nat.eqb_spec (length b) 16) as [H|H]; simpl.
  - now intros [= <-].
  - discriminate.
Qed.

(** The text of a version 4 UUID. *)
Lemma str_uuid_shape (b u : bytes) :
  UUID b = Ok u ->
  exists a b' c d e : str,
    str_uuid u = a ++ lit "-" ++ b' ++ lit "-" ++ (52%N :: c) ++ lit "-" ++ d
                 ++ lit "-" ++ e
    /\ length a = 8%nat /\ length b' = 4%nat /\ length c = 3%nat
    /\ length d = 4%nat /\ length e = 12%nat
    /\ Forall hex_char (a ++ b' ++ c ++ d ++ e)
    /\ length (hex u) = 32%nat
    /\ hex u !! 12%nat = Some 52%N.
Proof.
  intros H. apply UUID_returns in H as [Hlen ->].
  do 17 (destruct b as [|? b]; try discriminate Hlen).
  unfold str_uuid. cbv zeta.
  cbn [alter list_alter hex List.map List.concat app take drop length].
  rewrite version_digit.
  eexists [_; _; _; _; _; _; _; _], [_; _; _; _], [_; _; _], [_; _; _; _],
    [_; _; _; _; _; _; _; _; _; _; _; _].
  split; [reflexivity|]. do 5 (split; [reflexivity|]).
  split; [|split; reflexivity].
  cbn [app].
  repeat (apply Stdlib.Lists.List.Forall_cons;
          [first [apply hex_char_high | apply hex_char_low]|]).
  apply Stdlib.Lists.List.Forall_nil.
Qed.

Section WithPlatform.
Variable world : Type.
Variable urandom : nat -> world -> bytes * world.

Local Abbreviation generate_session_token :=
  (generate_session_token world urandom).

Lemma generate_session_token_returns (w w' : world) (token : str) :
  generate_session_token w = (Ok token, w') ->
  exists u1 u2,
    UUID (fst (urandom 16 w)) = Ok u1
    /\ UUID (fst (urandom 16 (snd (urandom 16 w)))) = Ok u2
    /\ token = str_uuid u1 ++ hex u2.
Proof.
  unfold SessionTokens.generate_session_token, uuid4.
  destruct (urandom 16 w) as [b1 w1]. cbn [fst snd].
  destruct (UUID b1) as [u1|e1]; [|discriminate].
  destruct (urandom 16 w1) as [b2 w2]. cbn [fst snd].
  destruct (UUID b2) as [u2|e2]; [|discriminate].
  cbn. rewrite str_uuid_replace. intros [= <- _]. eauto.
Qed.

Lemma token_shape_returned (w w' : world) (token : str) :
  generate_session_token w = (Ok token, w') -> token_shape token.
Proof.
  intros H.
  apply generate_session_token_returns in H as (u1 & u2 & H1 & H2 & ->).
  apply str_uuid_shape in H1 as (a & b & c & d & e & -> & ? & ? & ? & ? & ? & Hh & _).
  apply str_uuid_shape in H2 as (_ & _ & _ & _ & _ & _ & _ & _ & _ & _ & _ & _ & Hl & Hv).
  exists a, b, c, d, e, (hex u2).
  split; [now rewrite <- !app_assoc|].
  do 6 (split; [assumption|]). split; [|exact Hv].
  rewrite !app_assoc. apply Forall_app. split; [|apply hex_chars].
  now rewrite <- !app_assoc.
Qed.

(** When the two draws of sixteen bytes give sixteen bytes each,
    [generate_session_token] returns a token of 68 characters: a
    version 4 UUID in lower-case hexadecimal with its four hyphens, then
    the 32 hexadecimal digits of a second one. *)
Theorem generate_session_token_spec (w : world) :
  length (fst (urandom 16 w)) = 16%nat ->
  length (fst (urandom 16 (snd (urandom 16 w)))) = 16%nat ->
  exists token w',
    generate_session_token w = (Ok token, w')
    /\ token_shape token
    /\ length token = 68%nat.
Proof.
  intros H1 H2.
  assert (Hret : exists token w', generate_session_token w = (Ok token, w')).
  { unfold SessionTokens.generate_session_token, uuid4, UUID.
    destruct (urandom 16 w) as [b1 w1]. cbn [fst snd] in *.
    rewrite H1. cbn [Nat.eqb negb].
    destruct (urandom 16 w1) as [b2 w2]. cbn [fst snd] in *.
    rewrite H2. cbn. eauto. }
  destruct Hret as (token & w' & Hret). exists token, w'.
  split; [exact Hret|].
  pose proof (token_shape_returned _ _ _ Hret) as Hshape.
  split; [exact Hshape|].
  destruct Hshape as (a & b & c & d & e & f & -> & Ha & Hb & Hc & Hd & He & Hf & _).
  rewrite !length_app, length_cons. cbn [lit length List.map list_ascii_of_string].
  unfold str, char in *. lia.
Qed.

Section Filenames.
Context {U : Unicode}.

(** A token that [generate_session_token] returns is a file name that
    [is_safe_filename] accepts. *)
Theorem session_token_is_safe_filename (w w' : world) (token : str) :
  generate_session_token w = (Ok token, w') ->
  is_safe_filename token = true.
Proof.
  intros H. apply token_shape_returned in H.
  destruct H as (a & b & c & d & e & f & Heq & Ha & _ & _ & _ & _ & _ & Hh & _).
  assert (Hchars : Forall (fun x => hex_char x \/ x = 45%N) token).
  { rewrite Heq.
    rewrite !Forall_app in Hh. destruct Hh as (Fa & Fb & Fc & Fd & Fe & Ff).
    assert (Hl : forall s, Forall hex_char s -> Forall (fun x => hex_char x \/ x = 45%N) s)
      by (intros s Hs; eapply Forall_impl; [exact Hs | auto]).
    assert (Hv : hex_char 52%N) by (unfold hex_char; lia).
    repeat first
      [ apply Hl; assumption
      | apply Forall_nil_2
      | apply Forall_cons_2; [first [now right | now left]|]
      | apply Forall_app_2 ]. }
  unfold is_safe_filename. cbv zeta.
  apply andb_true_iff. split; [|apply andb_true_iff; split].
  - unfold match_to_end. apply orb_true_iff. left.
    apply matches_plus_cls. split.
    + rewrite Heq. destruct a; [discriminate Ha | discriminate].
    + apply forallb_forall. rewrite Stdlib.Lists.List.Forall_forall in Hchars.
      intros x Hx. apply Hchars in Hx. unfold hex_char in Hx.
      unfold safe_char, alnum, range, one_of, chr. cbn.
      rewrite !orb_true_iff, !andb_true_iff, !N.leb_le, !N.eqb_eq. lia.
  - apply negb_true_iff, not_true_iff_false. rewrite startswith_spec.
    intros [r Hr]. rewrite Stdlib.Lists.List.Forall_forall in Hchars.
    assert (Hin : In 46%N token) by (rewrite Hr; now left).
    apply Hchars in Hin. unfold hex_char in Hin. lia.
  - apply negb_true_iff, not_true_iff_false. rewrite contains_spec.
    intros (x & y & Hr). rewrite Stdlib.Lists.List.Forall_forall in Hchars.
    assert (Hin : In 46%N token) by (rewrite Hr, in_app_iff; right; now left).
    apply Hchars in Hin. unfold hex_char in Hin. lia.
Qed.

End Filenames.

End WithPlatform.

Lemma generate_session_token_witness :
  exists token w',
    SessionTokens.generate_session_token nat Samples.counting_urandom 0%nat
    = (Ok token, w')
    /\ token_shape token
    /\ length token = 68%nat.
Proof.
  apply (generate_session_token_spec nat Samples.counting_urandom 0%nat);
    reflexivity.
Defined.

Lemma session_token_is_safe_filename_witness :
  is_safe_filename (U := BasicLatin.tables)
    (lit "2a2a2a2a-2a2a-4a2a-aa2a-2a2a2a2a2a2a2a2a2a2a2a2a4a2aaa2a2a2a2a2a2a2a")
  = true.
Proof.
  apply (@session_token_is_safe_filename nat Samples.counting_urandom
           BasicLatin.tables 0%nat 2%nat).
  reflexivity.
Defined.

End TokenFacts.

(** ** Rounding *)

Module RoundingFacts.
Import Rounding.
Local Open Scope Q_scope.

Lemma round_half_even_whole (q : Q) (z : Z) :
  q == inject_Z z -> round_half_even q = z.
Proof.
  intros H. unfold round_half_even. cbv zeta.
  rewrite (Qfloor_comp _ _ H), Qfloor_Z.
  assert (H0 : q - inject_Z z == 0) by (rewrite H; ring).
  destruct (Qcompare_spec (q - inject_Z z) (1 # 2)) as [E|E|E].
  - rewrite H0 in E. discriminate E.
  - reflexivity.
  - rewrite H0 in E. discriminate E.
Qed.

Lemma round_half_even_comp (q q' : Q) :
  q == q' -> round_half_even q = round_half_even q'.
Proof.
  intros H. unfold round_half_even. cbv zeta.
  rewrite (Qfloor_comp _ _ H).
  assert (E : q - inject_Z (Qfloor q') == q' - inject_Z (Qfloor q'))
    by (rewrite H; reflexivity).
  now rewrite (Qcompare_comp _ _ E _ _ (Qeq_refl (1 # 2))).
Qed.

End RoundingFacts.

(** ** CurrencyUtils *)

Module CurrencyFacts.
Import Regex RegexFacts Rounding CurrencyUtils RoundingFacts.

Lemma replace_delete (old : char) (s : str) :
  Str.replace old [] s = List.filter (fun c => negb (N.eqb c old)) s.
Proof.
  unfold Str.replace. induction s as [|c s IH]; simpl; [reflexivity|].
  rewrite IH. now destruct (N.eqb c old).
Qed.

Lemma filter_all (p : char -> bool) (s : str) :
  Forall (fun c => p c = true) s -> List.filter p s = s.
Proof. induction 1 as [|c s Hc _ IH]; simpl; [reflexivity|]. now rewrite Hc, IH. Qed.

Lemma filter_none (p : char -> bool) (s : str) :
  Forall (fun c => p c = false) s -> List.filter p s = [].
Proof. induction 1 as [|c s Hc _ IH]; simpl; [reflexivity|]. now rewrite Hc. Qed.

(** The commas are all that grouping adds. *)
Lemma group_reversed_delete (s : str) :
  List.filter (fun c => negb (N.eqb c 44)) (group_reversed s)
  = List.filter (fun c => negb (N.eqb c 44)) s.
Proof.
  induction s as [s IH] using (induction_ltof1 _ (@length char)).
  destruct s as [|a [|b [|c [|d rest]]]]; try reflexivity.
  change (group_reversed (a :: b :: c :: d :: rest))
    with (a :: b :: c :: 44%N :: group_reversed (d :: rest)).
  cbn [List.filter]. change (negb (44 =? 44)%N) with false. cbv iota.
  rewrite IH by (unfold ltof; simpl; lia). reflexivity.
Qed.

Lemma group_reversed_chars (P : char -> Prop) (s : str) :
  P 44%N -> Forall P s -> Forall P (group_reversed s).
Proof.
  intros Hc.
  induction s as [s IH] using (induction_ltof1 _ (@length char)).
  destruct s as [|a [|b [|c [|d rest]]]]; try (intros H; exact H).
  change (group_reversed (a :: b :: c :: d :: rest))
    with (a :: b :: c :: 44%N :: group_reversed (d :: rest)).
  intros H. inv H. inv H3. inv H4.
  repeat (apply Forall_cons_2; [assumption|]).
  apply IH; [unfold ltof; simpl; lia | assumption].
Qed.

Lemma group_delete (s : str) :
  Forall (fun c => c <> 44%N) s -> Str.replace 44%N [] (group s) = s.
Proof.
  intros Hs. rewrite replace_delete. unfold group.
  rewrite filter_rev, group_reversed_delete, filter_rev, rev_involutive.
  apply filter_all. eapply Forall_impl; [exact Hs|].
  intros c Hc. now apply negb_true_iff, N.eqb_neq.
Qed.

Lemma group_chars (P : char -> Prop) (s : str) :
  P 44%N -> Forall P s -> Forall P (group s).
Proof.
  intros Hc Hs. unfold group. apply Forall_rev, group_reversed_chars; [exact Hc|].
  now apply Forall_rev.
Qed.

Lemma decimal_digits (n : N) : Forall (fun c => (48 <= c <= 57)%N) (decimal n).
Proof.
  unfold decimal. induction (N.to_uint n); cbn [Json.uint_chars];
    constructor; (lia || assumption).
Qed.

(** An amount in francs: its sign, then the digits of the nearest whole
    number in groups. *)
Lemma format_f_whole (x : Q) :
  format_f 0 x
  = (if Qle_bool 0 x then [] else lit "-")
    ++ group (decimal (Z.to_N (round_half_even (Qabs x)))).
Proof.
  unfold format_f. cbv zeta. cbn [Nat.eqb Z.of_nat Z.pow].
  change (10 ^ 0)%Z with 1%Z.
  rewrite (round_half_even_comp _ (Qabs x)) by apply Qmult_1_r.
  now rewrite Z.div_1_r, app_nil_r.
Qed.

Section WithRuntime.
Context {U : Unicode} `{!UnicodeAscii U} `{!UnicodeVisible U}.
Variable float_of_str : str -> option pyfloat.

Lemma kept_digit (c : char) : (48 <= c <= 57)%N -> kept c = true.
Proof. intros Hc. unfold kept. now rewrite re_digit_ascii. Qed.

Lemma kept_not (c : char) :
  (c < 128)%N -> ~ (48 <= c <= 57)%N -> c <> 46%N -> c <> 44%N -> kept c = false.
Proof.
  intros Hc Hd H1 H2. unfold kept.
  destruct (re_digit c) eqn:E.
  - exfalso. apply Hd. now apply re_digit_only.
  - apply N.eqb_neq in H1, H2. now rewrite H1, H2.
Qed.

(** A formatted amount in francs is read back as the nearest whole
    number to the amount without its sign, when [float] reads the
    digits of that number as the number; for a whole amount this is its
    absolute value. *)
Theorem parse_format_currency (amount : Q) :
  float_of_str (decimal (Z.to_N (round_half_even (Qabs amount))))
  = Some (Finite (inject_Z (round_half_even (Qabs amount)))) ->
  parse_currency float_of_str (PStr (format_currency amount (lit "XAF")))
  = Ok (Some (Finite (inject_Z (round_half_even (Qabs amount)))))
  /\ (forall z : Z, amount == inject_Z z ->
      round_half_even (Qabs amount) = Z.abs z).
Proof.
  intros Hfloat. split.
  - unfold parse_currency, format_currency.
    rewrite bool_decide_eq_true_2 by reflexivity.
    cbn [subject mbind result_bind Py.bind]. cbv zeta.
    change (sub_class symbol [] ?s)
      with (sub_class (fun c => negb (kept c)) [] s).
    rewrite sub_class_delete, format_f_whole.
    set (ds := decimal (Z.to_N (round_half_even (Qabs amount)))) in *.
    assert (Hds : Forall (fun c => (48 <= c <= 57)%N) ds) by apply decimal_digits.
    rewrite !List.filter_app.
    assert (Hsign : List.filter kept (if Qle_bool 0 amount then [] else lit "-") = []).
    { destruct (Qle_bool 0 amount); [reflexivity|].
      change (lit "-") with [45%N].
      apply filter_none. apply Forall_cons_2; [apply kept_not; lia | constructor]. }
    assert (Hunit : List.filter kept (lit " FCFA") = []).
    { change (lit " FCFA") with [32%N; 70%N; 67%N; 70%N; 65%N].
      apply filter_none.
      repeat (apply Forall_cons_2; [apply kept_not; lia|]). constructor. }
    assert (Hgroup : List.filter kept (group ds) = group ds).
    { apply filter_all, (group_chars (fun c => kept c = true)).
      - unfold kept. now rewrite orb_true_r.
      - eapply Forall_impl; [exact Hds|]. apply kept_digit. }
    rewrite Hsign, Hunit, Hgroup, app_nil_r. cbn [app].
    rewrite group_delete.
    + now rewrite Hfloat.
    + eapply Forall_impl; [exact Hds|]. intros c Hc. cbv beta in Hc. lia.
  - intros z Hz. apply round_half_even_whole.
    rewrite Hz. unfold Qabs, inject_Z. reflexivity.
Qed.

End WithRuntime.

Lemma parse_format_currency_witness :
  parse_currency (U := BasicLatin.tables) Samples.whole_float
    (PStr (format_currency (-1234567) (lit "XAF")))
  = Ok (Some (Finite 1234567)).
Proof.
  apply (@parse_format_currency BasicLatin.tables ValidationFacts.BasicLatin_ascii
           FileFacts.BasicLatin_visible Samples.whole_float (-1234567)).
  reflexivity.
Defined.

End CurrencyFacts.

(** ** ValidationUtils: what is accepted *)

Module AcceptanceFacts.
Import Regex RegexFacts ValidationUtils.

Lemma lang_cat_inv (r1 r2 : re) (s : str) :
  lang (Cat r1 r2) s <-> exists s1 s2, s = s1 ++ s2 /\ lang r1 s1 /\ lang r2 s2.
Proof.
  split.
  - intros H. inv H. eauto.
  - intros (s1 & s2 & -> & H1 & H2). now constructor.
Qed.

Lemma lang_cls_inv (p : char -> bool) (s : str) :
  lang (Cls p) s <-> exists c, s = [c] /\ p c = true.
Proof.
  split.
  - intros H. inv H. eauto.
  - intros (c & -> & H). now constructor.
Qed.

Lemma lang_plus_cls (p : char -> bool) (s : str) :
  lang (Plus (Cls p)) s <-> s <> [] /\ Forall (fun c => p c = true) s.
Proof.
  rewrite <- matches_lang, matches_plus_cls, forallb_forall,
    Stdlib.Lists.List.Forall_forall. reflexivity.
Qed.

Lemma lang_at_least2_cls (p : char -> bool) (s : str) :
  lang (AtLeast2 (Cls p)) s
  <-> (2 <= length s)%nat /\ Forall (fun c => p c = true) s.
Proof.
  unfold AtLeast2. fold (Plus (Cls p)).
  rewrite lang_cat_inv. setoid_rewrite lang_cls_inv. setoid_rewrite lang_plus_cls.
  split.
  - intros (s1 & s2 & -> & (c & -> & Hc) & Hne & Hall).
    split; [destruct s2; [congruence | simpl; lia]|]. now constructor.
  - intros [Hlen Hall]. destruct s as [|c [|d s]]; try (simpl in Hlen; lia).
    inv Hall. exists [c], (d :: s). split; [reflexivity|].
    split; [eauto|]. split; [discriminate | assumption].
Qed.

Lemma one_of_spec (chars : string) (c : char) :
  one_of chars c = true <-> In c (lit chars).
Proof.
  unfold one_of. rewrite existsb_exists. split.
  - intros (x & Hx & E). apply N.eqb_eq in E. now subst.
  - intros H. exists c. split; [exact H | apply N.eqb_refl].
Qed.

Lemma range_spec (a b : ascii) (c : char) :
  range a b c = true <-> (chr a <= c <= chr b)%N.
Proof. unfold range. now rewrite andb_true_iff, !N.leb_le. Qed.

Lemma letter_spec (c : char) :
  range "a" "z" c || range "A" "Z" c = true <-> EmailShape.letter c.
Proof. rewrite orb_true_iff, !range_spec. reflexivity. Qed.

Lemma alnum_spec (c : char) : alnum c = true <-> EmailShape.letter_or_digit c.
Proof.
  unfold alnum. rewrite orb_true_iff, letter_spec, range_spec. reflexivity.
Qed.

(** The words of the pattern. *)
Lemma email_pattern_lang (s : str) :
  lang email_pattern s <-> EmailShape.address s.
Proof.
  unfold email_pattern, EmailShape.address. split.
  - intros H.
    apply lang_cat_inv in H as (loc & r1 & -> & Hloc & H).
    apply lang_cat_inv in H as (a & r2 & -> & Ha & H).
    apply lang_cat_inv in H as (dom & r3 & -> & Hdom & H).
    apply lang_cat_inv in H as (d & tld & -> & Hd & Htld).
    apply lang_plus_cls in Hloc as [Hl1 Hl2].
    apply lang_plus_cls in Hdom as [Hd1 Hd2].
    apply lang_at_least2_cls in Htld as [Ht1 Ht2].
    apply lang_cls_inv in Ha as (x & -> & Hx).
    apply lang_cls_inv in Hd as (y & -> & Hy).
    apply one_of_spec in Hx as [<-|[]]. apply one_of_spec in Hy as [<-|[]].
    exists loc, dom, tld. split; [reflexivity|].
    split; [exact Hl1|]. split.
    { eapply Forall_impl; [exact Hl2|]. intros c Hc. cbv beta in Hc.
      apply orb_true_iff in Hc as [Hc|Hc];
        [left; now apply alnum_spec | right; now apply one_of_spec]. }
    split; [exact Hd1|]. split.
    { eapply Forall_impl; [exact Hd2|]. intros c Hc. cbv beta in Hc.
      apply orb_true_iff in Hc as [Hc|Hc];
        [left; now apply alnum_spec | right; now apply one_of_spec]. }
    split; [exact Ht1|].
    eapply Forall_impl; [exact Ht2|]. intros c Hc. now apply letter_spec.
  - intros (loc & dom & tld & -> & Hl1 & Hl2 & Hd1 & Hd2 & Ht1 & Ht2).
    apply lang_cat; [|apply lang_cat; [|apply lang_cat; [|apply lang_cat]]].
    + apply lang_plus_cls. split; [exact Hl1|].
      eapply Forall_impl; [exact Hl2|]. intros c [Hc|Hc]; apply orb_true_iff;
        [left; now apply alnum_spec | right; now apply one_of_spec].
    + now constructor.
    + apply lang_plus_cls. split; [exact Hd1|].
      eapply Forall_impl; [exact Hd2|]. intros c [Hc|Hc]; apply orb_true_iff;
        [left; now apply alnum_spec | right; now apply one_of_spec].
    + now constructor.
    + apply lang_at_least2_cls. split; [exact Ht1|].
      eapply Forall_impl; [exact Ht2|]. intros c Hc. now apply letter_spec.
Qed.

Lemma validate_email_address (s : str) :
  validate_email (PStr s) = Ok true
  <-> EmailShape.address s
      \/ exists s', s = s' ++ [10%N] /\ EmailShape.address s'.
Proof.
  unfold validate_email. cbn [subject mbind result_bind Py.bind].
  unfold match_to_end. split.
  - intros [= H]. apply orb_true_iff in H as [H|H].
    + left. now apply email_pattern_lang, matches_lang.
    + destruct (chop_newline s) as [s'|] eqn:E; [|discriminate].
      apply chop_newline_spec in E. right. exists s'.
      split; [exact E | now apply email_pattern_lang, matches_lang].
  - intros [H|(s' & -> & H)]; f_equal; apply orb_true_iff.
    + left. now apply matches_lang, email_pattern_lang.
    + right. pose proof (proj2 (chop_newline_spec _ s') eq_refl) as E.
      unfold str, char in *. rewrite E.
      now apply matches_lang, email_pattern_lang.
Qed.

(** [validate_email] accepts a string exactly when it is a local part
    of letters, digits and the characters . _ % + -, an at sign, a
    domain of letters, digits, dots and hyphens, a dot and two letters
    or more; or such an address followed by one newline. *)
Theorem validate_email_accepts (s : str) :
  validate_email (PStr s) = Ok true
  <-> EmailShape.address s
      \/ exists s', s = s' ++ [10%N] /\ EmailShape.address s'.
Proof. apply validate_email_address. Qed.

Lemma count_at_none (P : char -> Prop) (s : str) :
  Forall P s -> ~ P 64%N -> List.filter (N.eqb 64) s = [].
Proof.
  intros Hs Hp. induction Hs as [|c s Hc _ IH]; cbn [List.filter]; [reflexivity|].
  destruct (N.eqb_spec 64 c) as [<-|_]; [contradiction | exact IH].
Qed.

(** An address that [validate_email] accepts holds one at sign, no
    more. *)
Theorem validate_email_one_at (s : str) :
  validate_email (PStr s) = Ok true ->
  length (List.filter (N.eqb 64) s) = 1%nat.
Proof.
  intros H. apply validate_email_address in H.
  assert (Haddr : forall t, EmailShape.address t ->
            length (List.filter (N.eqb 64) t) = 1%nat).
  { intros t (loc & dom & tld & -> & _ & Hl & _ & Hd & _ & Ht).
    rewrite !List.filter_app.
    pose proof (count_at_none _ _ Hl) as El.
    pose proof (count_at_none _ _ Hd) as Ed.
    pose proof (count_at_none _ _ Ht) as Et.
    unfold str, char in *.
    rewrite El, Ed, Et; [reflexivity | | |];
      unfold EmailShape.letter_or_digit, EmailShape.letter; cbn;
      intuition (lia || discriminate). }
  destruct H as [H|(s' & -> & H)]; [now apply Haddr|].
  rewrite List.filter_app, length_app, (Haddr _ H). reflexivity.
Qed.

Lemma sub_class_filter (p : char -> bool) (s : str) :
  sub_class p [] s = List.filter (fun c => negb (p c)) s.
Proof.
  unfold sub_class. induction s as [|c s IH]; simpl; [reflexivity|].
  rewrite IH. now destruct (p c).
Qed.

Lemma validate_email_one_at_witness :
  length (List.filter (N.eqb 64) (lit "sales@depot.cm")) = 1%nat.
Proof.
  apply (validate_email_one_at (lit "sales@depot.cm")). reflexivity.
Defined.

Section Prices.
Context {U : Unicode}.
Variable float_of_str : str -> option pyfloat.

(** [validate_price] returns a number exactly when its argument is a
    string in which [float] reads that number once the commas and the
    white space are taken out, and the number is not negative; it never
    returns a negative number or a NaN. *)
Theorem validate_price_accepts (price_str : pyval) (x : pyfloat) :
  validate_price float_of_str price_str = Ok (Some x)
  <-> exists s,
        price_str = PStr s
        /\ float_of_str
             (List.filter (fun c => negb (N.eqb c 44 || re_space c)) s) = Some x
        /\ float_ge0 x = true.
Proof.
  unfold validate_price. split.
  - destruct price_str as [| | |s| | | |]; cbn; try discriminate.
    rewrite sub_class_filter.
    destruct (float_of_str _) as [y|] eqn:E; cbn; [|discriminate].
    destruct (float_ge0 y) eqn:Ey; [|discriminate].
    intros [= <-]. eauto.
  - intros (s & -> & E & Hx). cbn. rewrite sub_class_filter.
    unfold str, char in *. rewrite E. cbn.
    now rewrite Hx.
Qed.

End Prices.

End AcceptanceFacts.

(** ** DataExportUtils: the files *)

Module ExportFileFacts.
Import Json DataExportUtils ExportEffects ExportFacts.

Lemma writes_only_ret {A : Type} (filename : str) (a : A) :
  writes_only filename (mret a : io A).
Proof. intros fs other _. reflexivity. Qed.

Lemma writes_only_lift {A : Type} (filename : str) (r : result A) :
  writes_only filename (lift r).
Proof. intros fs other _. reflexivity. Qed.

Lemma writes_only_bind {A B : Type} (filename : str) (m : io A) (k : A -> io B) :
  writes_only filename m ->
  (forall a, writes_only filename (k a)) ->
  writes_only filename (a ← m; k a).
Proof.
  intros Hm Hk fs other Ho. unfold mbind, io_bind.
  specialize (Hm fs other Ho).
  destruct (m fs) as [[a|e] fs1]; cbn [snd] in *; [|exact Hm].
  now rewrite (Hk a fs1 other Ho).
Qed.

Lemma writes_only_for_each {A : Type} (filename : str) (body : A -> io unit)
    (l : list A) :
  (forall a, writes_only filename (body a)) ->
  writes_only filename (io_for_each body l).
Proof.
  intros Hb. induction l as [|a l IH]; cbn [io_for_each].
  - apply writes_only_ret.
  - apply writes_only_bind; [apply Hb | intros _; exact IH].
Qed.

Lemma writes_only_try {A : Type} (filename : str) (body handler : io A)
    (catches : exn -> bool) :
  writes_only filename body ->
  writes_only filename handler ->
  writes_only filename (io_try body catches handler).
Proof.
  intros Hb Hh fs other Ho. unfold io_try.
  specialize (Hb fs other Ho).
  destruct (body fs) as [[a|e] fs1]; cbn [snd] in *; [exact Hb|].
  destruct (catches e); [|exact Hb].
  now rewrite (Hh fs1 other Ho).
Qed.

Lemma reads_only_ret {A : Type} (filename : str) (a : A) :
  reads_only filename (mret a : io A).
Proof. intros fs1 fs2 H. now split. Qed.

Lemma reads_only_lift {A : Type} (filename : str) (r : result A) :
  reads_only filename (lift r).
Proof. intros fs1 fs2 H. now split. Qed.

Lemma reads_only_bind {A B : Type} (filename : str) (m : io A) (k : A -> io B) :
  reads_only filename m ->
  (forall a, reads_only filename (k a)) ->
  reads_only filename (a ← m; k a).
Proof.
  intros Hm Hk fs1 fs2 H. unfold mbind, io_bind.
  destruct (Hm fs1 fs2 H) as [Hr Hf].
  destruct (m fs1) as [[a1|e1] fs1'], (m fs2) as [[a2|e2] fs2'];
    cbn [fst snd] in *; try discriminate.
  - injection Hr as <-. exact (Hk _ _ _ Hf).
  - injection Hr as <-. now split.
Qed.

Lemma reads_only_for_each {A : Type} (filename : str) (body : A -> io unit)
    (l : list A) :
  (forall a, reads_only filename (body a)) ->
  reads_only filename (io_for_each body l).
Proof.
  intros Hb. induction l as [|a l IH]; cbn [io_for_each].
  - apply reads_only_ret.
  - apply reads_only_bind; [apply Hb | intros _; exact IH].
Qed.

Lemma reads_only_try {A : Type} (filename : str) (body handler : io A)
    (catches : exn -> bool) :
  reads_only filename body ->
  reads_only filename handler ->
  reads_only filename (io_try body catches handler).
Proof.
  intros Hb Hh fs1 fs2 H. unfold io_try.
  destruct (Hb fs1 fs2 H) as [Hr Hf].
  destruct (body fs1) as [[a1|e1] fs1'], (body fs2) as [[a2|e2] fs2'];
    cbn [fst snd] in *; try discriminate.
  - now split.
  - injection Hr as <-. destruct (catches e1); [exact (Hh _ _ Hf) | now split].
Qed.

Section WithPlatform.
Variable unwritable : str -> bool.
Variable interrupted : pyval -> str.
Variable csv_row : list pyval -> str.

Local Abbreviation export_to_csv := (export_to_csv unwritable csv_row).
Local Abbreviation export_to_json := (export_to_json unwritable interrupted).

Lemma writes_only_open_w (filename : str) :
  writes_only filename (open_w unwritable filename).
Proof.
  intros fs other Ho. unfold open_w.
  destruct (existsb (N.eqb 0) filename); [reflexivity|].
  destruct (unwritable filename); [reflexivity|].
  cbn [snd]. now rewrite lookup_insert_ne.
Qed.

Lemma writes_only_write (filename text : str) :
  writes_only filename (write filename text).
Proof.
  intros fs other Ho. unfold write.
  destruct (forallb encodable text); [|reflexivity].
  cbn [snd]. now rewrite lookup_alter_ne.
Qed.

Lemma writes_only_json_dump (data : pyval) (filename : str) :
  writes_only filename (json_dump interrupted data filename).
Proof.
  intros fs other Ho. unfold json_dump.
  destruct (encode 0 data) as [text|e].
  - destruct (forallb encodable text) eqn:E.
    + now apply writes_only_write.
    + cbn [snd]. now rewrite lookup_insert_ne.
  - cbn [snd]. now rewrite lookup_insert_ne.
Qed.

Lemma reads_only_write (filename text : str) :
  reads_only filename (write filename text).
Proof.
  intros fs1 fs2 H. unfold write.
  destruct (forallb encodable text); cbn [fst snd]; [|now split].
  split; [reflexivity|]. now rewrite !lookup_alter_eq, H.
Qed.

Lemma reads_only_json_dump (data : pyval) (filename : str) :
  reads_only filename (json_dump interrupted data filename).
Proof.
  intros fs1 fs2 H. unfold json_dump.
  destruct (encode 0 data) as [text|e].
  - destruct (forallb encodable text) eqn:E.
    + now apply reads_only_write.
    + cbn [fst snd]. split; [reflexivity|]. now rewrite !lookup_insert_eq.
  - cbn [fst snd]. split; [reflexivity|]. now rewrite !lookup_insert_eq.
Qed.

Lemma export_to_csv_steps (data : pyval) (filename : str) :
  DataExportUtils.export_to_csv unwritable csv_row data filename
  = io_try
      (if negb (truthy data) then mret false
       else _ ← open_w unwritable filename; csv_body csv_row data filename)
      is_Exception (mret false).
Proof. reflexivity. Qed.

Lemma writes_only_csv_body (data : pyval) (filename : str) :
  writes_only filename (csv_body csv_row data filename).
Proof.
  unfold csv_body.
  apply writes_only_bind; [apply writes_only_lift | intros first].
  apply writes_only_bind; [apply writes_only_lift | intros fieldnames].
  apply writes_only_bind; [apply writes_only_write | intros _].
  apply writes_only_bind; [apply writes_only_lift | intros rows].
  apply writes_only_bind; [|intros _; apply writes_only_ret].
  apply writes_only_for_each. intros row.
  apply writes_only_bind; [apply writes_only_lift | intros cells].
  apply writes_only_write.
Qed.

Lemma reads_only_csv_body (data : pyval) (filename : str) :
  reads_only filename (csv_body csv_row data filename).
Proof.
  unfold csv_body.
  apply reads_only_bind; [apply reads_only_lift | intros first].
  apply reads_only_bind; [apply reads_only_lift | intros fieldnames].
  apply reads_only_bind; [apply reads_only_write | intros _].
  apply reads_only_bind; [apply reads_only_lift | intros rows].
  apply reads_only_bind; [|intros _; apply reads_only_ret].
  apply reads_only_for_each. intros row.
  apply reads_only_bind; [apply reads_only_lift | intros cells].
  apply reads_only_write.
Qed.

(** An export changes no file but the one it is asked to write,
    whether it succeeds or fails. *)
Theorem export_writes_only (data : pyval) (filename other : str)
    (fs : filesystem) :
  other <> filename ->
  (export_to_csv data filename fs).2 !! other = fs !! other
  /\ (export_to_json data filename fs).2 !! other = fs !! other.
Proof.
  intros Ho. split.
  - revert fs other Ho. change (writes_only filename (export_to_csv data filename)).
    rewrite export_to_csv_steps.
    apply writes_only_try; [|apply writes_only_ret].
    destruct (negb (truthy data)); [apply writes_only_ret|].
    apply writes_only_bind; [apply writes_only_open_w | intros _].
    apply writes_only_csv_body.
  - revert fs other Ho. change (writes_only filename (export_to_json data filename)).
    apply writes_only_try; [|apply writes_only_ret].
    apply writes_only_bind; [apply writes_only_open_w | intros _].
    apply writes_only_bind; [apply writes_only_json_dump | intros _].
    apply writes_only_ret.
Qed.

(** An export whose path cannot be opened returns false and leaves every
    file as it was; so does [export_to_csv] on data that is empty or
    otherwise false, whatever the path. *)
Theorem export_not_written (data : pyval) (filename : str) (fs : filesystem) :
  (existsb (N.eqb 0) filename = true \/ unwritable filename = true ->
   export_to_csv data filename fs = (Ok false, fs)
   /\ export_to_json data filename fs = (Ok false, fs))
  /\ (truthy data = false -> export_to_csv data filename fs = (Ok false, fs)).
Proof.
  split.
  - intros H.
    assert (Ho : exists e, open_w unwritable filename fs = (Raise e, fs)
                           /\ is_Exception e = true).
    { unfold open_w. destruct (existsb (N.eqb 0) filename); [now eexists|].
      destruct H as [H|H]; [discriminate|]. rewrite H. now eexists. }
    destruct Ho as (e & Ho & He). split.
    + rewrite export_to_csv_steps. unfold io_try.
      destruct (negb (truthy data)); [reflexivity|].
      unfold mbind, io_bind. now rewrite Ho, He.
    + unfold DataExportUtils.export_to_json, io_try, mbind, io_bind.
      now rewrite Ho, He.
  - intros H. rewrite export_to_csv_steps. unfold io_try. now rewrite H.
Qed.

Lemma opened (filename : str) (fs : filesystem) :
  existsb (N.eqb 0) filename = false ->
  unwritable filename = false ->
  open_w unwritable filename fs = (Ok tt, <[filename := []]> fs).
Proof. intros H1 H2. unfold open_w. now rewrite H1, H2. Qed.

Lemma try_opened {A : Type} (rest handler : io A) (catches : exn -> bool)
    (filename : str) (fs : filesystem) :
  existsb (N.eqb 0) filename = false ->
  unwritable filename = false ->
  io_try (_ ← open_w unwritable filename; rest) catches handler fs
  = io_try rest catches handler (<[filename := []]> fs).
Proof.
  intros H1 H2. unfold io_try, mbind, io_bind. now rewrite opened.
Qed.

(** Once the path opens, what an export returns and what it leaves in
    the file do not depend on what the file or any other file held
    before: the former content is lost, also when the export fails.
    For [export_to_csv] this is so on data that is a list, a tuple, a
    dict, a string, an integer or a boolean and is not false; the
    truth value of an object of another class is not known here, and
    such data is left out. *)
Theorem export_overwrites (data : pyval) (filename : str)
    (fs1 fs2 : filesystem) :
  existsb (N.eqb 0) filename = false ->
  unwritable filename = false ->
  ((export_to_json data filename fs1).1 = (export_to_json data filename fs2).1
   /\ (export_to_json data filename fs1).2 !! filename
      = (export_to_json data filename fs2).2 !! filename)
  /\ ((forall rendering, data <> PObj rendering) ->
      truthy data = true ->
      (export_to_csv data filename fs1).1 = (export_to_csv data filename fs2).1
      /\ (export_to_csv data filename fs1).2 !! filename
         = (export_to_csv data filename fs2).2 !! filename).
Proof.
  intros H1 H2.
  assert (Hfile : (<[filename := []]> fs1 : filesystem) !! filename
                  = (<[filename := []]> fs2 : filesystem) !! filename)
    by now rewrite !lookup_insert_eq.
  split.
  - unfold DataExportUtils.export_to_json. rewrite !try_opened by assumption.
    apply reads_only_try; [|apply reads_only_ret | exact Hfile].
    apply reads_only_bind; [apply reads_only_json_dump | intros _].
    apply reads_only_ret.
  - intros _ Ht. rewrite export_to_csv_steps, Ht. cbn [negb].
    rewrite !try_opened by assumption.
    apply reads_only_try; [|apply reads_only_ret | exact Hfile].
    apply reads_only_csv_body.
Qed.

Lemma io_try_true (body : io bool) (catches : exn -> bool)
    (fs fs' : filesystem) :
  io_try body catches (mret false) fs = (Ok true, fs') ->
  body fs = (Ok true, fs').
Proof.
  unfold io_try. destruct (body fs) as [[b|e] fs0]; [trivial|].
  destruct (catches e); discriminate.
Qed.

(** The rows that the loop of [export_to_csv] has written when it ends
    without an exception. *)
Lemma for_each_rows (fieldnames : list pykey) (filename : str)
    (rows : list pyval) (fs0 fs1 : filesystem) :
  io_for_each
    (fun row =>
       cells ← lift (dict_to_list fieldnames row);
       write filename (csv_row cells))
    rows fs0 = (Ok tt, fs1) ->
  exists cells : list (list pyval),
    Forall2 (fun row c => dict_to_list fieldnames row = Ok c) rows cells
    /\ fs1 = alter (fun old => old ++ List.concat (List.map csv_row cells))
               filename fs0.
Proof.
  revert fs0. induction rows as [|row rows IH]; intros fs0; cbn [io_for_each].
  - intros [= <-]. exists []. split; [constructor|].
    symmetry. apply alter_id. intros x _. apply app_nil_r.
  - unfold mbind at 1, io_bind at 1. unfold mbind at 1, io_bind at 1, lift.
    destruct (dict_to_list fieldnames row) as [c|e] eqn:Ec; [|discriminate].
    unfold write at 1.
    destruct (forallb encodable (csv_row c)); [|discriminate].
    intros H. apply IH in H as (cells & Hcells & ->).
    exists (c :: cells). split; [now constructor|].
    rewrite alter_alter_eq. apply alter_ext. intros x _.
    cbn. now rewrite app_assoc.
Qed.

Lemma dict_to_list_returns (fieldnames : list pykey) (row : pyval)
    (c : list pyval) :
  dict_to_list fieldnames row = Ok c ->
  csv_cells fieldnames row c.
Proof.
  unfold dict_to_list, csv_cells. destruct row as [| | | | | |items|]; cbn;
    try discriminate.
  destruct (List.filter _ _) eqn:E; [|discriminate].
  intros [= <-]. exists items. split; [reflexivity|]. split; [|reflexivity].
  apply Stdlib.Lists.List.Forall_forall. intros k Hk.
  destruct (existsb (key_eqb k) fieldnames) eqn:Ek; [reflexivity|].
  assert (Hin : In k (List.filter
                        (fun k => negb (existsb (key_eqb k) fieldnames))
                        (List.map fst items)))
    by (apply filter_In; split; [exact Hk | now rewrite Ek]).
  rewrite E in Hin. contradiction.
Qed.

(** When [export_to_csv] returns true on a list or a tuple none of
    whose elements is an object of another class, every element is a
    dict, and the file holds the header row of the keys of the first
    dict and then one row for each dict, in order; each row has one
    cell for each key of the first dict, empty where the dict lacks the
    key, and no dict has a key that the first dict lacks. *)
Theorem export_to_csv_content (rows : list pyval) (data : pyval)
    (filename : str) (fs fs' : filesystem) :
  data = PList rows \/ data = PTuple rows ->
  Forall (fun row => forall rendering, row <> PObj rendering) rows ->
  export_to_csv data filename fs = (Ok true, fs') ->
  exists (first : list (pykey * pyval)) (rest : list pyval)
         (cells : list (list pyval)),
    rows = PDict first :: rest
    /\ Forall2 (csv_cells (List.map fst first)) rows cells
    /\ Forall (fun c => length c = length first) cells
    /\ fs' = <[filename := csv_row (List.map val_of_key (List.map fst first))
                           ++ List.concat (List.map csv_row cells)]> fs.
Proof.
  intros Hdata _ H. rewrite export_to_csv_steps in H. apply io_try_true in H.
  destruct (truthy data) eqn:Ht; cbn [negb] in H; [|discriminate].
  unfold mbind at 1, io_bind at 1, open_w in H.
  destruct (existsb (N.eqb 0) filename); [discriminate|].
  destruct (unwritable filename); [discriminate|].
  unfold csv_body, lift in H.
  unfold mbind at 1, io_bind at 1 in H.
  destruct (first_item data) as [first|e] eqn:Ef; [|discriminate].
  unfold mbind at 1, io_bind at 1 in H.
  destruct (keys first) as [fieldnames|e] eqn:Ek; [|discriminate].
  destruct first as [| | | | | |items|]; try discriminate Ek.
  injection Ek as <-.
  unfold mbind at 1, io_bind at 1, write at 1 in H.
  destruct (forallb encodable _); [|discriminate].
  unfold mbind at 1, io_bind at 1 in H.
  destruct (iter data) as [rows'|e] eqn:Ei; [|discriminate].
  unfold mbind at 1, io_bind at 1 in H.
  match type of H with
  | match ?m with _ => _ end = _ => destruct m as [[[]|e] fs1] eqn:Eloop
  end; [|discriminate].
  injection H as <-.
  apply for_each_rows in Eloop as (cells & Hcells & ->).
  assert (Hshape : rows' = rows /\ exists rest, rows = PDict items :: rest).
  { destruct Hdata as [->| ->]; injection Ei as <-;
      (split; [reflexivity|]);
      (destruct rows as [|x l]; [discriminate Ef|]);
      injection Ef as ->; eauto. }
  destruct Hshape as (-> & rest & ->).
  exists items, rest, cells.
  split; [reflexivity|]. split; [|split].
  - eapply Forall2_impl; [exact Hcells|]. apply dict_to_list_returns.
  - clear -Hcells. rewrite <- (length_map fst items).
    induction Hcells as [|row c rows cells Hc _ IH]; constructor; [|exact IH].
    apply dict_to_list_returns in Hc as (? & _ & _ & ->). apply length_map.
  - now rewrite alter_alter_eq, alter_insert_eq.
Qed.

Lemma key_str_as_json (k : pykey) : key_str (key_as_json k) = key_str k.
Proof. now destruct k as [|[|]| | |]. Qed.

(** The text of a value is the text of what it is read back as. *)
Lemma encode_as_json (v : pyval) :
  forall level, encode level (as_json v) = encode level v.
Proof.
  induction v as [|b|z|s|l IH|l IH|items IH|r] using pyval_nested_ind;
    intros level; try reflexivity.
  - assert (Hel : encode_elements level (List.map as_json l)
                  = encode_elements level l).
    { induction IH as [|y l' Hy _ IHl]; [reflexivity|].
      cbn [List.map]. rewrite !encode_elements_cons, Hy.
      destruct (encode (S level) y); [|reflexivity]. cbn. now rewrite IHl. }
    destruct l as [|x l]; [reflexivity|].
    cbn [as_json]. cbn [List.map] in *. now rewrite !encode_list, Hel.
  - assert (Hel : encode_elements level (List.map as_json l)
                  = encode_elements level l).
    { induction IH as [|y l' Hy _ IHl]; [reflexivity|].
      cbn [List.map]. rewrite !encode_elements_cons, Hy.
      destruct (encode (S level) y); [|reflexivity]. cbn. now rewrite IHl. }
    destruct l as [|x l]; [reflexivity|].
    cbn [as_json]. cbn [List.map] in *. now rewrite encode_list, encode_tuple, Hel.
  - assert (Hel : encode_members level
                    (List.map (fun kv => (key_as_json (fst kv), as_json (snd kv))) items)
                  = encode_members level items).
    { induction IH as [|[k y] items' Hy _ IHl]; [reflexivity|].
      cbn [List.map fst snd]. rewrite !encode_members_cons, key_str_as_json.
      destruct (key_str k); [|reflexivity]. cbn in *. rewrite Hy.
      destruct (encode (S level) y); [|reflexivity]. cbn. now rewrite IHl. }
    destruct items as [|kx items]; [reflexivity|].
    cbn [as_json]. cbn [List.map] in *. now rewrite !encode_dict, Hel.
Qed.

(** When an export to JSON has succeeded on data whose keys stay
    distinct as JSON keys, an export of what is read back from its file
    writes the same text, to any path that opens. *)
Theorem export_to_json_again (data : pyval) (filename filename' : str)
    (fs fs1 fs2 : filesystem) :
  export_to_json data filename fs = (Ok true, fs1) ->
  keys_distinct data = true ->
  existsb (N.eqb 0) filename' = false ->
  unwritable filename' = false ->
  exists (v : pyval) (text : str),
    read_back fs1 filename = Some v
    /\ fs1 !! filename = Some text
    /\ export_to_json v filename' fs2 = (Ok true, <[filename' := text]> fs2).
Proof.
  intros Hexp Hkeys H1 H2.
  pose proof (export_to_json_outcome unwritable interrupted data filename fs) as Hout.
  rewrite Hexp in Hout. cbn [fst] in Hout.
  apply (export_to_json_true unwritable interrupted) in Hexp
    as (text & Henc & Hfile).
  rewrite Henc in Hout. injection Hout as Hout. symmetry in Hout.
  apply andb_true_iff in Hout as [_ Htext].
  exists (as_json data), text.
  split; [unfold read_back; rewrite Hfile; now apply loads_encode|].
  split; [exact Hfile|].
  unfold DataExportUtils.export_to_json. rewrite try_opened by assumption.
  unfold io_try, mbind, io_bind, json_dump, write.
  rewrite encode_as_json, Henc, Htext. cbn.
  now rewrite alter_insert_eq.
Qed.

End WithPlatform.

Lemma export_writes_only_witness :
  (DataExportUtils.export_to_csv Samples.every_path_opens Samples.plain_row
     Samples.one_record (lit "out.csv") {[lit "keep.txt" := lit "kept"]}).2
    !! lit "keep.txt"
  = ({[lit "keep.txt" := lit "kept"]} : filesystem) !! lit "keep.txt"
  /\ (DataExportUtils.export_to_json Samples.every_path_opens
        Samples.nothing_written Samples.one_record (lit "out.csv")
        {[lit "keep.txt" := lit "kept"]}).2
       !! lit "keep.txt"
     = ({[lit "keep.txt" := lit "kept"]} : filesystem) !! lit "keep.txt".
Proof.
  apply (export_writes_only Samples.every_path_opens Samples.nothing_written
           Samples.plain_row Samples.one_record (lit "out.csv") (lit "keep.txt")).
  intros H. vm_compute in H. discriminate H.
Defined.

Lemma export_not_written_witness :
  DataExportUtils.export_to_csv Samples.every_path_opens Samples.plain_row
    (PDict []) (lit "out.csv") ∅
  = (Ok false, ∅).
Proof.
  apply (export_not_written Samples.every_path_opens Samples.nothing_written
           Samples.plain_row (PDict []) (lit "out.csv") ∅).
  reflexivity.
Defined.

Lemma export_overwrites_witness :
  (DataExportUtils.export_to_json Samples.every_path_opens Samples.nothing_written
     Samples.one_record (lit "out.json") ∅).2 !! lit "out.json"
  = (DataExportUtils.export_to_json Samples.every_path_opens Samples.nothing_written
       Samples.one_record (lit "out.json") {[lit "out.json" := lit "old"]}).2
      !! lit "out.json".
Proof.
  exact (proj2 (proj1 (export_overwrites Samples.every_path_opens
                         Samples.nothing_written Samples.plain_row
                         Samples.one_record (lit "out.json")
                         ∅ {[lit "out.json" := lit "old"]} eq_refl eq_refl))).
Defined.

Lemma export_to_csv_content_witness :
  exists first rest cells,
    [PDict [(KStr (lit "id"), PStr (lit "a7"))]] = PDict first :: rest
    /\ Forall2 (csv_cells (List.map fst first))
         [PDict [(KStr (lit "id"), PStr (lit "a7"))]] cells
    /\ Forall (fun c => length c = length first) cells
    /\ (DataExportUtils.export_to_csv Samples.every_path_opens Samples.plain_row
          Samples.one_record (lit "out.csv") ∅).2
       = <[lit "out.csv" :=
             Samples.plain_row (List.map val_of_key (List.map fst first))
             ++ List.concat (List.map Samples.plain_row cells)]> ∅.
Proof.
  apply (export_to_csv_content Samples.every_path_opens Samples.plain_row
           [PDict [(KStr (lit "id"), PStr (lit "a7"))]]
           Samples.one_record (lit "out.csv") ∅).
  - left. reflexivity.
  - constructor; [intros rendering; discriminate | constructor].
  - reflexivity.
Defined.

Lemma export_to_json_again_witness :
  exists v text,
    read_back
      (DataExportUtils.export_to_json Samples.every_path_opens
         Samples.nothing_written Samples.stock_record (lit "out.json") ∅).2
      (lit "out.json") = Some v
    /\ (DataExportUtils.export_to_json Samples.every_path_opens
          Samples.nothing_written Samples.stock_record (lit "out.json") ∅).2
         !! lit "out.json" = Some text
    /\ DataExportUtils.export_to_json Samples.every_path_opens
         Samples.nothing_written v (lit "copy.json") ∅
       = (Ok true, <[lit "copy.json" := text]> ∅).
Proof.
  apply (export_to_json_again Samples.every_path_opens Samples.nothing_written
           Samples.stock_record (lit "out.json") (lit "copy.json") ∅ _ ∅);
    reflexivity.
Defined.

End ExportFileFacts.
